(** * WGAN-GP training script ([WGAN-GP/wgan_gp.py]): a shallow embedding

    The script is modelled the way it is written: tensors are nested lists of
    real numbers (a batch is a list of samples, a sample is a
    channels x height x width block), Python integers are [Z], the module-level
    variables of the script form an explicit [State] record that every step
    threads through, and failures are the exceptions of an error monad.

    Floating-point scalars are idealised as real numbers, except in
    [Floating], which keeps overflow, the infinities and nan for the
    properties that turn on them; the random number generators are streams
    indexed by a draw counter that the state carries.

    Covered: [compute_gradient_penalty], the start-up code that decides
    between a fresh run and a resume, the training loop, the layers and
    shapes of the two network classes and their initialisation, [smooth],
    the normalisation of the images, and the names of the files a run
    writes.  The contents of plots and checkpoints and the evaluation pass
    after training are not. *)

From Stdlib Require Import String.
From Stdlib Require Import Reals Lra Lia ZArith List Bool Arith DecimalString.
From Stdlib Require DecimalPos DecimalZ.
Import ListNotations.

Set Implicit Arguments.

(** ** Tensors *)

Module Tensor.

Local Open Scope R_scope.

(** One image: channels x height x width. *)
Definition Sample := list (list (list R)).

(** A batch of images: batch x channels x height x width. *)
Definition Batch := list Sample.

(** [torch.sum] over a one-dimensional tensor. *)
Fixpoint sum (l : list R) : R :=
  match l with
  | [] => 0
  | x :: t => x + sum t
  end.

(** [torch.mean]: on an empty tensor torch yields nan; here it is the value
    [0 / 0] of the real field. *)
Definition mean (l : list R) : R := sum l / INR (length l).

(** Elementwise combination of two lists; stops with the shorter one. *)
Fixpoint map2 {A B C : Type} (f : A -> B -> C) (l1 : list A) (l2 : list B) : list C :=
  match l1, l2 with
  | a :: t1, b :: t2 => f a b :: map2 f t1 t2
  | _, _ => []
  end.

(** Elementwise operations on one sample.  The script only combines samples
    of one shape; on two samples of different shapes, where torch would
    broadcast or raise, [smap2] stops with the shorter one. *)
Definition smap (f : R -> R) (s : Sample) : Sample :=
  map (map (map f)) s.

Definition smap2 (f : R -> R -> R) (s t : Sample) : Sample :=
  map2 (map2 (map2 f)) s t.

(** [t.view(t.shape[0], -1)] on one sample: row-major flattening. *)
Definition flatten (s : Sample) : list R := concat (concat s).

(** [v.norm(2)]: the Euclidean norm of a vector. *)
Definition norm2 (v : list R) : R := sqrt (sum (map (fun x => x * x) v)).

(** [torch.ones(n)]. *)
Definition ones (n : nat) : list R := repeat 1 n.

(** Inner product, as used by a vector-Jacobian product. *)
Definition dot (u v : list R) : R := sum (map2 Rmult u v).

(** The last two statements of [compute_gradient_penalty]:
    [penalty = (gradients.norm(2, dim=1) - 1) ** 2] and then
    [penalty = penalty * lambda_pen], on the flattened per-sample gradients. *)
Definition penalty_of_gradients (gradients : list (list R)) (lambda_pen : R) : list R :=
  let penalty := map (fun g => (norm2 g - 1) ^ 2) gradients in
  map (fun p => p * lambda_pen) penalty.

End Tensor.

Import Tensor.

(** ** Exceptions and the error monad *)

(** The Python exceptions the modelled statements can raise. *)
Inductive exn : Type :=
| StopIteration        (* [next] on an exhausted iterator *)
| ShapeError           (* operands that do not broadcast *)
| ValueError           (* a negative dimension given to [np.random.randn] *)
| ZeroDivisionError    (* [e % 0] *)
| RuntimeError         (* [backward] on a loss no trainable parameter reaches,
                          [view(0, -1)] on a tensor without elements *)
| FileNotFoundError    (* [open] on a missing file *)
| SystemExit           (* [sys.exit(-1)] *)
| OSError.             (* a path taken by something that is no directory *)

(** Outcome of running a statement: normal completion, an exception, or the
    loop budget of the model running out. *)
Inductive result (A : Type) : Type :=
| Ok (a : A)
| Raise (e : exn)
| OutOfFuel.

Arguments Ok {A} a.
Arguments Raise {A} e.
Arguments OutOfFuel {A}.

Definition bind {A B : Type} (m : result A) (k : A -> result B) : result B :=
  match m with
  | Ok a => k a
  | Raise e => Raise e
  | OutOfFuel => OutOfFuel
  end.

Declare Scope result_scope.
Delimit Scope result_scope with result.
Notation "x <- m ;; k" := (bind m (fun x => k))
  (at level 61, m at next level, right associativity) : result_scope.
Notation "m ;;; k" := (bind m (fun _ => k))
  (at level 61, right associativity) : result_scope.

(** A [while] loop, unrolled at most [fuel] times. *)
Fixpoint while {St : Type} (fuel : nat) (cond : St -> bool) (body : St -> result St)
    (s : St) : result St :=
  match fuel with
  | O => OutOfFuel
  | S n =>
      if cond s then bind (body s) (while n cond body) else Ok s
  end.

(** ** Broadcasting *)

Module Broadcast.

(** A binary tensor operation whose operands may differ in the batch
    dimension: equal sizes combine elementwise, a size-1 operand is repeated,
    anything else is a shape error. *)
Definition broadcast2 {A : Type} (f : A -> A -> A) (x y : list A) : result (list A) :=
  match x, y with
  | [a], _ => Ok (map (f a) y)
  | _, [b] => Ok (map (fun a => f a b) x)
  | _, _ =>
      if Nat.eqb (length x) (length y) then Ok (map2 f x y) else Raise ShapeError
  end.

(** A (B,1) column plus a (B',) row broadcasts to the (B,B') matrix of all
    pairwise sums. *)
Definition column_plus_row (col row : list R) : list (list R) :=
  map (fun a => map (fun p => (a + p)%R) row) col.

(** [torch.mean] of a matrix: the mean over all of its entries. *)
Definition mean_all (m : list (list R)) : R := mean (concat m).

End Broadcast.

Import Broadcast.

(** ** Configuration *)

Module Config.

(** The keys the script reads from [config.yml]. *)
Record t : Type := {
  dataset : string;
  n_noise_features : Z;
  epochs : Z;
  disc_steps : Z;
  gen_steps : Z;
  batch_size : Z;
  print_every : Z;
  checkpoints : Z;
  rolling_window : Z;
  discriminator_filters : Z;
  generator_filters : Z;
  discriminator_label_noise : R;
  discriminator_input_noise : R;
  resume_training : bool;
  lambda_pen : R
}.

End Config.

(** ** The torch back end

    What the script takes from torch and numpy: the two networks, automatic
    differentiation, the Adam optimiser and the random number generators.
    The networks are the script's own classes, but their layers are library
    code; what the embedding keeps of them is their structure.  The
    discriminator is a stack of convolutions and leaky ReLUs without batch
    normalisation, so it scores each sample on its own.  The generator
    normalises over the batch, so a generated sample depends on its noise row
    and on the whole noise batch. *)

Class Backend : Type := {
  DParams : Type;             (* discriminator weights *)
  GParams : Type;             (* generator weights *)
  DGrad : Type;               (* the [.grad] buffers of the discriminator *)
  GGrad : Type;               (* the [.grad] buffers of the generator *)
  DOpt : Type;                (* Adam moments for the discriminator *)
  GOpt : Type;                (* Adam moments for the generator *)

  (* [Discriminator.forward] on one sample *)
  D_sample : DParams -> Sample -> R;
  (* [Generator.forward]: the sample generated for one noise row of a batch *)
  G_sample : GParams -> list (list R) -> list R -> Sample;

  (* the gradient of a scalar function of a batch, at a batch *)
  gradient : (Batch -> R) -> Batch -> Batch;
  gradient_length : forall f x, length (gradient f x) = length x;
  gradient_local : forall f g x,
      (forall y, length y = length x -> f y = g y) ->
      gradient f x = gradient g x;

  (* the gradient of a scalar function of the weights, at the weights *)
  d_gradient : (DParams -> R) -> DParams -> DGrad;
  g_gradient : (GParams -> R) -> GParams -> GGrad;
  d_gradient_ext : forall f g p,
      (forall q, f q = g q) -> d_gradient f p = d_gradient g p;
  g_gradient_ext : forall f g p,
      (forall q, f q = g q) -> g_gradient f p = g_gradient g p;
  (* [.grad] buffers: all zeros, and accumulation *)
  d_zero : DGrad;
  g_zero : GGrad;
  d_accumulate : DGrad -> DGrad -> DGrad;
  g_accumulate : GGrad -> GGrad -> GGrad;
  (* [Adam.step] *)
  d_adam : DOpt -> DParams -> DGrad -> DParams * DOpt;
  g_adam : GOpt -> GParams -> GGrad -> GParams * GOpt;

  (* the k-th draw of numpy's standard normal generator *)
  normal : nat -> R;
  (* the k-th draw of torch's uniform generator *)
  uniform : nat -> R;
  uniform_range : forall k, (0 <= uniform k < 1)%R;
  (* [torch.randperm n] drawn at generator position k *)
  randperm : nat -> nat -> list nat;
  randperm_length : forall k n, length (randperm k n) = n
}.

Section Torch.

Context {T : Backend}.

(** [discriminator(x)]: one score per sample, shape (B, 1). *)
Definition Discriminator (p : DParams) (x : Batch) : list R :=
  map (D_sample p) x.

(** [generator(z)]: one sample per noise row.  The rows have at least one
    feature wherever a property depends on the network accepting them; a
    noise batch without features, which the first layer rejects, is outside
    the embedding. *)
Definition Generator (p : GParams) (z : list (list R)) : Batch :=
  map (G_sample p z) z.

(** [np.random.randn(rows, cols)] with the generator at position [k]. *)
Definition randn (k : nat) (rows cols : Z) : result (list (list R)) :=
  if ((rows <? 0) || (cols <? 0))%Z then Raise ValueError
  else
    let c := Z.to_nat cols in
    Ok (map (fun r => map (fun q => normal (k + r * c + q)) (seq 0 c))
            (seq 0 (Z.to_nat rows))).

(** [torch.rand(n, 1, 1, 1)] with the generator at position [k]. *)
Definition rand (k n : nat) : list R := map uniform (seq k n).

(** [alpha.expand_as(real)]: the coefficient of a sample repeated over its
    channels, rows and columns. *)
Definition expand_as (alpha : list R) (real : Batch) : Batch :=
  map2 (fun a s => smap (fun _ => a) s) alpha real.

(** [torch.autograd.grad(outputs, inputs, grad_outputs)]: the vector-Jacobian
    product, the gradient at [inputs] of the inner product of the outputs
    with [grad_outputs]. *)
Definition autograd_grad (outputs : Batch -> list R) (inputs : Batch)
    (grad_outputs : list R) : result Batch :=
  if Nat.eqb (length (outputs inputs)) (length grad_outputs)
  then Ok (gradient (fun x => dot (outputs x) grad_outputs) inputs)
  else Raise ShapeError.

(** [gradients.view(gradients.shape[0], -1)]: every sample flattened to a
    row.  On a batch without samples the size that [-1] stands for cannot be
    inferred, and [view] raises. *)
Definition view_rows (gradients : Batch) : result (list (list R)) :=
  match gradients with
  | [] => Raise RuntimeError
  | _ :: _ => Ok (map flatten gradients)
  end.

(** [compute_gradient_penalty(real, fake, discriminator, lambda_pen)], with
    torch's generator at position [k]; [real.shape[0]] draws are consumed. *)
Definition compute_gradient_penalty (real fake : Batch)
    (discriminator : Batch -> list R) (lambda_pen : R) (k : nat)
    : result (list R) :=
  let alpha := rand k (length real) in
  let alpha := expand_as alpha real in
  (a_real <- broadcast2 (smap2 Rmult) alpha real ;;
   a_fake <- broadcast2 (smap2 Rmult) (map (smap (fun a => 1 - a)%R) alpha) fake ;;
   x_hat <- broadcast2 (smap2 Rplus) a_real a_fake ;;
   let out := discriminator x_hat in
   gradients <- autograd_grad discriminator x_hat (ones (length out)) ;;
   gradients <- view_rows gradients ;;
   Ok (penalty_of_gradients gradients lambda_pen))%result.

End Torch.

(** ** The data loader *)

Module Loader.

(** [l] cut into consecutive pieces of [size] elements, the last one shorter
    when [size] does not divide the length. *)
Fixpoint chunk_fuel {A : Type} (fuel size : nat) (l : list A) : list (list A) :=
  match fuel with
  | O => []
  | S f =>
      match l with
      | [] => []
      | _ :: _ => firstn size l :: chunk_fuel f size (skipn size l)
      end
  end.

Definition chunk {A : Type} (size : nat) (l : list A) : list (list A) :=
  chunk_fuel (length l) size l.

(** [torch.utils.data.DataLoader(train_data, batch_size=..., shuffle=True)];
    the labels, which the script discards, are left out. *)
Record DataLoader : Type := {
  train_data : list Sample;
  batch_size : Z
}.

(** [len(train_loader)], with [drop_last] left at its default. *)
Definition len (dl : DataLoader) : Z :=
  ((Z.of_nat (length (train_data dl)) + batch_size dl - 1) / batch_size dl)%Z.

(** The batches one pass over the loader yields, for the permutation [perm]
    of the sample indices. *)
Definition batches (dl : DataLoader) (perm : list nat) : list Batch :=
  chunk (Z.to_nat (batch_size dl))
        (map (fun q => nth q (train_data dl) []) perm).

End Loader.

(** ** The state of the script *)

(** The two networks. *)
Inductive Model : Type := Disc | Gen.

(** What the script does to the outside world and to the optimisers, in the
    order it does it. *)
Inductive Event : Type :=
| EvRandn (rows cols : Z)        (* [np.random.randn(rows, cols)] *)
| EvZeroGrad (m : Model)         (* [<m>_optimizer.zero_grad()] *)
| EvBackward (site : Model) (loss : R) (d_trainable g_trainable : bool)
                                 (* [loss.backward()] of the <site> phase *)
| EvStep (m : Model)             (* [<m>_optimizer.step()] *)
| EvPrint (e : Z)                (* the per-epoch [print] *)
| EvFrame (e : Z)                (* [generate_frame(..., e, frame_noise)] *)
| EvCheckpoint (e : Z).          (* [checkpoint(..., e)] *)

(** A network: its weights, whether they take part in differentiation, and
    their gradient buffers. *)
Record Net (P G : Type) : Type := {
  params : P;
  requires_grad : bool;
  grad : G
}.

Section Script.

Context {T : Backend}.

(** The module-level variables the training loop reads and writes, the
    position of the two random generators, and the trace of events. *)
Record State : Type := {
  disc_losses : list R;
  gen_losses : list R;
  w_distances : list R;
  gradient_penalty_list : list R;
  gen_iterations : Z;
  steps : Z;
  epoch_dlosses : list R;
  epoch_glosses : list R;
  train_iterator : list Batch;
  i : Z;
  j : Z;
  disc_steps : Z;
  discriminator : Net DParams DGrad;
  generator : Net GParams GGrad;
  disc_optimizer : DOpt;
  gen_optimizer : GOpt;
  writer : list (string * R * Z);
  np_random : nat;
  torch_random : nat;
  events : list Event
}.

(** [loss.backward()] for a loss that is the function [L] of the weights of
    both networks: the gradient with respect to every trainable weight is
    added to its buffer; a loss no trainable weight reaches cannot be
    differentiated. *)
Definition backward (L : DParams -> GParams -> R)
    (d : Net DParams DGrad) (g : Net GParams GGrad)
    : result (Net DParams DGrad * Net GParams GGrad) :=
  if negb (requires_grad d || requires_grad g) then Raise RuntimeError
  else
    let d' :=
      if requires_grad d
      then {| params := params d; requires_grad := requires_grad d;
              grad := d_accumulate (grad d)
                        (d_gradient (fun p => L p (params g)) (params d)) |}
      else d in
    let g' :=
      if requires_grad g
      then {| params := params g; requires_grad := requires_grad g;
              grad := g_accumulate (grad g)
                        (g_gradient (fun p => L (params d) p) (params g)) |}
      else g in
    Ok (d', g').

(** The value a failed forward pass contributes to differentiation: none. *)
Definition value_of (r : result R) : R :=
  match r with
  | Ok v => v
  | _ => 0%R
  end.

(** What the discriminator phase computes before differentiating. *)
Record Forward : Type := {
  disc_output : list R;
  gen_images : Batch;
  gen_output : list R;
  gradient_penalty : list R;
  loss : R
}.

Section Steps.

Variable cfg : Config.t.
Variable train_loader : Loader.DataLoader.

(** The adaptive choice of [disc_steps], before the inner loop:
    [if gen_iterations < 25 or gen_iterations % 500 == 0: disc_steps = 100
     else: disc_steps = config['disc_steps']]. *)
Definition scheduled_disc_steps (gen_iterations : Z) : Z :=
  if ((gen_iterations <? 25) || (gen_iterations mod 500 =? 0))%Z
  then 100%Z
  else Config.disc_steps cfg.

(** The forward pass of the discriminator phase, as a function of the weights
    of both networks: from [disc_output = discriminator(images)] to
    [loss = torch.mean(gen_output - disc_output + gradient_penalty)].
    [gen_output - disc_output] has shape (B,1) and the penalty has shape (B,),
    so their sum is the (B,B) matrix of all pairwise sums.  [fake] is the
    value of [gen_images] that [compute_gradient_penalty] is given: the
    interpolated batch is wrapped as a new leaf there, so the penalty is a
    function of the discriminator's weights and of that value, not of the
    generator's weights. *)
Definition disc_forward (dp : DParams) (gp : GParams) (images : Batch)
    (noises : list (list R)) (fake : Batch) (k : nat) : result Forward :=
  let disc_output := Discriminator dp images in
  let gen_images := Generator gp noises in
  let gen_output := Discriminator dp gen_images in
  (gradient_penalty <-
     compute_gradient_penalty images fake (Discriminator dp)
       (Config.lambda_pen cfg) k ;;
   diff <- broadcast2 Rminus gen_output disc_output ;;
   let loss := mean_all (column_plus_row diff gradient_penalty) in
   Ok {| disc_output := disc_output; gen_images := gen_images;
         gen_output := gen_output; gradient_penalty := gradient_penalty;
         loss := loss |})%result.

(** One pass of the inner [while] body: a discriminator update on the next
    batch of the loader. *)
Definition disc_step (s : State) : result State :=
  match train_iterator s with
  | [] => Raise StopIteration
  | images :: rest =>
      let common_batch_size :=
        Z.min (Config.batch_size cfg) (Z.of_nat (length images)) in
      let d0 := {| params := params (discriminator s);
                   requires_grad := requires_grad (discriminator s);
                   grad := d_zero |} in
      (noises <- randn (np_random s) common_batch_size
                   (Config.n_noise_features cfg) ;;
       let k := torch_random s in
       let fake := Generator (params (generator s)) noises in
       fw <- disc_forward (params d0) (params (generator s)) images noises
               fake k ;;
       dg <- backward
               (fun dp gp => value_of
                  (f <- disc_forward dp gp images noises fake k ;;
                   Ok (loss f)))
               d0 (generator s) ;;
       diff <- broadcast2 Rminus (disc_output fw) (gen_output fw) ;;
       let wdist := mean diff in
       let stepped := d_adam (disc_optimizer s) (params (fst dg)) (grad (fst dg)) in
       Ok {| disc_losses := disc_losses s ++ [loss fw];
             gen_losses := gen_losses s;
             w_distances := w_distances s ++ [wdist];
             gradient_penalty_list :=
               gradient_penalty_list s ++ [mean (gradient_penalty fw)];
             gen_iterations := gen_iterations s;
             steps := (steps s + 1)%Z;
             epoch_dlosses := epoch_dlosses s ++ [loss fw];
             epoch_glosses := epoch_glosses s;
             train_iterator := rest;
             i := (i s + 1)%Z;
             j := (j s + 1)%Z;
             disc_steps := disc_steps s;
             discriminator :=
               {| params := fst stepped;
                  requires_grad := requires_grad (fst dg);
                  grad := grad (fst dg) |};
             generator := snd dg;
             disc_optimizer := snd stepped;
             gen_optimizer := gen_optimizer s;
             writer :=
               writer s ++
               [("data/D_loss"%string, loss fw, steps s);
                ("data/gradient_penalty"%string,
                 mean (gradient_penalty fw), steps s);
                ("data/Wasserstein_distance_estimate"%string, wdist, steps s)];
             np_random :=
               np_random s
               + Z.to_nat common_batch_size
                 * Z.to_nat (Config.n_noise_features cfg);
             torch_random := torch_random s + length images;
             events :=
               events s ++
               [EvZeroGrad Disc;
                EvRandn common_batch_size (Config.n_noise_features cfg);
                EvBackward Disc (loss fw)
                  (requires_grad d0) (requires_grad (generator s));
                EvStep Disc] |})%result
  end.

(** [for p in discriminator.parameters(): p.requires_grad = b]. *)
Definition set_discriminator_requires_grad (b : bool) (s : State) : State :=
  {| disc_losses := disc_losses s;
     gen_losses := gen_losses s;
     w_distances := w_distances s;
     gradient_penalty_list := gradient_penalty_list s;
     gen_iterations := gen_iterations s;
     steps := steps s;
     epoch_dlosses := epoch_dlosses s;
     epoch_glosses := epoch_glosses s;
     train_iterator := train_iterator s;
     i := i s;
     j := j s;
     disc_steps := disc_steps s;
     discriminator :=
       {| params := params (discriminator s);
          requires_grad := b;
          grad := grad (discriminator s) |};
     generator := generator s;
     disc_optimizer := disc_optimizer s;
     gen_optimizer := gen_optimizer s;
     writer := writer s;
     np_random := np_random s;
     torch_random := torch_random s;
     events := events s |}.

(** The generator update: from [gen_optimizer.zero_grad()] to
    [gen_iterations += 1]. *)
Definition gen_step (s : State) : result State :=
  let g0 := {| params := params (generator s);
               requires_grad := requires_grad (generator s);
               grad := g_zero |} in
  (noises <- randn (np_random s) (Config.batch_size cfg)
               (Config.n_noise_features cfg) ;;
   let gen_loss := fun dp gp =>
     (- mean (Discriminator dp (Generator gp noises)))%R in
   let loss := gen_loss (params (discriminator s)) (params g0) in
   dg <- backward gen_loss (discriminator s) g0 ;;
   let stepped := g_adam (gen_optimizer s) (params (snd dg)) (grad (snd dg)) in
   Ok {| disc_losses := disc_losses s;
         gen_losses := gen_losses s ++ [loss];
         w_distances := w_distances s;
         gradient_penalty_list := gradient_penalty_list s;
         gen_iterations := (gen_iterations s + 1)%Z;
         steps := steps s;
         epoch_dlosses := epoch_dlosses s;
         epoch_glosses := epoch_glosses s ++ [loss];
         train_iterator := train_iterator s;
         i := i s;
         j := j s;
         disc_steps := disc_steps s;
         discriminator := fst dg;
         generator :=
           {| params := fst stepped;
              requires_grad := requires_grad (snd dg);
              grad := grad (snd dg) |};
         disc_optimizer := disc_optimizer s;
         gen_optimizer := snd stepped;
         writer :=
           writer s ++ [("data/G_loss"%string, loss, gen_iterations s)];
         np_random :=
           np_random s
           + Z.to_nat (Config.batch_size cfg)
             * Z.to_nat (Config.n_noise_features cfg);
         torch_random := torch_random s;
         events :=
           events s ++
           [EvZeroGrad Gen;
            EvRandn (Config.batch_size cfg) (Config.n_noise_features cfg);
            EvBackward Gen loss
              (requires_grad (discriminator s)) (requires_grad g0);
            EvStep Gen] |})%result.

(** The generator phase: the discriminator is frozen, then the generator is
    updated once. *)
Definition gen_phase (s : State) : result State :=
  gen_step (set_discriminator_requires_grad false s).

(** The start of the discriminator phase: gradient tracking switched on for
    the discriminator, [disc_steps] chosen, [j = 0].  The assignment to
    [noise_factor], which nothing reads, is left out. *)
Definition begin_disc_phase (s : State) : State :=
  let s := set_discriminator_requires_grad true s in
  {| disc_losses := disc_losses s;
     gen_losses := gen_losses s;
     w_distances := w_distances s;
     gradient_penalty_list := gradient_penalty_list s;
     gen_iterations := gen_iterations s;
     steps := steps s;
     epoch_dlosses := epoch_dlosses s;
     epoch_glosses := epoch_glosses s;
     train_iterator := train_iterator s;
     i := i s;
     j := 0%Z;
     disc_steps := scheduled_disc_steps (gen_iterations s);
     discriminator := discriminator s;
     generator := generator s;
     disc_optimizer := disc_optimizer s;
     gen_optimizer := gen_optimizer s;
     writer := writer s;
     np_random := np_random s;
     torch_random := torch_random s;
     events := events s |}.

(** [j < disc_steps and i < len(train_loader)]. *)
Definition inner_cond (s : State) : bool :=
  ((j s <? disc_steps s) && (i s <? Loader.len train_loader))%Z.

(** [i < len(train_loader)]. *)
Definition outer_cond (s : State) : bool :=
  (i s <? Loader.len train_loader)%Z.

(** The discriminator phase: the inner [while] loop. *)
Definition disc_phase (fuel : nat) (s : State) : result State :=
  while fuel inner_cond disc_step (begin_disc_phase s).

(** One pass of the outer [while] body. *)
Definition outer_body (fuel : nat) (s : State) : result State :=
  bind (disc_phase fuel s) gen_phase.

(** Python's [a % b] on integers. *)
Definition py_mod (a b : Z) : result Z :=
  if (b =? 0)%Z then Raise ZeroDivisionError else Ok (a mod b)%Z.

(** The head of the epoch body: the periodic [print], the per-epoch loss
    lists, a fresh iterator over the shuffled loader, [i = 0]. *)
Definition begin_epoch (e : Z) (s : State) : result State :=
  (r <- py_mod e (Config.print_every cfg) ;;
   let n := length (Loader.train_data train_loader) in
   Ok {| disc_losses := disc_losses s;
         gen_losses := gen_losses s;
         w_distances := w_distances s;
         gradient_penalty_list := gradient_penalty_list s;
         gen_iterations := gen_iterations s;
         steps := steps s;
         epoch_dlosses := [];
         epoch_glosses := [];
         train_iterator :=
           Loader.batches train_loader (randperm (torch_random s) n);
         i := 0%Z;
         j := j s;
         disc_steps := disc_steps s;
         discriminator := discriminator s;
         generator := generator s;
         disc_optimizer := disc_optimizer s;
         gen_optimizer := gen_optimizer s;
         writer := writer s;
         np_random := np_random s;
         torch_random := torch_random s + n;
         events :=
           events s ++ (if (r =? 0)%Z then [EvPrint e] else []) |})%result.

(** The tail of the epoch body: the periodic frame and [print], and the
    periodic checkpoint, which draws one noise batch for its sample grid. *)
Definition end_epoch (e : Z) (s : State) : result State :=
  (r <- py_mod e (Config.print_every cfg) ;;
   let shown := if (r =? 0)%Z then [EvFrame e; EvPrint e] else [] in
   c <- py_mod e (Config.checkpoints cfg) ;;
   drawn <-
     (if (c =? 0)%Z
      then
        (_ <- randn (np_random s) (Config.batch_size cfg)
                (Config.n_noise_features cfg) ;;
         Ok (Z.to_nat (Config.batch_size cfg)
             * Z.to_nat (Config.n_noise_features cfg)))
      else Ok 0) ;;
   Ok {| disc_losses := disc_losses s;
         gen_losses := gen_losses s;
         w_distances := w_distances s;
         gradient_penalty_list := gradient_penalty_list s;
         gen_iterations := gen_iterations s;
         steps := steps s;
         epoch_dlosses := epoch_dlosses s;
         epoch_glosses := epoch_glosses s;
         train_iterator := train_iterator s;
         i := i s;
         j := j s;
         disc_steps := disc_steps s;
         discriminator := discriminator s;
         generator := generator s;
         disc_optimizer := disc_optimizer s;
         gen_optimizer := gen_optimizer s;
         writer := writer s;
         np_random := np_random s + drawn;
         torch_random := torch_random s;
         events :=
           events s ++ shown
           ++ (if (c =? 0)%Z then [EvCheckpoint e] else []) |})%result.

(** The outer [while] loop of one epoch. *)
Definition epoch_loop (fuel : nat) (s : State) : result State :=
  while fuel outer_cond (outer_body fuel) s.

(** The body of [for e in range(epochs)]. *)
Definition run_epoch (fuel : nat) (e : Z) (s : State) : result State :=
  (s1 <- begin_epoch e s ;;
   s2 <- epoch_loop fuel s1 ;;
   end_epoch e s2)%result.

(** [range(n)]. *)
Definition range (n : Z) : list Z := map Z.of_nat (seq 0 (Z.to_nat n)).

Fixpoint for_each (es : list Z) (body : Z -> State -> result State)
    (s : State) : result State :=
  match es with
  | [] => Ok s
  | e :: rest => bind (body e s) (for_each rest body)
  end.

(** [for e in range(epochs): ...]. *)
Definition train (fuel : nat) (s : State) : result State :=
  for_each (range (Config.epochs cfg)) (run_epoch fuel) s.

(** The state when the training loop is entered: freshly built optimisers
    around the given weights, empty metric streams, zeroed counters; the
    preview batch has taken one permutation from torch's generator and
    [frame_noise] one noise batch from numpy's. *)
Definition initial_state (dp : DParams) (gp : GParams) (dopt : DOpt)
    (gopt : GOpt) : result State :=
  match Loader.train_data train_loader with
  | [] => Raise StopIteration
  | _ :: _ =>
      (_ <- randn 0 (Config.batch_size cfg) (Config.n_noise_features cfg) ;;
       Ok {| disc_losses := [];
             gen_losses := [];
             w_distances := [];
             gradient_penalty_list := [];
             gen_iterations := 0%Z;
             steps := 0%Z;
             epoch_dlosses := [];
             epoch_glosses := [];
             train_iterator := [];
             i := 0%Z;
             j := 0%Z;
             disc_steps := Config.disc_steps cfg;
             discriminator :=
               {| params := dp; requires_grad := true; grad := d_zero |};
             generator :=
               {| params := gp; requires_grad := true; grad := g_zero |};
             disc_optimizer := dopt;
             gen_optimizer := gopt;
             writer := [];
             np_random :=
               Z.to_nat (Config.batch_size cfg)
               * Z.to_nat (Config.n_noise_features cfg);
             torch_random := length (Loader.train_data train_loader);
             events := [] |})%result
  end.

End Steps.

End Script.

(** ** Start-up: which run this is *)

Module Startup.

Local Open Scope string_scope.

(** What the start-up code sees of the file system. *)
Record FileSystem : Type := {
  (* the parsed contents of a YAML file, when the file exists *)
  read_yaml : string -> option Config.t;
  (* [os.path.isdir] *)
  isdir : string -> bool
}.

(** Where the weights of the two networks come from. *)
Inductive Weights : Type :=
| weight_init                         (* fresh, normally distributed *)
| load_state_dict (folder : string).  (* restored from [folder] *)

(** What the start-up code decides. *)
Record Run : Type := {
  config_file : string;
  config : Config.t;
  resume_training : bool;
  result_dir : string;
  video_dir : string;
  makedirs : list string;             (* [os.makedirs] calls, in order *)
  weights : Weights
}.

(** [str(n)] for an integer. *)
Definition str (n : Z) : string := NilZero.string_of_int (Z.to_int n).

(** [parser.add_argument('--resume_from_folder', type=str, default='None')]
    on a command line that gives the flag a value or leaves it out. *)
Definition parse_args (flag : option string) : string :=
  match flag with
  | Some folder => folder
  | None => "None"
  end.

(** The module-level code from [parser.parse_args()] to the construction of
    the networks; [now] is the formatted current time.  The summary writer
    built in between is added by [startup_with_writer] below. *)
Definition startup (fs : FileSystem) (now : string) (flag : option string)
    : result Run :=
  let resume_from_folder := parse_args flag in
  let '(resume_from_folder, config_file, resume_training) :=
    if negb (resume_from_folder =? "None")
    then
      let resume_from_folder :=
        resume_from_folder
        ++ (if negb (resume_from_folder =? "/") then "/" else "") in
      (resume_from_folder, resume_from_folder ++ "config.yml", true)
    else (resume_from_folder, "config.yml", false) in
  match read_yaml fs config_file with
  | None => Raise FileNotFoundError
  | Some config =>
      (* the value set from the flag is overwritten here *)
      let resume_training := Config.resume_training config in
      if negb resume_training
      then
        let result_dir :=
          now ++ "_e" ++ str (Config.epochs config)
              ++ "_d" ++ str (Config.discriminator_filters config)
              ++ "_g" ++ str (Config.generator_filters config) ++ "/" in
        if negb (isdir fs result_dir)
        then
          match read_yaml fs "config.yml" with
          | None => Raise FileNotFoundError   (* [shutil.copy2] *)
          | Some _ =>
              let video_dir := result_dir ++ "video/" in
              Ok {| config_file := config_file;
                    config := config;
                    resume_training := resume_training;
                    result_dir := result_dir;
                    video_dir := video_dir;
                    makedirs :=
                      result_dir ::
                      (if negb (isdir fs video_dir) then [video_dir] else []);
                    weights := weight_init |}
          end
        else Raise SystemExit
      else
        Ok {| config_file := config_file;
              config := config;
              resume_training := resume_training;
              result_dir := resume_from_folder;
              video_dir := resume_from_folder ++ "video/";
              makedirs := [];
              weights := load_state_dict resume_from_folder |}
  end.

(** [SummaryWriter(log_dir=...)]: the writer creates its log directory when
    no such path exists, and has nowhere to write when the path is taken by
    something that is no directory.  [is_dir] and [path_exists] describe the
    disk at the time the writer is built. *)
Definition SummaryWriter (is_dir path_exists : string -> bool)
    (log_dir : string) : result (list string) :=
  if is_dir log_dir then Ok []
  else if path_exists log_dir then Raise OSError
  else Ok [log_dir].

(** The start-up code with
    [writer = SummaryWriter(log_dir='{}tensorboard'.format(result_dir))]:
    the run, and every directory created on the way, in order.
    [path_exists] is [os.path.exists] on the disk as the script found it;
    by the time the writer is built the directories made so far exist as
    well. *)
Definition startup_with_writer (fs : FileSystem)
    (path_exists : string -> bool) (now : string) (flag : option string)
    : result (Run * list string) :=
  (run <- startup fs now flag ;;
   let made := fun d => existsb (String.eqb d) (makedirs run) in
   created <- SummaryWriter (fun d => isdir fs d || made d)%bool
                (fun d => path_exists d || made d)%bool
                (result_dir run ++ "tensorboard") ;;
   Ok (run, (makedirs run ++ created)%list))%result.

End Startup.

(** ** A small back end

    A concrete instance of the interface, for running the script on concrete
    inputs: the discriminator scores every sample with its single weight, the
    generator fills a one-pixel image with its single weight, every function
    is differentiated as a constant, and the optimisers subtract the
    gradient. *)

Module Small.

Local Open Scope R_scope.

Definition zeros_like (x : Batch) : Batch := map (smap (fun _ => 0)) x.

#[export] Program Instance backend : Backend := {|
  DParams := R;
  GParams := R;
  DGrad := R;
  GGrad := R;
  DOpt := unit;
  GOpt := unit;
  D_sample := fun p _ => p;
  G_sample := fun p _ _ => [[[p]]];
  gradient := fun _ x => zeros_like x;
  d_gradient := fun _ _ => 0;
  g_gradient := fun _ _ => 0;
  d_zero := 0;
  g_zero := 0;
  d_accumulate := Rplus;
  g_accumulate := Rplus;
  d_adam := fun o p g => (p - g, o);
  g_adam := fun o p g => (p - g, o);
  normal := fun _ => 0;
  uniform := fun _ => / 2;
  randperm := fun _ n => seq 0 n
|}.
Next Obligation. unfold zeros_like. apply length_map. Qed.
Next Obligation. lra. Qed.
Next Obligation. apply length_seq. Qed.

(** A configuration with the values of the end-to-end scenario. *)
Definition config : Config.t := {|
  Config.dataset := "CIFAR10";
  Config.n_noise_features := 10;
  Config.epochs := 1;
  Config.disc_steps := 1;
  Config.gen_steps := 1;
  Config.batch_size := 8;
  Config.print_every := 1;
  Config.checkpoints := 1;
  Config.rolling_window := 10;
  Config.discriminator_filters := 64;
  Config.generator_filters := 64;
  Config.discriminator_label_noise := 0;
  Config.discriminator_input_noise := 0;
  Config.resume_training := false;
  Config.lambda_pen := 10
|}.

(** A one-pixel image. *)
Definition pixel (v : R) : Sample := [[[v]]].

(** A loader over three one-pixel images, in batches of eight. *)
Definition loader : Loader.DataLoader := {|
  Loader.train_data := [pixel 0; pixel 1; pixel (-1)];
  Loader.batch_size := 8
|}.

(** The state in which the training loop is entered, with [batches] left in
    the iterator. *)
Definition state (batches : list Batch) : State := {|
  disc_losses := [];
  gen_losses := [];
  w_distances := [];
  gradient_penalty_list := [];
  gen_iterations := 0;
  steps := 0;
  epoch_dlosses := [];
  epoch_glosses := [];
  train_iterator := batches;
  i := 0;
  j := 0;
  disc_steps := 1;
  discriminator := {| params := 0; requires_grad := true; grad := 0 |};
  generator := {| params := 0; requires_grad := true; grad := 0 |};
  disc_optimizer := tt;
  gen_optimizer := tt;
  writer := [];
  np_random := 80;
  torch_random := 3;
  events := []
|}.

(** A backward pass that sees both networks trainable. *)
Definition both_trainable (ev : Event) : bool :=
  match ev with
  | EvBackward _ _ d g => d && g
  | _ => false
  end.

(** A local [config.yml] that says [resume_training: true]. *)
Definition resuming_config : Config.t := {|
  Config.dataset := "CIFAR10";
  Config.n_noise_features := 10;
  Config.epochs := 1;
  Config.disc_steps := 1;
  Config.gen_steps := 1;
  Config.batch_size := 8;
  Config.print_every := 1;
  Config.checkpoints := 1;
  Config.rolling_window := 10;
  Config.discriminator_filters := 64;
  Config.generator_filters := 64;
  Config.discriminator_label_noise := 0;
  Config.discriminator_input_noise := 0;
  Config.resume_training := true;
  Config.lambda_pen := 10
|}.

(** A disk with nothing but a local [config.yml] asking to resume. *)
Definition disk_local_resume : Startup.FileSystem := {|
  Startup.read_yaml := fun path =>
    if String.eqb path "config.yml" then Some resuming_config else None;
  Startup.isdir := fun _ => false
|}.

(** A disk with a local [config.yml] and the directory [run1] of an earlier
    fresh run, which holds the copy of the [config.yml] that run was started
    with. *)
Definition disk_prior_run : Startup.FileSystem := {|
  Startup.read_yaml := fun path =>
    if (String.eqb path "config.yml" || String.eqb path "run1/config.yml")%bool
    then Some config else None;
  Startup.isdir := fun path =>
    (String.eqb path "run1/" || String.eqb path "run1/video/")%bool
|}.

(** The scenario's configuration with [print_every: 0]. *)
Definition config_print_never : Config.t := {|
  Config.dataset := "CIFAR10";
  Config.n_noise_features := 10;
  Config.epochs := 1;
  Config.disc_steps := 1;
  Config.gen_steps := 1;
  Config.batch_size := 8;
  Config.print_every := 0;
  Config.checkpoints := 1;
  Config.rolling_window := 10;
  Config.discriminator_filters := 64;
  Config.generator_filters := 64;
  Config.discriminator_label_noise := 0;
  Config.discriminator_input_noise := 0;
  Config.resume_training := false;
  Config.lambda_pen := 10
|}.

(** The scenario's configuration with [checkpoints: 0]. *)
Definition config_checkpoint_never : Config.t := {|
  Config.dataset := "CIFAR10";
  Config.n_noise_features := 10;
  Config.epochs := 1;
  Config.disc_steps := 1;
  Config.gen_steps := 1;
  Config.batch_size := 8;
  Config.print_every := 1;
  Config.checkpoints := 0;
  Config.rolling_window := 10;
  Config.discriminator_filters := 64;
  Config.generator_filters := 64;
  Config.discriminator_label_noise := 0;
  Config.discriminator_input_noise := 0;
  Config.resume_training := false;
  Config.lambda_pen := 10
|}.

End Small.

(** ** The gradient penalty, in the words of its description *)

Module Described.

Local Open Scope R_scope.

Fixpoint map3 {A B C D : Type} (f : A -> B -> C -> D)
    (l1 : list A) (l2 : list B) (l3 : list C) : list D :=
  match l1, l2, l3 with
  | a :: t1, b :: t2, c :: t3 => f a b c :: map3 f t1 t2 t3
  | _, _, _ => []
  end.

(** [interpolated = alpha*real + (1-alpha)*fake], one coefficient per sample,
    the same at every channel, row and column of that sample. *)
Definition interpolated (alpha : list R) (real fake : Batch) : Batch :=
  map3 (fun a r f => smap2 (fun x y => a * x + (1 - a) * y) r f)
       alpha real fake.

(** The per-sample penalty [lambda * (norm - 1)^2] of a batch of gradients. *)
Definition per_sample_penalty (lambda : R) (gradients : Batch) : list R :=
  map (fun g => lambda * (norm2 (flatten g) - 1) ^ 2) gradients.

(** [mean(fake_score - real_score + penalty)], sample by sample. *)
Definition critic_loss (fake_score real_score penalty : list R) : R :=
  mean (map3 (fun f r p => f - r + p) fake_score real_score penalty).

(** [mean(real_score - fake_score)], sample by sample. *)
Definition wasserstein_estimate (real_score fake_score : list R) : R :=
  mean (map2 Rminus real_score fake_score).

End Described.

(** ** What the steps are expected to do *)

(** The trainability the two [backward] calls see: both networks trainable
    in the discriminator phase, only the generator in the generator phase. *)
Definition phase_ok (ev : Event) : Prop :=
  match ev with
  | EvBackward Disc _ d g => d = true /\ g = true
  | EvBackward Gen _ d g => d = false /\ g = true
  | _ => True
  end.

Section Expected.

Context {T : Backend}.
Variable cfg : Config.t.
Variable train_loader : Loader.DataLoader.

Local Open Scope R_scope.

(** The penalty the discriminator phase adds to its loss. *)
Definition penalty_at (dp : DParams) (gp : GParams) (images : Batch)
    (noises : list (list R)) (k : nat) : list R :=
  Described.per_sample_penalty (Config.lambda_pen cfg)
    (gradient (fun x => sum (Discriminator dp x))
       (Described.interpolated (rand k (length images)) images
          (Generator gp noises))).

(** The loss of the discriminator phase as a function of both weights. *)
Definition critic_loss_at (images : Batch) (noises : list (list R)) (k : nat)
    (dp : DParams) (gp : GParams) : R :=
  Described.critic_loss
    (Discriminator dp (Generator gp noises))
    (Discriminator dp images)
    (penalty_at dp gp images noises k).

(** What one discriminator update on the batch [images], with the noise
    batch [noises], makes of the state [s]. *)
Record disc_step_post (s : State) (images : Batch) (rest : list Batch)
    (noises : list (list R)) (s' : State) : Prop := {
  post_disc_losses :
    disc_losses s' =
    disc_losses s ++
    [critic_loss_at images noises (torch_random s)
       (params (discriminator s)) (params (generator s))];
  post_epoch_dlosses :
    epoch_dlosses s' =
    epoch_dlosses s ++
    [critic_loss_at images noises (torch_random s)
       (params (discriminator s)) (params (generator s))];
  post_w_distances :
    w_distances s' =
    w_distances s ++
    [Described.wasserstein_estimate
       (Discriminator (params (discriminator s)) images)
       (Discriminator (params (discriminator s))
          (Generator (params (generator s)) noises))];
  post_gradient_penalty_list :
    gradient_penalty_list s' =
    gradient_penalty_list s ++
    [mean (penalty_at (params (discriminator s)) (params (generator s))
             images noises (torch_random s))];
  post_gen_losses : gen_losses s' = gen_losses s;
  post_epoch_glosses : epoch_glosses s' = epoch_glosses s;
  post_gen_iterations : gen_iterations s' = gen_iterations s;
  post_steps : steps s' = (steps s + 1)%Z;
  post_train_iterator : train_iterator s' = rest;
  post_i : i s' = (i s + 1)%Z;
  post_j : j s' = (j s + 1)%Z;
  post_disc_steps : disc_steps s' = disc_steps s;
  post_d_grad :
    grad (discriminator s') =
    d_accumulate d_zero
      (d_gradient
         (fun p => critic_loss_at images noises (torch_random s) p
                     (params (generator s)))
         (params (discriminator s)));
  post_d_params :
    params (discriminator s') =
    fst (d_adam (disc_optimizer s) (params (discriminator s))
           (grad (discriminator s')));
  post_disc_optimizer :
    disc_optimizer s' =
    snd (d_adam (disc_optimizer s) (params (discriminator s))
           (grad (discriminator s')));
  post_d_requires_grad : requires_grad (discriminator s') = true;
  post_g_params : params (generator s') = params (generator s);
  post_g_requires_grad :
    requires_grad (generator s') = requires_grad (generator s);
  post_gen_optimizer : gen_optimizer s' = gen_optimizer s;
  post_torch_random :
    torch_random s' = (torch_random s + length images)%nat;
  post_events :
    events s' =
    events s ++
    [EvZeroGrad Disc;
     EvRandn (Z.of_nat (length images)) (Config.n_noise_features cfg);
     EvBackward Disc
       (critic_loss_at images noises (torch_random s)
          (params (discriminator s)) (params (generator s)))
       true (requires_grad (generator s));
     EvStep Disc]
}.

(** The loss of the generator phase as a function of both weights. *)
Definition generator_loss_at (noises : list (list R)) (dp : DParams)
    (gp : GParams) : R :=
  - mean (Discriminator dp (Generator gp noises)).

(** What one generator update, with the noise batch [noises], makes of the
    state [s]. *)
Record gen_step_post (s : State) (noises : list (list R)) (s' : State)
    : Prop := {
  gpost_gen_losses :
    gen_losses s' =
    gen_losses s ++
    [generator_loss_at noises (params (discriminator s))
       (params (generator s))];
  gpost_epoch_glosses :
    epoch_glosses s' =
    epoch_glosses s ++
    [generator_loss_at noises (params (discriminator s))
       (params (generator s))];
  gpost_writer :
    writer s' =
    writer s ++
    [("data/G_loss"%string,
      generator_loss_at noises (params (discriminator s))
        (params (generator s)),
      gen_iterations s)];
  gpost_gen_iterations : gen_iterations s' = (gen_iterations s + 1)%Z;
  gpost_disc_losses : disc_losses s' = disc_losses s;
  gpost_epoch_dlosses : epoch_dlosses s' = epoch_dlosses s;
  gpost_w_distances : w_distances s' = w_distances s;
  gpost_gradient_penalty_list :
    gradient_penalty_list s' = gradient_penalty_list s;
  gpost_steps : steps s' = steps s;
  gpost_train_iterator : train_iterator s' = train_iterator s;
  gpost_i : i s' = i s;
  gpost_j : j s' = j s;
  gpost_disc_steps : disc_steps s' = disc_steps s;
  gpost_g_grad :
    grad (generator s') =
    g_accumulate g_zero
      (g_gradient
         (fun p => generator_loss_at noises (params (discriminator s)) p)
         (params (generator s)));
  gpost_g_params :
    params (generator s') =
    fst (g_adam (gen_optimizer s) (params (generator s))
           (grad (generator s')));
  gpost_gen_optimizer :
    gen_optimizer s' =
    snd (g_adam (gen_optimizer s) (params (generator s))
           (grad (generator s')));
  gpost_g_requires_grad : requires_grad (generator s') = true;
  gpost_d_params : params (discriminator s') = params (discriminator s);
  gpost_d_requires_grad :
    requires_grad (discriminator s') = requires_grad (discriminator s);
  gpost_d_frozen :
    requires_grad (discriminator s) = false ->
    discriminator s' = discriminator s;
  gpost_disc_optimizer : disc_optimizer s' = disc_optimizer s;
  gpost_torch_random : torch_random s' = torch_random s;
  gpost_events :
    events s' =
    events s ++
    [EvZeroGrad Gen;
     EvRandn (Config.batch_size cfg) (Config.n_noise_features cfg);
     EvBackward Gen
       (generator_loss_at noises (params (discriminator s))
          (params (generator s)))
       (requires_grad (discriminator s)) true;
     EvStep Gen]
}.

Local Open Scope Z_scope.

(** What holds between two statements of the epoch loop: the batch cursor
    counts the batches taken from the iterator, the remaining batches have
    between one and [batch_size] samples, and the generator is trainable. *)
Definition Inv (s : State) : Prop :=
  i s = Loader.len train_loader - Z.of_nat (length (train_iterator s))
  /\ Forall (fun b => 0 < Z.of_nat (length b) <= Config.batch_size cfg)
       (train_iterator s)
  /\ requires_grad (generator s) = true.

(** What the statements of the epoch loop preserve: every batch that left the
    iterator left one entry in [disc_losses], and every [backward] since saw
    the trainability of its phase. *)
Record progress (s s' : State) : Prop := {
  prog_batches :
    (length (disc_losses s') + length (train_iterator s')
     = length (disc_losses s) + length (train_iterator s))%nat;
  prog_events :
    exists new, events s' = events s ++ new /\ Forall phase_ok new
}.

(** The quantity every pass of the outer loop decreases: batches left, then
    generator updates until the next multiple of 500. *)
Definition mu (s : State) : Z :=
  500 * Z.of_nat (length (train_iterator s)) + (- gen_iterations s) mod 500.

(** The batches the loader yields in the epoch entered in state [s]. *)
Definition yielded (s : State) : list Batch :=
  Loader.batches train_loader
    (randperm (torch_random s) (length (Loader.train_data train_loader))).

End Expected.

(** ** The helper functions of the script *)

(** The exceptions of the helper functions and of the network classes. *)
Inductive helper_exn : Type :=
| IndexError       (* [l[0]] on an empty list *)
| AttributeError   (* an attribute that is [None] or was never set *)
| SizeError.       (* a tensor whose shape a layer rejects *)

Module Helpers.

Local Open Scope R_scope.

(** The loop of [smooth]: [last] is the previous item of the input. *)
Fixpoint smooth_loop (last : R) (items : list R) (factor : R) : list R :=
  match items with
  | [] => []
  | item :: rest =>
      (last * factor + (1 - factor) * item) :: smooth_loop item rest factor
  end.

(** [smooth(l, factor)]. *)
Definition smooth (l : list R) (factor : R) : list R + helper_exn :=
  match l with
  | [] => inr IndexError
  | first :: rest => inl (first :: smooth_loop first rest factor)
  end.

(** [torchvision.transforms.Normalize(mean, std)] on one image: channel by
    channel, [(x - mean) / std].  On an image whose number of channels is
    not that of [mean] the library's releases differ (pairing the channels
    that exist, or rejecting the image); the properties below are about
    images with one channel per entry of [mean]. *)
Fixpoint Normalize (mean std : list R) (img : Sample) : Sample :=
  match img, mean, std with
  | channel :: rest, m :: ms, s :: ss =>
      map (map (fun x => (x - m) / s)) channel :: Normalize ms ss rest
  | _, _, _ => img
  end.

(** The normalisation [load_dataset] composes into its transform. *)
Definition transform_Normalize (img : Sample) : Sample :=
  Normalize [0.5; 0.5; 0.5] [0.5; 0.5; 0.5] img.

(** The first statement of [imshow]: [images = images / 2 + 0.5]. *)
Definition unnormalize (images : Batch) : Batch :=
  map (smap (fun x => x / 2 + 0.5)) images.

(** Every pixel of an image satisfies [P]. *)
Definition all_pixels (P : R -> Prop) (img : Sample) : Prop :=
  Forall (Forall (Forall P)) img.

End Helpers.

(** ** Floating-point scalars

    The embedding above computes with real numbers.  Where a property turns
    on an overflow, an infinity or a nan, the scalars are IEEE 754 numbers
    instead (float32 in a tensor, float64 for a Python [float]): a finite
    value, an infinity or nan.  The sign of a zero is not kept.  The result
    of an operation on finite numbers is [round] of the exact result, where
    [round] is the rounding of the format: to a finite number, or to an
    infinity when the exact result is out of range. *)

Module Floating.

Local Open Scope R_scope.

Inductive float : Type :=
| Finite (x : R)
| Infinity (negative : bool)
| NaN.

Definition negative (x : R) : bool := if Rlt_dec x 0 then true else false.

Definition opp (a : float) : float :=
  match a with
  | Finite x => Finite (- x)
  | Infinity s => Infinity (negb s)
  | NaN => NaN
  end.

(** A number that is not below zero: nan is not a number. *)
Definition nonnegative (a : float) : Prop :=
  match a with
  | Finite x => 0 <= x
  | Infinity s => s = false
  | NaN => False
  end.

Section Arithmetic.

Variable round : R -> float.

(** [a * b]: an infinity times zero is nan. *)
Definition mul (a b : float) : float :=
  match a, b with
  | NaN, _ | _, NaN => NaN
  | Finite x, Finite y => round (x * y)
  | Infinity s, Finite y | Finite y, Infinity s =>
      if Req_dec_T y 0 then NaN else Infinity (xorb s (negative y))
  | Infinity s, Infinity t => Infinity (xorb s t)
  end.

(** [a + b]: two infinities of opposite sign add up to nan. *)
Definition add (a b : float) : float :=
  match a, b with
  | NaN, _ | _, NaN => NaN
  | Finite x, Finite y => round (x + y)
  | Infinity s, Finite _ | Finite _, Infinity s => Infinity s
  | Infinity s, Infinity t => if Bool.eqb s t then Infinity s else NaN
  end.

(** [a - b]. *)
Definition sub (a b : float) : float := add a (opp b).

(** The last two statements of [compute_gradient_penalty] on one sample, in
    float32: [penalty = (norm - 1) ** 2] and then
    [penalty = penalty * lambda_pen], where [norm] is the entry of
    [gradients.norm(2, dim=1)] for that sample and [lambda_pen] the weight
    as a float32. *)
Definition penalty (norm lambda_pen : float) : float :=
  let penalty := mul (sub norm (Finite 1)) (sub norm (Finite 1)) in
  mul penalty lambda_pen.

(** The loop of [smooth] on Python floats. *)
Fixpoint smooth_loop (last : float) (items : list float) (factor : float)
    : list float :=
  match items with
  | [] => []
  | item :: rest =>
      add (mul last factor) (mul (sub (Finite 1) factor) item)
      :: smooth_loop item rest factor
  end.

(** [smooth(l, factor)] on a list of Python floats. *)
Definition smooth (l : list float) (factor : float)
    : list float + helper_exn :=
  match l with
  | [] => inr IndexError
  | first :: rest => inl (first :: smooth_loop first rest factor)
  end.

(** An exact result that is not zero and is rounded to zero. *)
Definition underflows (x : R) : Prop := x <> 0 /\ round x = Finite 0.

(** One of the three operations of [penalty] underflows, on a finite norm
    and a finite weight. *)
Definition penalty_underflows (norm lambda_pen : R) : Prop :=
  underflows (norm - 1)
  \/ exists d,
       round (norm - 1) = Finite d
       /\ (underflows (d * d)
           \/ exists q, round (d * d) = Finite q
                        /\ underflows (q * lambda_pen)).

(** A finite number of the format: rounding leaves it as it is. *)
Definition held (a : float) : Prop :=
  match a with
  | Finite x => round x = Finite x
  | _ => False
  end.

End Arithmetic.

(** A rounding for running the definitions: exact up to [max] in magnitude,
    an infinity beyond. *)
Definition saturating (max : R) (x : R) : float :=
  if Rlt_dec max x then Infinity false
  else if Rlt_dec x (- max) then Infinity true
  else Finite x.

End Floating.

(** ** The two network classes: layers, shapes and initialisation *)

Module Arch.

Local Open Scope Z_scope.

(** The shape of a four-dimensional tensor. *)
Record Shape : Type := {
  batch : Z;
  channels : Z;
  height : Z;
  width : Z
}.

(** The layers the two classes are built from.  A convolution carries its
    weight and, unless built with [bias=False], its bias. *)
#[warnings="-register-all"]
Inductive Layer : Type :=
| Conv2d (in_channels out_channels kernel_size padding stride : Z)
    (weight : list R) (bias : option (list R))
| ConvTranspose2d (in_channels out_channels kernel_size stride padding : Z)
    (weight : list R) (bias : option (list R))
| BatchNorm2d (num_features : Z)
| LeakyReLU
| Tanh
| Sequential (layers : list Layer).

(** The shape a layer gives to an input of shape [x]. *)
Fixpoint forward_shape (m : Layer) (x : Shape) : Shape + helper_exn :=
  match m with
  | Conv2d cin cout k p s _ _ =>
      if negb (channels x =? cin) then inr SizeError
      else if (height x + 2 * p <? k) || (width x + 2 * p <? k)
      then inr SizeError
      else inl {| batch := batch x;
                  channels := cout;
                  height := (height x + 2 * p - k) / s + 1;
                  width := (width x + 2 * p - k) / s + 1 |}
  | ConvTranspose2d cin cout k s p _ _ =>
      if negb (channels x =? cin) then inr SizeError
      else inl {| batch := batch x;
                  channels := cout;
                  height := (height x - 1) * s - 2 * p + k;
                  width := (width x - 1) * s - 2 * p + k |}
  | BatchNorm2d c =>
      if negb (channels x =? c) then inr SizeError else inl x
  | LeakyReLU => inl x
  | Tanh => inl x
  | Sequential layers =>
      (fix run (ls : list Layer) (x : Shape) : Shape + helper_exn :=
         match ls with
         | [] => inl x
         | l :: rest =>
             match forward_shape l x with
             | inl y => run rest y
             | inr e => inr e
             end
         end) layers x
  end.

(** [Discriminator(input_channels, nf)]: its only attribute that is a
    module; [w] gives the weights the layers are created with. *)
Record Discriminator : Type := {
  d_conv_block : Layer
}.

Definition Discriminator_init (input_channels nf : Z) (w : nat -> list R)
    : Discriminator :=
  {| d_conv_block :=
       Sequential
         [Conv2d input_channels nf 4 1 2 (w 0%nat) None;
          LeakyReLU;
          Conv2d nf (nf * 2) 4 1 2 (w 1%nat) None;
          LeakyReLU;
          Conv2d (nf * 2) (nf * 4) 4 1 2 (w 2%nat) None;
          LeakyReLU;
          Conv2d (nf * 4) (nf * 8) 4 1 2 (w 3%nat) None;
          LeakyReLU;
          Conv2d (nf * 8) 1 4 0 1 (w 4%nat) None] |}.

(** [self._modules] of a discriminator. *)
Definition Discriminator_modules (d : Discriminator)
    : list (string * Layer) :=
  [("conv_block"%string, d_conv_block d)].

(** [Discriminator.forward]: the shape of [conv_block(x).view(-1, 1)], given
    as its number of rows. *)
Definition Discriminator_forward (d : Discriminator) (x : Shape)
    : Z + helper_exn :=
  match forward_shape (d_conv_block d) x with
  | inl y => inl (batch y * channels y * height y * width y)
  | inr e => inr e
  end.

(** [Generator(input_size, output_channels, nf)]: [first_block] is only set
    when the global [image_size[1]] is 64 or 128. *)
Record Generator : Type := {
  first_block : option Layer;
  conv_block : Layer
}.

Definition Generator_init (image_size_1 : Z)
    (input_size output_channels nf : Z) (w : nat -> list R) : Generator :=
  {| first_block :=
       if image_size_1 =? 64
       then Some (Sequential
                    [ConvTranspose2d input_size (nf * 8) 4 1 0 (w 0%nat) None;
                     BatchNorm2d (nf * 8);
                     LeakyReLU])
       else if image_size_1 =? 128
       then Some (Sequential
                    [ConvTranspose2d input_size (nf * 16) 4 1 0 (w 0%nat) None;
                     BatchNorm2d (nf * 16);
                     LeakyReLU;
                     ConvTranspose2d (nf * 16) (nf * 8) 4 2 1 (w 1%nat) None;
                     BatchNorm2d (nf * 8);
                     LeakyReLU])
       else None;
     conv_block :=
       Sequential
         [ConvTranspose2d (nf * 8) (nf * 4) 4 2 1 (w 2%nat) None;
          BatchNorm2d (nf * 4);
          LeakyReLU;
          ConvTranspose2d (nf * 4) (nf * 2) 4 2 1 (w 3%nat) None;
          BatchNorm2d (nf * 2);
          LeakyReLU;
          ConvTranspose2d (nf * 2) nf 4 2 1 (w 4%nat) None;
          BatchNorm2d nf;
          LeakyReLU;
          ConvTranspose2d nf output_channels 4 2 1 (w 5%nat) None;
          Tanh] |}.

(** [self._modules] of a generator, in the order the attributes were set. *)
Definition Generator_modules (g : Generator) : list (string * Layer) :=
  match first_block g with
  | Some b => [("first_block"%string, b)]
  | None => []
  end ++ [("conv_block"%string, conv_block g)].

(** [Generator.forward] on a noise batch of shape [(rows, features)]. *)
Definition Generator_forward (g : Generator) (rows features : Z)
    : Shape + helper_exn :=
  let x := {| batch := rows; channels := features;
              height := 1; width := 1 |} in
  match first_block g with
  | None => inr AttributeError
  | Some b =>
      match forward_shape b x with
      | inl y => forward_shape (conv_block g) y
      | inr e => inr e
      end
  end.

(** [normal_init(m, mean, std)], with the normal draws taken from [draw] at
    position [k]: the new module and the new position. *)
Definition normal_init (m : Layer) (mean std : R) (draw : nat -> R) (k : nat)
    : (Layer * nat) + helper_exn :=
  let fresh (weight : list R) :=
    map (fun q => (mean + std * draw (k + q)%nat)%R) (seq 0 (length weight)) in
  match m with
  | Conv2d cin cout ks p s weight bias =>
      match bias with
      | None => inr AttributeError
      | Some b =>
          inl (Conv2d cin cout ks p s (fresh weight)
                 (Some (map (fun _ => 0%R) b)),
               (k + length weight)%nat)
      end
  | ConvTranspose2d cin cout ks s p weight bias =>
      match bias with
      | None => inr AttributeError
      | Some b =>
          inl (ConvTranspose2d cin cout ks s p (fresh weight)
                 (Some (map (fun _ => 0%R) b)),
               (k + length weight)%nat)
      end
  | _ => inl (m, k)
  end.

(** [weight_init(mean, std)] of either class:
    [for m in self._modules: normal_init(self._modules[m], mean, std)]. *)
Fixpoint weight_init (modules : list (string * Layer)) (mean std : R)
    (draw : nat -> R) (k : nat) : (list (string * Layer) * nat) + helper_exn :=
  match modules with
  | [] => inl ([], k)
  | (name, m) :: rest =>
      match normal_init m mean std draw k with
      | inr e => inr e
      | inl (m', k') =>
          match weight_init rest mean std draw k' with
          | inr e => inr e
          | inl (rest', k'') => inl ((name, m') :: rest', k'')
          end
      end
  end.

(** [discriminator(generator(noises))], for networks built as the script
    builds them. *)
Definition critic_of_generated (image_size_1 input_size image_channels
    nf_g nf_d : Z) (wg wd : nat -> list R) (rows : Z) : Z + helper_exn :=
  match
    Generator_forward
      (Generator_init image_size_1 input_size image_channels nf_g wg)
      rows input_size
  with
  | inl y =>
      Discriminator_forward (Discriminator_init image_channels nf_d wd) y
  | inr e => inr e
  end.

End Arch.

(** ** The files a run writes *)

Module Files.

Local Open Scope string_scope.

(** The paths [plot_results(result_dir)] passes to [savefig], in order. *)
Definition plot_results (result_dir : string) : list string :=
  [result_dir ++ "discriminator_loss";
   result_dir ++ "discriminator_loss_smoothed";
   result_dir ++ "generator_loss";
   result_dir ++ "generator_loss_smoothed";
   result_dir ++ "wasserstein_distance";
   result_dir ++ "gradient_penalty"].

(** [check_dir] of [checkpoint(disc, gen, epoch)]. *)
Definition check_dir (resume_training : bool) (result_dir : string)
    (epoch : Z) : string :=
  if negb resume_training
  then result_dir ++ "checkpoint_ep" ++ Startup.str epoch ++ "/"
  else result_dir ++ "checkpoint_resumed_ep" ++ Startup.str epoch ++ "/".

(** The paths [checkpoint(disc, gen, epoch)] passes to [torch.save] and
    [savefig], in order. *)
Definition checkpoint (resume_training : bool) (result_dir : string)
    (epoch : Z) : list string :=
  let check_dir := check_dir resume_training result_dir epoch in
  [check_dir ++ "discriminator.pt"; check_dir ++ "generator.pt"]
  ++ plot_results check_dir
  ++ [check_dir ++ "generated"].

(** The path [generate_frame(disc, gen, epoch, input_noise)] passes to
    [savefig]. *)
Definition generate_frame (resume_training : bool) (video_dir : string)
    (epoch : Z) : string :=
  if resume_training
  then video_dir ++ "frame_reusmed_" ++ Startup.str epoch
  else video_dir ++ "frame_" ++ Startup.str epoch.

(** The paths the end of the script passes to [savefig] and [torch.save],
    all in the run's own directory. *)
Definition final_files (result_dir : string) : list string :=
  [result_dir ++ "generated"]
  ++ plot_results result_dir
  ++ [result_dir ++ "discriminator.pt"; result_dir ++ "generator.pt"].

End Files.

(** ** What the metric streams keep between statements *)

Section Streams.

Context {T : Backend}.

(** The metric streams move together: the three streams of the discriminator
    have one entry per discriminator update, [steps] counts them,
    [gen_iterations] counts the entries of [gen_losses], and the scalar log
    has three records per discriminator update and one per generator
    update. *)
Definition aligned (s : State) : Prop :=
  length (w_distances s) = length (disc_losses s)
  /\ length (gradient_penalty_list s) = length (disc_losses s)
  /\ steps s = Z.of_nat (length (disc_losses s))
  /\ gen_iterations s = Z.of_nat (length (gen_losses s))
  /\ length (writer s)
     = (3 * length (disc_losses s) + length (gen_losses s))%nat.

(** Since the state [s0] in which an epoch began, the run-wide loss streams
    have grown by exactly the per-epoch lists. *)
Definition epoch_suffix (s0 s : State) : Prop :=
  disc_losses s = disc_losses s0 ++ epoch_dlosses s
  /\ gen_losses s = gen_losses s0 ++ epoch_glosses s.

(** What the inner loop has appended since the state [a]. *)
Definition appended_d (a st : State) : Prop :=
  epoch_glosses st = epoch_glosses a
  /\ gen_losses st = gen_losses a
  /\ exists l,
       epoch_dlosses st = epoch_dlosses a ++ l
       /\ disc_losses st = disc_losses a ++ l.

Variable cfg : Config.t.

(** What the outer loop keeps, relative to the state [s0] in which the epoch
    began. *)
Definition epoch_counts (s0 st : State) : Prop :=
  epoch_suffix s0 st
  /\ ((1 <= Config.disc_steps cfg)%Z ->
      (length (epoch_glosses st) <= length (epoch_dlosses st))%nat).

End Streams.

(** * Properties *)

(** ** Sums, means and elementwise maps *)

Section ListFacts.

Local Open Scope R_scope.

Lemma sum_app (u v : list R) : sum (u ++ v) = sum u + sum v.
Proof.
  induction u as [|x u IH]; simpl; [ring|]. rewrite IH. ring.
Qed.

Lemma sum_map_plus_const (a : R) (row : list R) :
  sum (map (fun p => a + p) row) = INR (length row) * a + sum row.
Proof.
  induction row as [|p row IH].
  - simpl. ring.
  - cbn [map sum length]. rewrite IH, S_INR. ring.
Qed.

Lemma sum_column_plus_row (col row : list R) :
  sum (concat (column_plus_row col row))
  = INR (length row) * sum col + INR (length col) * sum row.
Proof.
  unfold column_plus_row.
  induction col as [|a col IH].
  - simpl. ring.
  - cbn [map concat sum length]. rewrite sum_app, IH, sum_map_plus_const, S_INR.
    ring.
Qed.

Lemma length_column_plus_row (col row : list R) :
  length (concat (column_plus_row col row)) = (length col * length row)%nat.
Proof.
  unfold column_plus_row.
  induction col as [|a col IH]; simpl; [reflexivity|].
  now rewrite length_app, IH, length_map.
Qed.

Lemma length_map2 {A B C : Type} (f : A -> B -> C) (u : list A) (v : list B) :
  length (map2 f u v) = Nat.min (length u) (length v).
Proof.
  revert v. induction u as [|a u IH]; intros [|b v]; simpl; auto.
Qed.

Lemma sum_map2_plus (u v : list R) :
  length u = length v ->
  sum (map2 Rplus u v) = sum u + sum v.
Proof.
  revert v. induction u as [|a u IH]; intros [|b v] H; simpl in *;
    try discriminate; [ring|].
  rewrite IH by congruence. ring.
Qed.

(** The mean over the (B,B) matrix of pairwise sums is the mean of the
    sample-by-sample sums. *)
Lemma mean_all_column_plus_row (col row : list R) :
  length col = length row ->
  mean_all (column_plus_row col row) = mean (map2 Rplus col row).
Proof.
  intro H. unfold mean_all, mean.
  rewrite sum_column_plus_row, length_column_plus_row, length_map2,
    sum_map2_plus by assumption.
  rewrite <- H, Nat.min_id, mult_INR.
  destruct col as [|a col].
  - simpl. unfold Rdiv. rewrite Rinv_0. ring.
  - assert (Hn : INR (length (a :: col)) <> 0) by (apply not_0_INR; discriminate).
    field. exact Hn.
Qed.

Lemma dot_ones (u : list R) (n : nat) :
  length u = n -> dot u (ones n) = sum u.
Proof.
  unfold dot, ones. intros <-.
  induction u as [|x u IH]; simpl; [reflexivity|].
  rewrite IH. ring.
Qed.

Lemma broadcast2_same_length {A : Type} (f : A -> A -> A) (x y : list A) :
  length x = length y -> broadcast2 f x y = Ok (map2 f x y).
Proof.
  intro H. unfold broadcast2.
  destruct x as [|a [|a' x]], y as [|b [|b' y]]; try discriminate H;
    try reflexivity.
  rewrite H, Nat.eqb_refl. reflexivity.
Qed.

End ListFacts.

(** ** The gradient penalty *)

Section Interpolation.

Local Open Scope R_scope.

(** Three elementwise passes over one nesting level fused into one. *)
Lemma map2_fuse {A : Type} (P M M' Q : A -> A -> A) (c o : A -> A) :
  (forall x y, P (M (c x) x) (M' (o (c x)) y) = Q x y) ->
  forall r f,
    map2 P (map2 M (map c r) r) (map2 M' (map o (map c r)) f) = map2 Q r f.
Proof.
  intros H r. induction r as [|x r IH]; intros [|y f]; simpl; try reflexivity.
  now rewrite H, IH.
Qed.

Lemma smap2_interpolate (a : R) (r f : Sample) :
  smap2 Rplus
    (smap2 Rmult (smap (fun _ => a) r) r)
    (smap2 Rmult (smap (fun v => 1 - v) (smap (fun _ => a) r)) f)
  = smap2 (fun x y => a * x + (1 - a) * y) r f.
Proof.
  unfold smap2, smap.
  apply map2_fuse. intros x y.
  apply map2_fuse. intros x' y'.
  apply map2_fuse. intros x'' y''. reflexivity.
Qed.

Lemma expand_interpolate (alpha : list R) (real fake : Batch) :
  let e := map2 (fun a s => smap (fun _ => a) s) alpha real in
  map2 (smap2 Rplus)
    (map2 (smap2 Rmult) e real)
    (map2 (smap2 Rmult) (map (smap (fun v => 1 - v)) e) fake)
  = Described.interpolated alpha real fake.
Proof.
  unfold Described.interpolated.
  revert real fake.
  induction alpha as [|a alpha IH]; intros [|r real] [|f fake]; simpl;
    try reflexivity.
  rewrite smap2_interpolate. f_equal. apply IH.
Qed.

Lemma length_map3 {A B C D : Type} (g : A -> B -> C -> D) (u : list A)
    (v : list B) (w : list C) :
  length u = length v -> length w = length v ->
  length (Described.map3 g u v w) = length v.
Proof.
  revert v w. induction u as [|a u IH]; intros [|b v] [|c w] H1 H2;
    simpl in *; try discriminate; auto.
Qed.

End Interpolation.

Section GradientPenalty.

Context {T : Backend}.

Local Open Scope R_scope.

Lemma length_rand (k n : nat) : length (rand k n) = n.
Proof. unfold rand. now rewrite length_map, length_seq. Qed.

Lemma rand_range (k n : nat) : Forall (fun a => 0 <= a < 1) (rand k n).
Proof.
  unfold rand. apply Forall_forall. intros a Ha.
  apply in_map_iff in Ha. destruct Ha as [q [<- _]]. apply uniform_range.
Qed.

Lemma length_Discriminator (p : DParams) (x : Batch) :
  length (Discriminator p x) = length x.
Proof. apply length_map. Qed.

Lemma length_Generator (p : GParams) (z : list (list R)) :
  length (Generator p z) = length z.
Proof. apply length_map. Qed.

Lemma penalty_of_flattened (gs : Batch) (lam : R) :
  penalty_of_gradients (map flatten gs) lam = Described.per_sample_penalty lam gs.
Proof.
  unfold penalty_of_gradients, Described.per_sample_penalty.
  rewrite !map_map. apply map_ext. intro g. ring.
Qed.

(** With [grad_outputs] all ones, the vector-Jacobian product is the
    gradient of the summed outputs. *)
Lemma autograd_grad_ones (p : DParams) (x : Batch) :
  autograd_grad (Discriminator p) x (ones (length (Discriminator p x)))
  = Ok (gradient (fun y => sum (Discriminator p y)) x).
Proof.
  unfold autograd_grad, ones at 1.
  rewrite repeat_length, Nat.eqb_refl. f_equal.
  apply gradient_local. intros y Hy.
  apply dot_ones. now rewrite !length_Discriminator.
Qed.

Lemma view_rows_nonempty (gradients : Batch) :
  gradients <> [] -> view_rows gradients = Ok (map flatten gradients).
Proof.
  destruct gradients; [congruence|reflexivity].
Qed.

(** What [compute_gradient_penalty] returns on non-empty batches of equal
    size. *)
Lemma compute_gradient_penalty_equal_sizes (p : DParams) (real fake : Batch)
    (lam : R) (k : nat) :
  real <> [] ->
  length fake = length real ->
  compute_gradient_penalty real fake (Discriminator p) lam k
  = Ok (Described.per_sample_penalty lam
          (gradient (fun x => sum (Discriminator p x))
             (Described.interpolated (rand k (length real)) real fake))).
Proof.
  intros Hne Hsize. unfold compute_gradient_penalty, expand_as.
  set (alpha := rand k (length real)).
  set (e := map2 (fun a s => smap (fun _ => a) s) alpha real).
  assert (He : length e = length real).
  { unfold e. rewrite length_map2. unfold alpha. rewrite length_rand.
    apply Nat.min_id. }
  rewrite (@broadcast2_same_length _ (smap2 Rmult) e real) by exact He.
  cbn [bind].
  rewrite (@broadcast2_same_length _ (smap2 Rmult) _ fake)
    by (rewrite length_map; congruence).
  cbn [bind].
  rewrite broadcast2_same_length
    by (rewrite !length_map2, length_map, He, Hsize; reflexivity).
  cbn [bind]. unfold e. rewrite expand_interpolate.
  rewrite autograd_grad_ones. cbn [bind].
  rewrite view_rows_nonempty.
  - cbn [bind]. now rewrite penalty_of_flattened.
  - intro H. apply (f_equal (@length _)) in H.
    rewrite gradient_length in H. unfold Described.interpolated in H.
    rewrite length_map3 in H
      by (try apply length_rand; assumption).
    destruct real; [congruence|discriminate].
Qed.

(** On an empty real batch the reshaping of the gradients raises. *)
Lemma compute_gradient_penalty_empty (p : DParams) (fake : Batch) (lam : R)
    (k : nat) :
  length fake = 0%nat ->
  compute_gradient_penalty [] fake (Discriminator p) lam k
  = Raise RuntimeError.
Proof.
  intro H. destruct fake; [|discriminate].
  unfold compute_gradient_penalty. cbn [length rand seq map expand_as map2
    broadcast2 Nat.eqb bind].
  rewrite autograd_grad_ones. cbn [bind].
  assert (Hg : gradient (fun y => sum (Discriminator p y)) [] = []).
  { apply length_zero_iff_nil. now rewrite gradient_length. }
  rewrite Hg. reflexivity.
Qed.

(** C2. On a real and a fake batch of equal size, [compute_gradient_penalty]
    draws one coefficient per sample from torch's uniform generator, each in
    [0,1); uses the same coefficient at every channel, row and column of a
    sample to form [alpha*real + (1-alpha)*fake]; differentiates the summed
    discriminator output with respect to that batch; and returns, for each
    sample, [lambda * (norm - 1)^2] of its flattened gradient, one value per
    sample.  On two batches without samples there is no gradient to flatten,
    and the reshaping raises. *)
Theorem gradient_penalty_algorithm (p : DParams) (real fake : Batch)
    (lambda_pen : R) (k : nat) (Hsize : length fake = length real) :
  let alpha := rand k (length real) in
  let x_hat := Described.interpolated alpha real fake in
  let gradients := gradient (fun x => sum (Discriminator p x)) x_hat in
  length alpha = length real
  /\ Forall (fun a => 0 <= a < 1) alpha
  /\ length x_hat = length real
  /\ length gradients = length real
  /\ (real <> [] ->
      compute_gradient_penalty real fake (Discriminator p) lambda_pen k
      = Ok (map (fun g => lambda_pen * (norm2 (flatten g) - 1) ^ 2)
              gradients))
  /\ (real = [] ->
      compute_gradient_penalty real fake (Discriminator p) lambda_pen k
      = Raise RuntimeError).
Proof.
  intros alpha x_hat gradients.
  assert (Ha : length alpha = length real) by apply length_rand.
  assert (Hx : length x_hat = length real).
  { unfold x_hat, Described.interpolated. now apply length_map3. }
  repeat split.
  - exact Ha.
  - apply rand_range.
  - exact Hx.
  - unfold gradients. now rewrite gradient_length.
  - intro Hne. now apply compute_gradient_penalty_equal_sizes.
  - intros ->. now apply compute_gradient_penalty_empty.
Qed.

End GradientPenalty.

(** ** The adaptive number of discriminator steps *)

Section Scheduler.

Local Open Scope Z_scope.

Variable cfg : Config.t.

Lemma scheduled_100 (g : Z) :
  g < 25 \/ (exists q, 0 < q /\ g = 500 * q) ->
  scheduled_disc_steps cfg g = 100.
Proof.
  intro H. unfold scheduled_disc_steps.
  destruct (g <? 25) eqn:Hlt; [reflexivity|].
  apply Z.ltb_ge in Hlt.
  destruct H as [H|[q [Hq ->]]]; [lia|].
  replace (500 * q) with (q * 500) by lia.
  now rewrite Z.mod_mul by lia.
Qed.

Lemma scheduled_baseline (g : Z) :
  ~ (g < 25 \/ (exists q, 0 < q /\ g = 500 * q)) ->
  scheduled_disc_steps cfg g = Config.disc_steps cfg.
Proof.
  intro H. unfold scheduled_disc_steps.
  destruct (g <? 25) eqn:Hlt.
  - apply Z.ltb_lt in Hlt. tauto.
  - apply Z.ltb_ge in Hlt.
    destruct (g mod 500 =? 0) eqn:Hm; [|reflexivity].
    apply Z.eqb_eq in Hm. exfalso. apply H. right.
    exists (g / 500). pose proof (Z.div_mod g 500). lia.
Qed.

(** C1. The number of discriminator updates scheduled at generator-update
    count [g] is 100 when [g < 25] or [g] is a positive multiple of 500, and
    the configured [disc_steps] otherwise; so it is 100 for g = 0, ..., 24 and
    for g = 500, 1000, 1500, and the configured value for g = 25, ..., 499
    and for g = 501. *)
Theorem adaptive_disc_steps (g : Z) :
  (g < 25 \/ (exists q, 0 < q /\ g = 500 * q) ->
   scheduled_disc_steps cfg g = 100)
  /\ (~ (g < 25 \/ (exists q, 0 < q /\ g = 500 * q)) ->
      scheduled_disc_steps cfg g = Config.disc_steps cfg)
  /\ Forall (fun g => scheduled_disc_steps cfg g = 100) (range 25)
  /\ Forall (fun g => scheduled_disc_steps cfg g = 100) [500; 1000; 1500]
  /\ Forall (fun g => scheduled_disc_steps cfg g = Config.disc_steps cfg)
       (map (Z.add 25) (range 475))
  /\ scheduled_disc_steps cfg 501 = Config.disc_steps cfg.
Proof.
  split; [apply scheduled_100|].
  split; [apply scheduled_baseline|].
  split.
  { apply Forall_forall. intros x Hx. unfold range in Hx.
    apply in_map_iff in Hx. destruct Hx as [n [<- Hn]].
    apply in_seq in Hn. apply scheduled_100. left.
    change (Z.to_nat 25) with 25%nat in Hn. lia. }
  split.
  { repeat constructor. }
  split.
  { apply Forall_forall. intros x Hx.
    apply in_map_iff in Hx. destruct Hx as [y [<- Hy]].
    unfold range in Hy. apply in_map_iff in Hy. destruct Hy as [n [<- Hn]].
    apply in_seq in Hn. change (Z.to_nat 475) with 475%nat in Hn.
    apply scheduled_baseline. intros [H|[q [Hq H]]]; lia. }
  reflexivity.
Qed.

End Scheduler.

(** ** Sign of the penalty *)


Section PenaltyFacts.

Local Open Scope R_scope.

Lemma penalty_of_gradients_length (gs : list (list R)) (lam : R) :
  length (penalty_of_gradients gs lam) = length gs.
Proof.
  unfold penalty_of_gradients. now rewrite !length_map.
Qed.

Lemma penalty_of_gradients_map (gs : list (list R)) (lam : R) :
  penalty_of_gradients gs lam = map (fun g => lam * (norm2 g - 1) ^ 2) gs.
Proof.
  unfold penalty_of_gradients. rewrite map_map.
  apply map_ext. intro g. ring.
Qed.

Lemma sq_zero_iff (x : R) : (x - 1) ^ 2 = 0 <-> x = 1.
Proof.
  split.
  - intro H. simpl in H. rewrite Rmult_1_r in H.
    apply Rmult_integral in H. lra.
  - intros ->. ring.
Qed.

Lemma norm2_singleton_2 : norm2 [2] = 2.
Proof.
  unfold norm2. simpl. rewrite Rplus_0_r.
  apply sqrt_square. lra.
Qed.

End PenaltyFacts.

Section PenaltySign.

Local Open Scope R_scope.

(** In exact arithmetic every entry of the returned penalty is non-negative
    when [lambda_pen >= 0], it is zero whenever the gradient norm is 1, and
    for a strictly positive weight it is zero only when the gradient norm
    is 1. *)
Lemma penalty_of_gradients_sign
    (gradients : list (list R)) (lambda_pen : R) (Hlam : 0 <= lambda_pen) :
  Forall2 (fun g p =>
             0 <= p
             /\ (norm2 g = 1 -> p = 0)
             /\ (0 < lambda_pen -> p = 0 -> norm2 g = 1))
          gradients (penalty_of_gradients gradients lambda_pen).
Proof.
  rewrite penalty_of_gradients_map.
  induction gradients as [|g gs IH]; simpl; constructor; auto.
  repeat split.
  - apply Rmult_le_pos; [assumption|]. apply pow2_ge_0.
  - intros ->. ring.
  - intros Hpos H. apply Rmult_integral in H.
    destruct H as [H|H]; [lra|]. now apply sq_zero_iff.
Qed.

(** C3 as stated fails at the permitted weight [lambda_pen = 0]: the penalty
    of a gradient of norm 2 is zero. *)
Lemma penalty_zero_weight_counterexample :
  0 <= 0
  /\ penalty_of_gradients [[2]] 0 = [0]
  /\ norm2 [2] <> 1.
Proof.
  split; [lra|]. split.
  - rewrite penalty_of_gradients_map. simpl. f_equal. ring.
  - rewrite norm2_singleton_2. lra.
Qed.

(** Where nothing is rounded and nothing overflows, the float32 penalty of
    a sample is the entry the embedding over the reals computes. *)
Lemma penalty_exact (gradients : list (list R)) (lambda_pen : R) :
  map (fun g => Floating.penalty Floating.Finite
                  (Floating.Finite (norm2 g)) (Floating.Finite lambda_pen))
      gradients
  = map Floating.Finite (penalty_of_gradients gradients lambda_pen).
Proof.
  unfold penalty_of_gradients. rewrite !map_map. apply map_ext. intro g.
  cbn. f_equal. unfold Rminus. ring.
Qed.

End PenaltySign.

(** ** The penalty in floating point *)

Section PenaltyFloat.

Import Floating.

Local Open Scope R_scope.

(** What is used of the rounding of the format. *)
Variable round : R -> float.
Hypothesis round_not_nan : forall x, round x <> NaN.
Hypothesis round_sign : forall x, 0 <= x -> nonnegative (round x).
Hypothesis round_zero : round 0 = Finite 0.

Lemma square_nonnegative (d : float) :
  d <> NaN -> nonnegative (mul round d d).
Proof.
  destruct d as [x|s|]; intro H; [| |congruence]; cbn.
  - apply round_sign. nra.
  - now destruct s.
Qed.

Lemma mul_weight (q : float) (l : R) :
  0 <= l -> nonnegative q ->
  (mul round q (Finite l) = NaN <-> l = 0 /\ q = Infinity false)
  /\ (mul round q (Finite l) = NaN \/ nonnegative (mul round q (Finite l))).
Proof.
  intros Hl Hq. destruct q as [x|s|]; cbn in Hq; [| |contradiction].
  - cbn. split.
    + split; [intro H; now apply round_not_nan in H|intros [_ H]; discriminate].
    + right. apply round_sign. nra.
  - subst s. cbn. destruct (Req_dec_T l 0) as [E|E].
    + split; [tauto|now left].
    + split; [split; [discriminate|tauto]|].
      right. cbn. unfold negative. destruct (Rlt_dec l 0); [lra|reflexivity].
Qed.

(** C3 (as amended).  In float32, for every computed norm and every finite
    weight [lambda_pen >= 0], the per-sample penalty is nan or a number that
    is not below zero; it is nan exactly when the norm is nan, or when
    [lambda_pen = 0] and [(norm - 1) ** 2] has overflowed to infinity; it is
    zero whenever the norm is exactly 1; with [lambda_pen = 0] it is zero at
    every norm whose [(norm - 1) ** 2] is finite; and with [lambda_pen > 0]
    it is zero only when the norm is exactly 1 or one of the three
    operations has underflowed. *)
Theorem penalty_nonneg_zero_at_unit_norm (norm : float) (l : R)
    (Hlam : 0 <= l) :
  let square := mul round (sub round norm (Finite 1))
                  (sub round norm (Finite 1)) in
  let p := penalty round norm (Finite l) in
  (p = NaN \/ nonnegative p)
  /\ (p = NaN <-> norm = NaN \/ (l = 0 /\ square = Infinity false))
  /\ (norm = Finite 1 -> p = Finite 0)
  /\ (l = 0 -> (exists q, square = Finite q) -> p = Finite 0)
  /\ (0 < l -> p = Finite 0 ->
      norm = Finite 1
      \/ exists x, norm = Finite x /\ penalty_underflows round x l).
Proof.
  intros square p.
  assert (Hd : norm <> NaN -> sub round norm (Finite 1) <> NaN).
  { destruct norm as [x|s|]; cbn; intros H;
      first [apply round_not_nan | congruence]. }
  destruct norm as [x|s|].
  2:{ (* an infinite norm *)
    assert (Hsq : square = Infinity false).
    { unfold square. cbn. now destruct s. }
    unfold p, penalty. fold square. rewrite Hsq.
    destruct (@mul_weight (Infinity false) l Hlam eq_refl) as [Hnan Hor].
    split; [exact Hor|]. split.
    { rewrite Hnan. split.
      - intros [H _]. right. now split.
      - intros [H|[H _]]; [discriminate H|now split]. }
    split; [intro H; discriminate H|]. split.
    { intros _ [q Hq]. discriminate Hq. }
    intros Hl H. cbn in H. destruct (Req_dec_T l 0); [lra|discriminate H]. }
  2:{ (* a nan *)
    unfold p, penalty. cbn. split; [now left|]. split; [tauto|].
    split; [intro H; discriminate H|]. split.
    { intros _ [q Hq]. unfold square in Hq. discriminate Hq. }
    intros _ H. discriminate H. }
  (* a finite norm *)
  assert (Hsqn : nonnegative square).
  { apply square_nonnegative. apply Hd. discriminate. }
  destruct (@mul_weight square l Hlam Hsqn) as [Hnan Hor].
  unfold p, penalty. fold square.
  split; [exact Hor|]. split.
  { rewrite Hnan. split; [tauto|]. intros [H|H]; [discriminate|exact H]. }
  split.
  { intro H. injection H as ->. unfold square. cbn.
    rewrite Rplus_opp_r, round_zero. cbn.
    rewrite Rmult_0_l, round_zero. cbn.
    rewrite Rmult_0_l. exact round_zero. }
  split.
  { intros -> [q Hq]. rewrite Hq. cbn.
    rewrite Rmult_0_r. exact round_zero. }
  intros Hl H.
  destruct (Req_dec_T x 1) as [->|Hx]; [now left|right].
  exists x. split; [reflexivity|].
  unfold square in H. cbn in H. unfold penalty_underflows, underflows.
  change (x + - (1)) with (x - 1) in H.
  destruct (round (x - 1)) as [d|s|] eqn:Ed.
  - destruct (Req_dec_T d 0) as [->|Hdz].
    + left. split; [lra|reflexivity].
    + right. exists d. split; [reflexivity|].
      cbn in H. destruct (round (d * d)) as [q|s|] eqn:Eq.
      * destruct (Req_dec_T q 0) as [->|Hqz].
        -- left. split; [nra|reflexivity].
        -- right. exists q. split; [reflexivity|]. cbn in H.
           split; [nra|exact H].
      * cbn in H. destruct (Req_dec_T l 0); discriminate.
      * discriminate.
  - cbn in H. destruct (Req_dec_T l 0); [discriminate|].
    destruct s; discriminate.
  - discriminate.
Qed.

End PenaltyFloat.

Section Saturation.

Import Floating.

Local Open Scope R_scope.

Lemma saturating_finite (max x : R) :
  - max <= x <= max -> saturating max x = Finite x.
Proof.
  intro H. unfold saturating.
  destruct (Rlt_dec max x); [lra|].
  destruct (Rlt_dec x (- max)); [lra|reflexivity].
Qed.

Lemma saturating_overflow (max x : R) :
  max < x -> saturating max x = Infinity false.
Proof.
  intro H. unfold saturating. destruct (Rlt_dec max x); [reflexivity|lra].
Qed.

Lemma saturating_not_nan (max x : R) : saturating max x <> NaN.
Proof.
  unfold saturating.
  destruct (Rlt_dec max x); [discriminate|].
  destruct (Rlt_dec x (- max)); discriminate.
Qed.

Lemma saturating_sign (max x : R) :
  0 <= max -> 0 <= x -> nonnegative (saturating max x).
Proof.
  intros Hm Hx. unfold saturating.
  destruct (Rlt_dec max x); [reflexivity|].
  destruct (Rlt_dec x (- max)); [lra|exact Hx].
Qed.

Lemma penalty_nonneg_zero_at_unit_norm_witness :
  (forall x, saturating 3.4e38 x <> NaN)
  /\ (forall x, 0 <= x -> nonnegative (saturating 3.4e38 x))
  /\ saturating 3.4e38 0 = Finite 0
  /\ 0 <= 10
  /\ penalty (saturating 3.4e38) (Finite 1) (Finite 10) = Finite 0
  /\ nonnegative (penalty (saturating 3.4e38) (Finite 2) (Finite 10)).
Proof.
  assert (H1 : forall x, saturating 3.4e38 x <> NaN)
    by (intro x; apply saturating_not_nan).
  assert (H2 : forall x, 0 <= x -> nonnegative (saturating 3.4e38 x))
    by (intros x Hx; apply saturating_sign; lra).
  assert (H3 : saturating 3.4e38 0 = Finite 0)
    by (apply saturating_finite; lra).
  assert (H4 : 0 <= 10) by lra.
  split; [exact H1|]. split; [exact H2|]. split; [exact H3|].
  split; [exact H4|]. split.
  - exact (proj1 (proj2 (proj2
             (@penalty_nonneg_zero_at_unit_norm (saturating 3.4e38)
                H1 H2 H3 (Finite 1) 10 H4))) eq_refl).
  - destruct (proj1 (@penalty_nonneg_zero_at_unit_norm (saturating 3.4e38)
                       H1 H2 H3 (Finite 2) 10 H4)) as [Hn|Hn]; [|exact Hn].
    exfalso. revert Hn. unfold penalty. cbn [sub add opp mul].
    rewrite (@saturating_finite _ (2 + - (1))) by lra. cbn [mul].
    rewrite (@saturating_finite _ ((2 + - (1)) * (2 + - (1)))) by lra.
    cbn [mul]. apply saturating_not_nan.
Defined.

(** In float32 the norm of a gradient with an entry [1e30] is finite, its
    square is not, and with [lambda_pen = 0] the penalty is nan. *)
Lemma penalty_overflow_is_nan :
  penalty (saturating 3.4e38) (Finite 1e30) (Finite 0) = NaN.
Proof.
  unfold penalty. cbn [sub add opp mul].
  rewrite (@saturating_finite _ (1e30 + - (1))) by lra. cbn [mul].
  rewrite (@saturating_overflow _ ((1e30 + - (1)) * (1e30 + - (1)))) by lra.
  cbn [mul]. destruct (Req_dec_T 0 0); [reflexivity|congruence].
Qed.

End Saturation.

(** ** The two update steps *)

Section StepFacts.

Context {T : Backend}.
Variable cfg : Config.t.

Local Open Scope R_scope.

Lemma randn_ok (k : nat) (rows cols : Z) :
  (0 <= rows)%Z -> (0 <= cols)%Z ->
  exists z, randn k rows cols = Ok z /\ length z = Z.to_nat rows.
Proof.
  intros Hr Hc. unfold randn.
  destruct (Z.ltb_spec rows 0); [lia|].
  destruct (Z.ltb_spec cols 0); [lia|].
  cbn [orb]. eexists. split; [reflexivity|].
  now rewrite length_map, length_seq.
Qed.

Lemma map2_minus_plus (f r p : list R) :
  map2 Rplus (map2 Rminus f r) p
  = Described.map3 (fun a b c => a - b + c) f r p.
Proof.
  revert r p. induction f as [|a f IH]; intros [|b r] [|c p]; simpl;
    try reflexivity.
  now rewrite IH.
Qed.

Lemma length_penalty_at dp gp images noises k :
  length noises = length images ->
  length (penalty_at cfg dp gp images noises k) = length images.
Proof.
  intro H. unfold penalty_at, Described.per_sample_penalty.
  rewrite length_map, gradient_length.
  unfold Described.interpolated. apply length_map3.
  - apply length_rand.
  - now rewrite length_Generator.
Qed.

Lemma disc_forward_ok dp gp images noises k :
  images <> [] ->
  length noises = length images ->
  disc_forward cfg dp gp images noises (Generator gp noises) k
  = Ok {| disc_output := Discriminator dp images;
          gen_images := Generator gp noises;
          gen_output := Discriminator dp (Generator gp noises);
          gradient_penalty := penalty_at cfg dp gp images noises k;
          loss := critic_loss_at cfg images noises k dp gp |}.
Proof.
  intros Hne H. unfold disc_forward.
  rewrite compute_gradient_penalty_equal_sizes
    by (try assumption; now rewrite length_Generator).
  cbn [bind].
  rewrite broadcast2_same_length
    by (now rewrite !length_Discriminator, length_Generator).
  cbn [bind]. do 2 f_equal.
  fold (penalty_at cfg dp gp images noises k).
  rewrite mean_all_column_plus_row.
  - unfold critic_loss_at, Described.critic_loss. now rewrite map2_minus_plus.
  - rewrite length_map2, !length_Discriminator, length_Generator,
      length_penalty_at, H by assumption.
    apply Nat.min_id.
Qed.

Lemma disc_loss_closure images noises k :
  images <> [] ->
  length noises = length images ->
  forall dp gp,
    value_of (bind (disc_forward cfg dp gp images noises
                      (Generator gp noises) k)
                (fun f => Ok (loss f)))
    = critic_loss_at cfg images noises k dp gp.
Proof.
  intros Hne H dp gp. now rewrite disc_forward_ok.
Qed.

Lemma disc_step_ok (s : State) (images : Batch) (rest : list Batch) :
  train_iterator s = images :: rest ->
  images <> [] ->
  (Z.of_nat (length images) <= Config.batch_size cfg)%Z ->
  (0 <= Config.n_noise_features cfg)%Z ->
  requires_grad (discriminator s) = true ->
  exists noises s',
    randn (np_random s)
      (Z.min (Config.batch_size cfg) (Z.of_nat (length images)))
      (Config.n_noise_features cfg) = Ok noises
    /\ length noises = length images
    /\ disc_step cfg s = Ok s'
    /\ disc_step_post cfg s images rest noises s'.
Proof.
  intros Hit Hne Hbs Hnf Hd.
  assert (Hmin : Z.min (Config.batch_size cfg) (Z.of_nat (length images))
                 = Z.of_nat (length images)) by lia.
  destruct (@randn_ok (np_random s) (Z.of_nat (length images))
              (Config.n_noise_features cfg)) as [noises [Hz Hlen]];
    [lia|assumption|].
  rewrite Nat2Z.id in Hlen.
  exists noises. unfold disc_step. rewrite Hit, Hmin, Hz. cbn [bind].
  rewrite disc_forward_ok by assumption. cbn [bind params].
  unfold backward. cbn [requires_grad params grad]. rewrite Hd.
  cbn [orb negb bind fst snd requires_grad params grad disc_output gen_output
       gradient_penalty loss].
  rewrite broadcast2_same_length
    by (now rewrite !length_Discriminator, length_Generator).
  cbn [bind]. eexists.
  split; [reflexivity|]. split; [exact Hlen|]. split; [reflexivity|].
  constructor; cbn [disc_losses epoch_dlosses w_distances gradient_penalty_list
    gen_losses epoch_glosses gen_iterations steps train_iterator i j disc_steps
    discriminator generator disc_optimizer gen_optimizer torch_random events
    params requires_grad grad]; try reflexivity.
  - f_equal. apply d_gradient_ext. intro q.
    now apply disc_loss_closure.
  - destruct (requires_grad (generator s)); reflexivity.
  - destruct (requires_grad (generator s)) eqn:E; cbn [requires_grad];
      congruence.
Qed.

Lemma gen_step_ok (s : State) :
  (0 <= Config.batch_size cfg)%Z ->
  (0 <= Config.n_noise_features cfg)%Z ->
  requires_grad (generator s) = true ->
  exists noises s',
    randn (np_random s) (Config.batch_size cfg)
      (Config.n_noise_features cfg) = Ok noises
    /\ length noises = Z.to_nat (Config.batch_size cfg)
    /\ gen_step cfg s = Ok s'
    /\ gen_step_post cfg s noises s'.
Proof.
  intros Hbs Hnf Hg.
  destruct (@randn_ok (np_random s) (Config.batch_size cfg)
              (Config.n_noise_features cfg)) as [noises [Hz Hlen]];
    [assumption|assumption|].
  exists noises. unfold gen_step. rewrite Hz. cbn [bind].
  unfold backward. cbn [requires_grad params grad]. rewrite Hg.
  rewrite orb_true_r.
  cbn [negb bind fst snd requires_grad params grad].
  eexists.
  split; [reflexivity|]. split; [exact Hlen|]. split; [reflexivity|].
  constructor; cbn [disc_losses epoch_dlosses w_distances gradient_penalty_list
    gen_losses epoch_glosses gen_iterations steps train_iterator i j disc_steps
    discriminator generator disc_optimizer gen_optimizer torch_random events
    writer params requires_grad grad]; try reflexivity.
  - destruct (requires_grad (discriminator s)); reflexivity.
  - destruct (requires_grad (discriminator s)) eqn:E; cbn [requires_grad];
      congruence.
  - intros ->. reflexivity.
Qed.

(** C4. On a non-empty real batch of at most [batch_size] samples (what the
    loader yields), with the discriminator trainable, one discriminator update
    draws a noise batch of [min(batch_size, len(images))] rows, computes
    [loss = mean(fake_score - real_score + penalty)], runs one backward pass
    on that loss and one step of the discriminator's optimiser, and appends
    [mean(real_score - fake_score)] to [w_distances]; the gradient handed to
    the optimiser is that of the loss alone. *)
Theorem discriminator_update_step (s : State) (images : Batch)
    (rest : list Batch)
    (Hnext : train_iterator s = images :: rest)
    (Hnonempty : (0 < length images)%nat)
    (Hloader : (Z.of_nat (length images) <= Config.batch_size cfg)%Z)
    (Hnf : (0 <= Config.n_noise_features cfg)%Z)
    (Htrainable : requires_grad (discriminator s) = true) :
  let rows := Z.min (Config.batch_size cfg) (Z.of_nat (length images)) in
  let dp := params (discriminator s) in
  let gp := params (generator s) in
  exists noises penalty s',
    randn (np_random s) rows (Config.n_noise_features cfg) = Ok noises
    /\ Z.of_nat (length noises) = rows
    /\ compute_gradient_penalty images (Generator gp noises)
         (Discriminator dp) (Config.lambda_pen cfg) (torch_random s)
       = Ok penalty
    /\ length penalty = length images
    /\ disc_step cfg s = Ok s'
    /\ (let real_score := Discriminator dp images in
        let fake_score := Discriminator dp (Generator gp noises) in
        let loss := Described.critic_loss fake_score real_score penalty in
        INR (length images) * loss
        = sum (Described.map3 (fun f r p => f - r + p)
                 fake_score real_score penalty)
        /\ disc_losses s' = disc_losses s ++ [loss]
        /\ w_distances s'
           = w_distances s
             ++ [Described.wasserstein_estimate real_score fake_score]
        /\ events s'
           = events s
             ++ [EvZeroGrad Disc;
                 EvRandn rows (Config.n_noise_features cfg);
                 EvBackward Disc loss true (requires_grad (generator s));
                 EvStep Disc]
        /\ grad (discriminator s')
           = d_accumulate d_zero
               (d_gradient
                  (fun p => critic_loss_at cfg images noises (torch_random s) p gp)
                  dp)
        /\ params (discriminator s')
           = fst (d_adam (disc_optimizer s) dp (grad (discriminator s')))
        /\ critic_loss_at cfg images noises (torch_random s) dp gp = loss).
Proof.
  intros rows dp gp.
  assert (Hne : images <> []) by (destruct images; [inversion Hnonempty|congruence]).
  destruct (disc_step_ok s Hnext Hne Hloader Hnf Htrainable)
    as [noises [s' [Hz [Hlen [Hstep Hpost]]]]].
  assert (Hrows : rows = Z.of_nat (length images)) by (unfold rows; lia).
  exists noises, (penalty_at cfg dp gp images noises (torch_random s)), s'.
  split; [exact Hz|]. split; [now rewrite Hlen, Hrows|].
  split.
  { apply compute_gradient_penalty_equal_sizes; [exact Hne|].
    now rewrite length_Generator. }
  split; [now apply length_penalty_at|].
  split; [exact Hstep|].
  cbv zeta. destruct Hpost. rewrite Hrows.
  repeat split; try assumption; try reflexivity.
  unfold Described.critic_loss, mean.
  rewrite length_map3
    by (now rewrite ?length_Discriminator, ?length_Generator,
          ?length_penalty_at).
  rewrite length_Discriminator. field.
  apply not_0_INR. lia.
Qed.

(** C5. A generator update, with the generator trainable, draws a noise batch
    of [batch_size] rows, generates a fake batch, scores it with the
    discriminator, takes [loss = -mean(fake_score)], runs one backward pass on
    it and one step of the generator's optimiser, and adds one to
    [gen_iterations], the count the next choice of [disc_steps] reads. *)
Theorem generator_update_step (s : State)
    (Hbs : (0 <= Config.batch_size cfg)%Z)
    (Hnf : (0 <= Config.n_noise_features cfg)%Z)
    (Htrainable : requires_grad (generator s) = true) :
  let dp := params (discriminator s) in
  let gp := params (generator s) in
  exists noises s',
    randn (np_random s) (Config.batch_size cfg)
      (Config.n_noise_features cfg) = Ok noises
    /\ Z.of_nat (length noises) = Config.batch_size cfg
    /\ gen_step cfg s = Ok s'
    /\ (let fake := Generator gp noises in
        let fake_score := Discriminator dp fake in
        let loss := - mean fake_score in
        length fake = length noises
        /\ length fake_score = length noises
        /\ gen_losses s' = gen_losses s ++ [loss]
        /\ events s'
           = events s
             ++ [EvZeroGrad Gen;
                 EvRandn (Config.batch_size cfg) (Config.n_noise_features cfg);
                 EvBackward Gen loss (requires_grad (discriminator s)) true;
                 EvStep Gen]
        /\ grad (generator s')
           = g_accumulate g_zero
               (g_gradient
                  (fun p => - mean (Discriminator dp (Generator p noises))) gp)
        /\ params (generator s')
           = fst (g_adam (gen_optimizer s) gp (grad (generator s')))
        /\ gen_iterations s' = (gen_iterations s + 1)%Z
        /\ disc_steps (begin_disc_phase cfg s')
           = scheduled_disc_steps cfg (gen_iterations s + 1)%Z).
Proof.
  intros dp gp.
  destruct (gen_step_ok s Hbs Hnf Htrainable)
    as [noises [s' [Hz [Hlen [Hstep Hpost]]]]].
  exists noises, s'.
  split; [exact Hz|]. split; [rewrite Hlen; lia|]. split; [exact Hstep|].
  cbv zeta. destruct Hpost.
  repeat split; try assumption.
  - apply length_Generator.
  - now rewrite length_Discriminator, length_Generator.
  - cbn [begin_disc_phase disc_steps set_discriminator_requires_grad
         gen_iterations].
    now f_equal.
Qed.

End StepFacts.

(** ** The loader *)

Section LoaderFacts.

Import Loader.

Lemma chunk_fuel_spec {A : Type} (size : nat) (Hsize : (0 < size)%nat) :
  forall (fuel : nat) (l : list A),
    (length l <= fuel)%nat ->
    Forall (fun b => (0 < length b <= size)%nat) (chunk_fuel fuel size l)
    /\ Z.of_nat (length (chunk_fuel fuel size l))
       = ((Z.of_nat (length l) + Z.of_nat size - 1) / Z.of_nat size)%Z.
Proof.
  induction fuel as [|fuel IH]; intros l Hl.
  - destruct l; [|simpl in Hl; lia]. simpl. split; [constructor|].
    symmetry. apply Z.div_small. lia.
  - destruct l as [|x l].
    + simpl. split; [constructor|]. symmetry. apply Z.div_small. lia.
    + cbn [chunk_fuel].
      destruct (IH (skipn size (x :: l))) as [Hall Hlen].
      { rewrite length_skipn. cbn [length] in *. lia. }
      split.
      * constructor; [|exact Hall].
        rewrite length_firstn. cbn [length]. lia.
      * rewrite length_skipn in Hlen.
        change (length (firstn size (x :: l)
                        :: chunk_fuel fuel size (skipn size (x :: l))))
          with (S (length (chunk_fuel fuel size (skipn size (x :: l))))).
        rewrite Nat2Z.inj_succ, Hlen.
        assert (Hn : (0 < length (x :: l))%nat) by (cbn [length]; lia).
        set (n := length (x :: l)) in *. clearbody n.
        destruct (Nat.le_gt_cases n size) as [Hle|Hgt].
        -- replace (n - size)%nat with 0%nat by lia.
           rewrite (Z.div_small (Z.of_nat 0 + Z.of_nat size - 1)) by lia.
           apply Z.div_unique with (r := (Z.of_nat n - 1)%Z); lia.
        -- rewrite Nat2Z.inj_sub by lia.
           replace (Z.of_nat n + Z.of_nat size - 1)%Z
             with ((Z.of_nat n - Z.of_nat size + Z.of_nat size - 1)
                   + 1 * Z.of_nat size)%Z by lia.
           rewrite Z.div_add by lia. lia.
Qed.

(** One pass over the loader yields [len(train_loader)] batches, each of
    between one and [batch_size] samples. *)
Lemma batches_spec (dl : DataLoader) (perm : list nat) :
  (0 < batch_size dl)%Z ->
  length perm = length (train_data dl) ->
  Z.of_nat (length (batches dl perm)) = len dl
  /\ Forall (fun b => (0 < Z.of_nat (length b) <= batch_size dl)%Z)
       (batches dl perm).
Proof.
  intros Hbs Hperm. unfold batches, chunk, len.
  destruct (@chunk_fuel_spec Sample (Z.to_nat (batch_size dl)) ltac:(lia)
              (length (map (fun q => nth q (train_data dl) []) perm))
              (map (fun q => nth q (train_data dl) []) perm) (le_n _))
    as [Hall Hlen].
  split.
  - etransitivity; [exact Hlen|].
    rewrite length_map, Hperm, Z2Nat.id by lia. reflexivity.
  - eapply Forall_impl; [|exact Hall]. cbv beta. intros b Hb. lia.
Qed.

End LoaderFacts.

(** ** The epoch loop *)

Section EpochFacts.

Context {T : Backend}.
Variable cfg : Config.t.
Variable train_loader : Loader.DataLoader.

Hypothesis Hnf : (0 <= Config.n_noise_features cfg)%Z.
Hypothesis Hbs : (0 <= Config.batch_size cfg)%Z.

Local Open Scope Z_scope.

Lemma progress_refl (s : State) : progress s s.
Proof.
  split; [reflexivity|]. exists []. split; [now rewrite app_nil_r|constructor].
Qed.

Lemma progress_trans (s1 s2 s3 : State) :
  progress s1 s2 -> progress s2 s3 -> progress s1 s3.
Proof.
  intros [B1 [n1 [E1 F1]]] [B2 [n2 [E2 F2]]]. split; [lia|].
  exists (n1 ++ n2). split.
  - now rewrite E2, E1, app_assoc.
  - apply Forall_app. now split.
Qed.

Lemma while_S {St : Type} (fuel : nat) (cond : St -> bool)
    (body : St -> result St) (s : St) :
  while (S fuel) cond body s
  = if cond s then bind (body s) (while fuel cond body) else Ok s.
Proof. reflexivity. Qed.

Lemma disc_step_progress (s : State) (images : Batch) (rest : list Batch) :
  train_iterator s = images :: rest ->
  Inv cfg train_loader s ->
  requires_grad (discriminator s) = true ->
  exists s',
    disc_step cfg s = Ok s'
    /\ Inv cfg train_loader s'
    /\ requires_grad (discriminator s') = true
    /\ gen_iterations s' = gen_iterations s
    /\ disc_steps s' = disc_steps s
    /\ train_iterator s' = rest
    /\ progress s s'.
Proof.
  intros Hit [Hi [Hall Hg]] Hd.
  rewrite Hit in Hall. inversion Hall as [|b l Hb Hrest]; subst.
  assert (Hne : images <> []).
  { destruct images; [cbn [length] in Hb; lia|congruence]. }
  destruct (disc_step_ok cfg s Hit Hne (proj2 Hb) Hnf Hd)
    as [noises [s' [_ [_ [Hstep Hpost]]]]].
  exists s'. destruct Hpost.
  repeat split; try assumption.
  - rewrite post_i0, post_train_iterator0, Hi, Hit. cbn [length]. lia.
  - now rewrite post_train_iterator0.
  - congruence.
  - rewrite post_disc_losses0, post_train_iterator0, Hit, length_app.
    cbn [length]. lia.
  - eexists. split; [exact post_events0|].
    rewrite Hg. repeat constructor.
Qed.

Lemma inner_loop_ok :
  forall (n : nat) (s : State) (fuel : nat),
    length (train_iterator s) = n ->
    Inv cfg train_loader s ->
    requires_grad (discriminator s) = true ->
    (n < fuel)%nat ->
    exists s',
      while fuel (inner_cond train_loader) (disc_step cfg) s = Ok s'
      /\ Inv cfg train_loader s'
      /\ requires_grad (discriminator s') = true
      /\ gen_iterations s' = gen_iterations s
      /\ progress s s'
      /\ (length (train_iterator s') <= length (train_iterator s))%nat
      /\ (inner_cond train_loader s = true ->
          (length (train_iterator s') < length (train_iterator s))%nat).
Proof.
  induction n as [|n IH]; intros s fuel Hlen HI Hd Hfuel;
    (destruct fuel as [|fuel]; [lia|]); rewrite while_S;
    destruct (inner_cond train_loader s) eqn:C;
    try (exists s; repeat split; try assumption; try apply HI;
         try apply progress_refl; try lia; discriminate).
  - exfalso. unfold inner_cond in C. apply andb_prop in C.
    destruct C as [_ C]. apply Z.ltb_lt in C.
    destruct HI as [Hi _]. lia.
  - destruct (train_iterator s) as [|images rest] eqn:Hit;
      [discriminate|].
    destruct (disc_step_progress Hit HI Hd)
      as [s1 [Hstep [HI1 [Hd1 [Hg1 [Hds1 [Hit1 Hp1]]]]]]].
    rewrite Hstep. cbn [bind].
    destruct (IH s1 fuel) as [s' [Hw [HI' [Hd' [Hg' [Hp' [Hle _]]]]]]];
      try assumption.
    { rewrite Hit1. cbn [length] in Hlen. lia. }
    { lia. }
    exists s'. rewrite Hit1 in Hle.
    repeat split; try assumption; try apply HI'.
    + congruence.
    + eapply progress_trans; eassumption.
    + eapply progress_trans; eassumption.
    + cbn [length]. lia.
    + intros _. cbn [length]. lia.
Qed.

Lemma gen_phase_ok (s : State) :
  requires_grad (generator s) = true ->
  exists noises s',
    gen_phase cfg s = Ok s'
    /\ gen_step_post cfg (set_discriminator_requires_grad false s) noises s'
    /\ discriminator s'
       = {| params := params (discriminator s);
            requires_grad := false;
            grad := grad (discriminator s) |}.
Proof.
  intro Hg. unfold gen_phase.
  destruct (@gen_step_ok _ cfg (set_discriminator_requires_grad false s)
              Hbs Hnf Hg)
    as [noises [s' [_ [_ [Hstep Hpost]]]]].
  exists noises, s'. split; [exact Hstep|]. split; [exact Hpost|].
  now apply (gpost_d_frozen Hpost).
Qed.

Lemma gen_phase_progress (s : State) :
  Inv cfg train_loader s ->
  exists s',
    gen_phase cfg s = Ok s'
    /\ Inv cfg train_loader s'
    /\ gen_iterations s' = gen_iterations s + 1
    /\ train_iterator s' = train_iterator s
    /\ progress s s'.
Proof.
  intros [Hi [Hall Hg]].
  destruct (gen_phase_ok s Hg) as [noises [s' [Hstep [Hpost _]]]].
  exists s'. destruct Hpost.
  cbn [set_discriminator_requires_grad gen_iterations train_iterator i
       disc_losses events discriminator requires_grad params] in *.
  repeat split; try assumption; try congruence.
  eexists. split; [eassumption|]. repeat constructor.
Qed.

Lemma mu_nonneg (s : State) : 0 <= mu s.
Proof.
  unfold mu. pose proof (Z.mod_pos_bound (- gen_iterations s) 500). lia.
Qed.

Lemma scheduled_nonpositive (g : Z) :
  scheduled_disc_steps cfg g <= 0 -> g mod 500 <> 0.
Proof.
  unfold scheduled_disc_steps.
  destruct (g <? 25); [cbn [orb]; lia|].
  destruct (g mod 500 =? 0) eqn:E; [cbn [orb]; lia|].
  intros _. now apply Z.eqb_neq.
Qed.

Lemma next_multiple_closer (g : Z) :
  g mod 500 <> 0 -> (- (g + 1)) mod 500 < (- g) mod 500.
Proof.
  intro H.
  pose proof (Z.div_mod g 500 ltac:(lia)).
  pose proof (Z.mod_pos_bound g 500 ltac:(lia)).
  pose proof (Z.div_mod (- g) 500 ltac:(lia)).
  pose proof (Z.mod_pos_bound (- g) 500 ltac:(lia)).
  pose proof (Z.div_mod (- (g + 1)) 500 ltac:(lia)).
  pose proof (Z.mod_pos_bound (- (g + 1)) 500 ltac:(lia)).
  lia.
Qed.

Lemma outer_body_ok (s : State) (F : nat) :
  Inv cfg train_loader s ->
  outer_cond train_loader s = true ->
  (length (train_iterator s) < F)%nat ->
  exists s',
    outer_body cfg train_loader F s = Ok s'
    /\ Inv cfg train_loader s'
    /\ progress s s'
    /\ mu s' < mu s
    /\ (length (train_iterator s') <= length (train_iterator s))%nat.
Proof.
  intros HI Hc HF. unfold outer_body, disc_phase.
  set (s0 := begin_disc_phase cfg s).
  assert (HI0 : Inv cfg train_loader s0) by exact HI.
  assert (Hp0 : progress s s0).
  { split; [reflexivity|]. exists []. split; [|constructor].
    cbn. now rewrite app_nil_r. }
  destruct (@inner_loop_ok (length (train_iterator s0)) s0 F eq_refl HI0
              eq_refl HF)
    as [s1 [Hw [HI1 [Hd1 [Hg1 [Hp1 [Hle1 Hlt1]]]]]]].
  rewrite Hw. cbn [bind].
  destruct (gen_phase_progress HI1) as [s2 [Hgen [HI2 [Hg2 [Hit2 Hp2]]]]].
  exists s2. split; [exact Hgen|]. split; [exact HI2|].
  split; [eauto using progress_trans|].
  change (train_iterator s0) with (train_iterator s) in *.
  change (gen_iterations s0) with (gen_iterations s) in *.
  rewrite Hit2. split; [|exact Hle1].
  unfold mu. rewrite Hit2, Hg2, Hg1.
  pose proof (Z.mod_pos_bound (- gen_iterations s) 500 ltac:(lia)).
  pose proof (Z.mod_pos_bound (- (gen_iterations s + 1)) 500 ltac:(lia)).
  destruct (inner_cond train_loader s0) eqn:C.
  - specialize (Hlt1 eq_refl). lia.
  - assert (Hs : scheduled_disc_steps cfg (gen_iterations s) <= 0).
    { unfold inner_cond in C. unfold outer_cond in Hc.
      change (i s0) with (i s) in C. rewrite Hc, andb_true_r in C.
      apply Z.ltb_ge in C. exact C. }
    pose proof (@next_multiple_closer _ (@scheduled_nonpositive _ Hs)). lia.
Qed.

Lemma epoch_loop_ok (F : nat) :
  forall (n : nat) (s : State),
    Inv cfg train_loader s ->
    mu s < Z.of_nat n ->
    (length (train_iterator s) < F)%nat ->
    exists s',
      while n (outer_cond train_loader) (outer_body cfg train_loader F) s
      = Ok s'
      /\ Inv cfg train_loader s'
      /\ progress s s'
      /\ train_iterator s' = [].
Proof.
  induction n as [|n IH]; intros s HI Hmu HF.
  - pose proof (mu_nonneg s). lia.
  - rewrite while_S. destruct (outer_cond train_loader s) eqn:C.
    + destruct (outer_body_ok HI C HF) as [s1 [Hb [HI1 [Hp1 [Hmu1 Hle1]]]]].
      rewrite Hb. cbn [bind].
      destruct (IH s1 HI1 ltac:(lia) ltac:(lia)) as [s' [Hw [HI' [Hp' He]]]].
      exists s'. repeat split; try assumption; try apply HI'.
      * eapply progress_trans; eassumption.
      * eapply progress_trans; eassumption.
    + exists s. repeat split; try apply HI; try apply progress_refl.
      unfold outer_cond in C. apply Z.ltb_ge in C.
      destruct HI as [Hi _].
      destruct (train_iterator s); [reflexivity|cbn [length] in Hi; lia].
Qed.

Lemma py_mod_ok (a b : Z) : b <> 0 -> py_mod a b = Ok (a mod b).
Proof.
  intro H. unfold py_mod. now destruct (Z.eqb_spec b 0).
Qed.

Hypothesis Hpos : 0 < Loader.batch_size train_loader.
Hypothesis Hsame : Loader.batch_size train_loader = Config.batch_size cfg.
Hypothesis Hprint : Config.print_every cfg <> 0.
Hypothesis Hcheck : Config.checkpoints cfg <> 0.

Lemma begin_epoch_ok (e : Z) (s : State) :
  requires_grad (generator s) = true ->
  exists s',
    begin_epoch cfg train_loader e s = Ok s'
    /\ Inv cfg train_loader s'
    /\ train_iterator s' = yielded train_loader s
    /\ i s' = 0
    /\ disc_losses s' = disc_losses s
    /\ gen_losses s' = gen_losses s
    /\ gen_iterations s' = gen_iterations s
    /\ discriminator s' = discriminator s
    /\ exists new, events s' = events s ++ new /\ Forall phase_ok new.
Proof.
  intro Hg. unfold begin_epoch. rewrite py_mod_ok by assumption. cbn [bind].
  destruct (@batches_spec train_loader
              (randperm (torch_random s)
                 (length (Loader.train_data train_loader))) Hpos
              (randperm_length _ _)) as [Hlen Hall].
  eexists. split; [reflexivity|].
  cbn [train_iterator i disc_losses gen_losses gen_iterations discriminator
       events].
  split.
  { unfold Inv. cbn [train_iterator i generator]. split; [|split].
    - rewrite Hlen. lia.
    - eapply Forall_impl; [|exact Hall]. cbv beta. intros b Hb. lia.
    - exact Hg. }
  do 6 (split; [reflexivity|]).
  eexists. split; [reflexivity|].
  destruct (e mod Config.print_every cfg =? 0); repeat constructor.
Qed.

Lemma end_epoch_ok (e : Z) (s : State) :
  exists s',
    end_epoch cfg e s = Ok s'
    /\ train_iterator s' = train_iterator s
    /\ disc_losses s' = disc_losses s
    /\ gen_losses s' = gen_losses s
    /\ gen_iterations s' = gen_iterations s
    /\ discriminator s' = discriminator s
    /\ generator s' = generator s
    /\ exists new, events s' = events s ++ new /\ Forall phase_ok new.
Proof.
  unfold end_epoch. rewrite !py_mod_ok by assumption. cbn [bind].
  destruct (@randn_ok _ (np_random s) (Config.batch_size cfg)
              (Config.n_noise_features cfg) Hbs Hnf) as [z [Hz _]].
  rewrite Hz. cbn [bind].
  destruct (e mod Config.checkpoints cfg =? 0); cbn [bind];
    (eexists; split; [reflexivity|];
     cbn [train_iterator disc_losses gen_losses gen_iterations discriminator
          generator events];
     repeat split; try reflexivity;
     eexists; split; [reflexivity|];
     destruct (e mod Config.print_every cfg =? 0); repeat constructor).
Qed.

(** One epoch, given enough loop budget: it completes, the iterator is
    exhausted, [disc_losses] has grown by one entry per batch, and every
    [backward] saw the trainability of its phase. *)
Lemma run_epoch_ok (e : Z) (s : State) :
  requires_grad (generator s) = true ->
  forall F : nat,
    (500 * length (yielded train_loader s) + 500 <= F)%nat ->
    exists s',
      run_epoch cfg train_loader F e s = Ok s'
      /\ train_iterator s' = []
      /\ length (disc_losses s')
         = (length (disc_losses s) + length (yielded train_loader s))%nat
      /\ requires_grad (generator s') = true
      /\ exists new, events s' = events s ++ new /\ Forall phase_ok new.
Proof.
  intros Hg F HF. unfold run_epoch.
  destruct (begin_epoch_ok e s Hg)
    as [s1 [Hb [HI1 [Hit1 [_ [Hdl1 [_ [_ [_ [n1 [He1 Hf1]]]]]]]]]]].
  rewrite Hb. cbn [bind]. unfold epoch_loop.
  destruct (@epoch_loop_ok F F s1 HI1) as [s2 [Hw [HI2 [Hp2 Hit2]]]].
  { unfold mu. rewrite Hit1.
    pose proof (Z.mod_pos_bound (- gen_iterations s1) 500 ltac:(lia)). lia. }
  { rewrite Hit1. lia. }
  rewrite Hw. cbn [bind].
  destruct (end_epoch_ok e s2)
    as [s3 [Hend [Hit3 [Hdl3 [_ [_ [_ [Hgen3 [n3 [He3 Hf3]]]]]]]]]].
  exists s3. split; [exact Hend|].
  destruct Hp2 as [Hbat [n2 [He2 Hf2]]].
  repeat split.
  - congruence.
  - rewrite Hdl3, <- Hdl1, <- Hit1. rewrite Hit2 in Hbat.
    cbn [length] in Hbat. lia.
  - rewrite Hgen3. apply HI2.
  - exists (n1 ++ n2 ++ n3). split.
    + rewrite He3, He2, He1, !app_assoc. reflexivity.
    + repeat (apply Forall_app; split); assumption.
Qed.

End EpochFacts.

(** ** What a step takes from the loader *)

Section Consumption.

Context {T : Backend}.
Variable cfg : Config.t.

Lemma disc_step_consumes (st st' : State) :
  disc_step cfg st = Ok st' ->
  exists images,
    train_iterator st = images :: train_iterator st'
    /\ length (disc_losses st') = S (length (disc_losses st))
    /\ gen_losses st' = gen_losses st.
Proof.
  unfold disc_step.
  destruct (train_iterator st) as [|images rest]; [discriminate|].
  destruct (randn _ _ _) as [noises| |]; cbn [bind]; try discriminate.
  destruct (disc_forward _ _ _ _ _ _ _) as [fw| |]; cbn [bind];
    try discriminate.
  destruct (backward _ _ _) as [dg| |]; cbn [bind]; try discriminate.
  destruct (broadcast2 _ _ _) as [diff| |]; cbn [bind]; try discriminate.
  intro H. injection H as <-. exists images.
  cbn [train_iterator disc_losses gen_losses].
  rewrite length_app. cbn [length]. repeat split. lia.
Qed.

Lemma gen_phase_consumes_nothing (st st' : State) :
  gen_phase cfg st = Ok st' ->
  train_iterator st' = train_iterator st
  /\ disc_losses st' = disc_losses st
  /\ length (gen_losses st') = S (length (gen_losses st)).
Proof.
  unfold gen_phase, gen_step.
  destruct (randn _ _ _) as [noises| |]; cbn [bind]; try discriminate.
  destruct (backward _ _ _) as [dg| |]; cbn [bind]; try discriminate.
  intro H. injection H as <-.
  cbn [train_iterator disc_losses gen_losses set_discriminator_requires_grad].
  rewrite length_app. cbn [length]. repeat split. lia.
Qed.

End Consumption.

(** ** The claims about the loop *)

Section Loop.

Context {T : Backend}.
Variable cfg : Config.t.
Variable train_loader : Loader.DataLoader.

Local Open Scope Z_scope.

(** C10. In an epoch every discriminator update takes exactly one batch from
    the iterator and appends one entry to [disc_losses], and a generator
    phase takes none and appends none; so the epoch, which runs to completion
    whatever [disc_steps] is configured and whatever the generator-update
    count is, appends to [disc_losses] as many entries as the loader yields
    batches, which is [len(train_loader)]. *)
Theorem one_discriminator_loss_per_batch (e : Z) (s : State)
    (Hnf : 0 <= Config.n_noise_features cfg)
    (Hpos : 0 < Loader.batch_size train_loader)
    (Hsame : Loader.batch_size train_loader = Config.batch_size cfg)
    (Hprint : Config.print_every cfg <> 0)
    (Hcheck : Config.checkpoints cfg <> 0)
    (Hgen : requires_grad (generator s) = true) :
  let batches := yielded train_loader s in
  Z.of_nat (length batches) = Loader.len train_loader
  /\ (forall st st',
         disc_step cfg st = Ok st' ->
         exists images,
           train_iterator st = images :: train_iterator st'
           /\ length (disc_losses st') = S (length (disc_losses st)))
  /\ (forall st st',
         gen_phase cfg st = Ok st' ->
         train_iterator st' = train_iterator st
         /\ disc_losses st' = disc_losses st)
  /\ (forall F : nat,
         (500 * length batches + 500 <= F)%nat ->
         exists s',
           run_epoch cfg train_loader F e s = Ok s'
           /\ train_iterator s' = []
           /\ length (disc_losses s')
              = (length (disc_losses s) + length batches)%nat).
Proof.
  intro batches. split; [|split; [|split]].
  - apply batches_spec; [assumption|apply randperm_length].
  - intros st st' H. destruct (disc_step_consumes _ _ H) as [b [H1 [H2 _]]].
    now exists b.
  - intros st st' H. destruct (gen_phase_consumes_nothing _ _ H) as [H1 [H2 _]].
    now split.
  - intros F HF.
    destruct (@run_epoch_ok _ cfg train_loader Hnf ltac:(lia) Hpos Hsame
                Hprint Hcheck e s Hgen F HF)
      as [s' [Hrun [Hit [Hlen _]]]].
    now exists s'.
Qed.

(** C6 (as amended). Gradient tracking of the discriminator is switched on
    at the start of every discriminator phase and off before every generator
    update; a generator update leaves the weights and the gradients of the
    discriminator as they were; and over an epoch every backward pass of a
    generator update sees only the generator trainable, while every backward
    pass of a discriminator update sees both networks trainable, the
    generator being trainable throughout. *)
Theorem discriminator_frozen_in_generator_phase (e : Z) (s : State)
    (Hnf : 0 <= Config.n_noise_features cfg)
    (Hpos : 0 < Loader.batch_size train_loader)
    (Hsame : Loader.batch_size train_loader = Config.batch_size cfg)
    (Hprint : Config.print_every cfg <> 0)
    (Hcheck : Config.checkpoints cfg <> 0)
    (Hgen : requires_grad (generator s) = true) :
  (forall st, requires_grad (discriminator (begin_disc_phase cfg st)) = true)
  /\ (forall st,
         requires_grad (generator st) = true ->
         exists st' loss,
           gen_phase cfg st = Ok st'
           /\ requires_grad (discriminator st') = false
           /\ grad (discriminator st') = grad (discriminator st)
           /\ params (discriminator st') = params (discriminator st)
           /\ events st'
              = events st
                ++ [EvZeroGrad Gen;
                    EvRandn (Config.batch_size cfg)
                      (Config.n_noise_features cfg);
                    EvBackward Gen loss false true;
                    EvStep Gen])
  /\ (forall F : nat,
         (500 * length (yielded train_loader s) + 500 <= F)%nat ->
         exists s' new,
           run_epoch cfg train_loader F e s = Ok s'
           /\ events s' = events s ++ new
           /\ Forall phase_ok new
           /\ requires_grad (generator s') = true).
Proof.
  assert (Hbs : 0 <= Config.batch_size cfg) by lia.
  split; [reflexivity|]. split.
  - intros st Hg.
    destruct (@gen_phase_ok _ cfg Hnf Hbs st Hg)
      as [noises [st' [Hstep [Hpost Hd]]]].
    exists st'. eexists. split; [exact Hstep|].
    rewrite Hd. cbn [requires_grad grad params].
    repeat split. exact (gpost_events Hpost).
  - intros F HF.
    destruct (@run_epoch_ok _ cfg train_loader Hnf Hbs Hpos Hsame
                Hprint Hcheck e s Hgen F HF)
      as [s' [Hrun [_ [_ [Hg' [new [He Hf]]]]]]].
    now exists s', new.
Qed.


End Loop.

(** ** The end-to-end scenario *)

Section Scenario.

Context {T : Backend}.
Variable cfg : Config.t.

Local Open Scope Z_scope.

(** C8. With [batch_size = 8], [n_noise_features = 10], [epochs = 1] and
    [disc_steps = 1], over a loader that holds three samples (one batch per
    epoch), training runs its one epoch to completion without raising and
    leaves exactly one entry in [disc_losses] and one in [gen_losses]: 100
    discriminator steps are scheduled, the inner loop stops after the only
    batch, and one generator phase follows. *)
Theorem one_epoch_on_three_samples (x1 x2 x3 : Sample)
    (dp : DParams) (gp : GParams) (dopt : DOpt) (gopt : GOpt)
    (Hbatch : Config.batch_size cfg = 8)
    (Hnoise : Config.n_noise_features cfg = 10)
    (Hepochs : Config.epochs cfg = 1)
    (Hsteps : Config.disc_steps cfg = 1)
    (Hprint : Config.print_every cfg <> 0)
    (Hcheck : Config.checkpoints cfg <> 0) :
  let train_loader :=
    {| Loader.train_data := [x1; x2; x3]; Loader.batch_size := 8 |} in
  Loader.len train_loader = 1
  /\ exists s0,
       initial_state cfg train_loader dp gp dopt gopt = Ok s0
       /\ disc_losses s0 = []
       /\ gen_losses s0 = []
       /\ scheduled_disc_steps cfg (gen_iterations s0) = 100
       /\ forall F : nat,
            (2 <= F)%nat ->
            exists s',
              train cfg train_loader F s0 = Ok s'
              /\ length (disc_losses s') = 1%nat
              /\ length (gen_losses s') = 1%nat.
Proof.
  intro train_loader.
  assert (HL : Loader.len train_loader = 1) by reflexivity.
  assert (Hnf : 0 <= Config.n_noise_features cfg) by lia.
  assert (Hbs : 0 <= Config.batch_size cfg) by lia.
  assert (Hpos : 0 < Loader.batch_size train_loader) by (cbn; lia).
  assert (Hsame : Loader.batch_size train_loader = Config.batch_size cfg)
    by (cbn; lia).
  split; [exact HL|].
  unfold initial_state. cbn [Loader.train_data train_loader].
  destruct (@randn_ok _ 0 (Config.batch_size cfg)
              (Config.n_noise_features cfg) Hbs Hnf) as [z [Hz _]].
  rewrite Hz. cbn [bind]. eexists. split; [reflexivity|].
  cbn [disc_losses gen_losses gen_iterations].
  do 3 (split; [reflexivity|]).
  intros F HF. destruct F as [|[|F]]; try lia.
  unfold train. rewrite Hepochs. change (range 1) with [0].
  cbn [for_each].
  match goal with |- context [run_epoch _ _ _ _ ?s] => set (s0 := s) end.
  unfold run_epoch.
  destruct (@begin_epoch_ok _ cfg train_loader Hpos Hsame Hprint 0 s0 eq_refl)
    as [s1 [Hb [HI1 [Hit1 [Hi1 [Hdl1 [Hgl1 [Hgi1 _]]]]]]]].
  rewrite Hb. cbn [bind].
  (* the loader yields one batch *)
  destruct (@batches_spec train_loader
              (randperm (torch_random s0)
                 (length (Loader.train_data train_loader))) Hpos
              (randperm_length _ _)) as [Hlen _].
  fold (yielded train_loader s0) in Hlen. rewrite <- Hit1, HL in Hlen.
  destruct (train_iterator s1) as [|b [|b' rest]] eqn:Hiter;
    cbn [length] in Hlen; try lia.
  (* the only pass of the outer loop *)
  unfold epoch_loop. rewrite while_S.
  unfold outer_cond at 1. rewrite Hi1, HL. cbn [Z.ltb Z.compare].
  unfold outer_body at 1, disc_phase.
  set (s1' := begin_disc_phase cfg s1).
  assert (HI1' : Inv cfg train_loader s1') by exact HI1.
  rewrite while_S. unfold inner_cond at 1.
  change (j s1') with 0. change (i s1') with (i s1).
  change (disc_steps s1') with (scheduled_disc_steps cfg (gen_iterations s1)).
  rewrite Hi1, HL, Hgi1. cbn [gen_iterations s0 scheduled_disc_steps Z.ltb
    Z.compare orb andb].
  destruct (@disc_step_progress _ cfg train_loader Hnf s1' b [] Hiter HI1'
              eq_refl)
    as [s2 [Hstep [HI2 [Hd2 [Hgi2 [_ [Hit2 Hp2]]]]]]].
  rewrite Hstep. cbn [bind].
  assert (Hi2 : i s2 = 1).
  { destruct HI2 as [Hi2 _]. rewrite Hi2, Hit2, HL. reflexivity. }
  rewrite while_S. unfold inner_cond at 1. rewrite Hi2, HL.
  rewrite andb_false_r. cbn [bind].
  destruct (@gen_phase_progress _ cfg train_loader Hnf Hbs s2 HI2)
    as [s3 [Hgen [HI3 [Hgi3 [Hit3 Hp3]]]]].
  rewrite Hgen. cbn [bind].
  assert (Hi3 : i s3 = 1).
  { destruct HI3 as [Hi3 _]. rewrite Hi3, Hit3, Hit2, HL. reflexivity. }
  rewrite while_S. unfold outer_cond at 1. rewrite Hi3, HL.
  cbn [Z.ltb Z.compare Pos.compare Pos.compare_cont].
  destruct (@end_epoch_ok _ cfg Hnf Hbs Hprint Hcheck 0 s3)
    as [s4 [Hend [_ [Hdl4 [Hgl4 _]]]]].
  cbn [bind]. rewrite Hend. cbn [bind]. exists s4. split; [reflexivity|].
  destruct (disc_step_consumes _ _ Hstep) as [_ [_ [Hdl2 Hgl2]]].
  destruct (gen_phase_consumes_nothing _ _ Hgen) as [_ [Hdl3 Hgl3]].
  rewrite Hdl4, Hgl4, Hdl3, Hgl3, Hdl2, Hgl2.
  change (disc_losses s1') with (disc_losses s1).
  change (gen_losses s1') with (gen_losses s1).
  rewrite Hdl1, Hgl1. split; reflexivity.
Qed.

End Scenario.

(** ** Start-up *)

Section StartupFacts.

Import Startup.

Local Open Scope string_scope.

(** Which run it is follows the configuration file that was read, whatever
    the flag said. *)
Lemma startup_follows_config (fs : FileSystem) (now : string)
    (flag : option string) (run : Run) :
  startup fs now flag = Ok run ->
  read_yaml fs (config_file run) = Some (config run)
  /\ resume_training run = Config.resume_training (config run)
  /\ weights run
     = (if Config.resume_training (config run)
        then load_state_dict (result_dir run) else weight_init).
Proof.
  unfold startup.
  destruct (negb (parse_args flag =? "None"));
    (destruct (read_yaml fs _) as [c|] eqn:Hc; [|discriminate]);
    (destruct (Config.resume_training c) eqn:Hr; cbn [negb];
     [|destruct (isdir fs _); cbn [negb]; [discriminate|];
       destruct (read_yaml fs "config.yml") eqn:Hcopy; [|discriminate]]);
    intro H; injection H as <-;
    cbn [config_file config resume_training weights result_dir];
    rewrite ?Hr; repeat split; congruence.
Qed.

(** C9, on the two inputs where the code departs from it.  Without the flag,
    a local [config.yml] with [resume_training: true] makes the run a resume
    from the folder named by the default value of the flag: no result
    directory is created and the weights are loaded.  With the flag naming [run1], whose
    [config.yml] says [resume_training: false], the run is a fresh one: a
    new result directory is created and the weights are freshly
    initialised. *)
Theorem resume_decided_by_config_not_flag :
  startup Small.disk_local_resume "26-11-04_10-00" None
  = Ok {| config_file := "config.yml";
          config := Small.resuming_config;
          resume_training := true;
          result_dir := "None";
          video_dir := "Nonevideo/";
          makedirs := [];
          weights := load_state_dict "None" |}
  /\ startup Small.disk_prior_run "26-11-04_10-00" (Some "run1")
     = Ok {| config_file := "run1/config.yml";
             config := Small.config;
             resume_training := false;
             result_dir := "26-11-04_10-00_e1_d64_g64/";
             video_dir := "26-11-04_10-00_e1_d64_g64/video/";
             makedirs := ["26-11-04_10-00_e1_d64_g64/";
                          "26-11-04_10-00_e1_d64_g64/video/"];
             weights := weight_init |}.
Proof.
  split; reflexivity.
Qed.

End StartupFacts.

(** ** The claims on concrete inputs *)

Section Concrete.

Local Open Scope R_scope.

Lemma gradient_penalty_algorithm_witness :
  length [Small.pixel 1] = length [Small.pixel 0]
  /\ exists penalty,
       compute_gradient_penalty (T := Small.backend)
         [Small.pixel 0] [Small.pixel 1]
         (Discriminator (0 : @DParams Small.backend)) 10 0%nat
       = Ok penalty
       /\ length penalty = 1%nat.
Proof.
  split; [reflexivity|].
  destruct (@gradient_penalty_algorithm Small.backend 0
              [Small.pixel 0] [Small.pixel 1] 10 0%nat eq_refl)
    as [_ [_ [_ [Hlen [Hpen _]]]]].
  eexists. split; [apply Hpen; discriminate|].
  now rewrite length_map, Hlen.
Defined.

Lemma discriminator_update_step_witness :
  train_iterator (Small.state [[Small.pixel 0]]) = [Small.pixel 0] :: []
  /\ (0 < length [Small.pixel 0])%nat
  /\ (Z.of_nat (length [Small.pixel 0]) <= Config.batch_size Small.config)%Z
  /\ (0 <= Config.n_noise_features Small.config)%Z
  /\ requires_grad (discriminator (Small.state [[Small.pixel 0]])) = true
  /\ exists s',
       disc_step Small.config (Small.state [[Small.pixel 0]]) = Ok s'
       /\ length (disc_losses s') = 1%nat.
Proof.
  assert (H1 : (0 < length [Small.pixel 0])%nat) by (cbn; lia).
  assert (H2 : (Z.of_nat (length [Small.pixel 0])
                <= Config.batch_size Small.config)%Z) by (cbn; lia).
  assert (H3 : (0 <= Config.n_noise_features Small.config)%Z) by (cbn; lia).
  repeat (split; [first [reflexivity | assumption]|]).
  destruct (@discriminator_update_step Small.backend Small.config
              (Small.state [[Small.pixel 0]]) [Small.pixel 0] []
              eq_refl H1 H2 H3 eq_refl)
    as [noises [penalty [s' [_ [_ [_ [_ [Hstep [_ [Hloss _]]]]]]]]]].
  exists s'. split; [exact Hstep|]. now rewrite Hloss.
Defined.

Lemma generator_update_step_witness :
  (0 <= Config.batch_size Small.config)%Z
  /\ (0 <= Config.n_noise_features Small.config)%Z
  /\ requires_grad (generator (Small.state [])) = true
  /\ exists s',
       gen_step Small.config (Small.state []) = Ok s'
       /\ gen_iterations s' = 1%Z
       /\ length (gen_losses s') = 1%nat.
Proof.
  assert (H1 : (0 <= Config.batch_size Small.config)%Z) by (cbn; lia).
  assert (H2 : (0 <= Config.n_noise_features Small.config)%Z) by (cbn; lia).
  repeat (split; [first [reflexivity | assumption]|]).
  destruct (@generator_update_step Small.backend Small.config
              (Small.state []) H1 H2 eq_refl)
    as [noises [s' [_ [_ [Hstep [_ [_ [Hloss [_ [_ [_ [Hg _]]]]]]]]]]]].
  exists s'. split; [exact Hstep|]. split; [exact Hg|]. now rewrite Hloss.
Defined.

Lemma yielded_small :
  length (yielded Small.loader (Small.state [])) = 1%nat.
Proof. reflexivity. Qed.

Lemma one_discriminator_loss_per_batch_witness :
  (0 <= Config.n_noise_features Small.config)%Z
  /\ (0 < Loader.batch_size Small.loader)%Z
  /\ Loader.batch_size Small.loader = Config.batch_size Small.config
  /\ Config.print_every Small.config <> 0%Z
  /\ Config.checkpoints Small.config <> 0%Z
  /\ requires_grad (generator (Small.state [])) = true
  /\ exists s',
       run_epoch Small.config Small.loader 1000 0 (Small.state []) = Ok s'
       /\ train_iterator s' = []
       /\ length (disc_losses s') = 1%nat.
Proof.
  assert (H1 : (0 <= Config.n_noise_features Small.config)%Z) by (cbn; lia).
  assert (H2 : (0 < Loader.batch_size Small.loader)%Z) by (cbn; lia).
  assert (H3 : Config.print_every Small.config <> 0%Z) by (cbn; lia).
  assert (H4 : Config.checkpoints Small.config <> 0%Z) by (cbn; lia).
  repeat (split; [first [reflexivity | assumption]|]).
  destruct (@one_discriminator_loss_per_batch Small.backend Small.config
              Small.loader 0%Z (Small.state []) H1 H2 eq_refl H3 H4 eq_refl)
    as [_ [_ [_ Hrun]]].
  destruct (Hrun 1000%nat) as [s' [Hs [Hit Hlen]]].
  { rewrite yielded_small. lia. }
  exists s'. rewrite yielded_small in Hlen.
  repeat split; assumption.
Defined.

Lemma discriminator_frozen_in_generator_phase_witness :
  (0 <= Config.n_noise_features Small.config)%Z
  /\ (0 < Loader.batch_size Small.loader)%Z
  /\ Loader.batch_size Small.loader = Config.batch_size Small.config
  /\ Config.print_every Small.config <> 0%Z
  /\ Config.checkpoints Small.config <> 0%Z
  /\ requires_grad (generator (Small.state [])) = true
  /\ exists s',
       gen_phase Small.config (Small.state []) = Ok s'
       /\ requires_grad (discriminator s') = false
       /\ grad (discriminator s') = grad (discriminator (Small.state [])).
Proof.
  assert (H1 : (0 <= Config.n_noise_features Small.config)%Z) by (cbn; lia).
  assert (H2 : (0 < Loader.batch_size Small.loader)%Z) by (cbn; lia).
  assert (H3 : Config.print_every Small.config <> 0%Z) by (cbn; lia).
  assert (H4 : Config.checkpoints Small.config <> 0%Z) by (cbn; lia).
  repeat (split; [first [reflexivity | assumption]|]).
  destruct (@discriminator_frozen_in_generator_phase Small.backend
              Small.config Small.loader 0%Z (Small.state [])
              H1 H2 eq_refl H3 H4 eq_refl)
    as [_ [Hgen _]].
  destruct (Hgen (Small.state []) eq_refl)
    as [s' [loss [Hs [Hr [Hg _]]]]].
  exists s'. repeat split; assumption.
Defined.

(** C6 as stated fails in the first discriminator update of a run: its
    backward pass sees the discriminator and the generator both trainable. *)
Lemma both_trainable_counterexample :
  match
    initial_state (T := Small.backend) Small.config Small.loader 0 0 tt tt
  with
  | Ok s0 =>
      match train Small.config Small.loader 2 s0 with
      | Ok s' => existsb Small.both_trainable (events s')
      | _ => false
      end
  | _ => false
  end = true.
Proof. vm_compute. reflexivity. Qed.


Lemma one_epoch_on_three_samples_witness :
  Config.batch_size Small.config = 8%Z
  /\ Config.n_noise_features Small.config = 10%Z
  /\ Config.epochs Small.config = 1%Z
  /\ Config.disc_steps Small.config = 1%Z
  /\ Config.print_every Small.config <> 0%Z
  /\ Config.checkpoints Small.config <> 0%Z
  /\ exists s0 s',
       initial_state (T := Small.backend) Small.config Small.loader 0 0 tt tt
       = Ok s0
       /\ train Small.config Small.loader 2 s0 = Ok s'
       /\ length (disc_losses s') = 1%nat
       /\ length (gen_losses s') = 1%nat.
Proof.
  assert (H3 : Config.print_every Small.config <> 0%Z) by (cbn; lia).
  assert (H4 : Config.checkpoints Small.config <> 0%Z) by (cbn; lia).
  repeat (split; [first [reflexivity | assumption]|]).
  destruct (@one_epoch_on_three_samples Small.backend Small.config
              (Small.pixel 0) (Small.pixel 1) (Small.pixel (-1)) 0 0 tt tt
              eq_refl eq_refl eq_refl eq_refl H3 H4)
    as [_ [s0 [Hinit [_ [_ [_ Hrun]]]]]].
  destruct (Hrun 2%nat (le_n 2)) as [s' [Ht [Hd Hg]]].
  exists s0, s'. repeat split; assumption.
Defined.

End Concrete.

(** * Further properties of the script *)

(** ** [smooth] *)

Section Smoothing.

Import Helpers.

Local Open Scope R_scope.

Lemma length_smooth_loop (last : R) (items : list R) (factor : R) :
  length (smooth_loop last items factor) = length items.
Proof.
  revert last. induction items as [|x items IH]; intro last; simpl; auto.
Qed.

Lemma nth_smooth_loop (factor : R) :
  forall (items : list R) (last : R) (k : nat),
    (k < length items)%nat ->
    nth k (smooth_loop last items factor) 0
    = nth k (last :: items) 0 * factor + (1 - factor) * nth k items 0.
Proof.
  induction items as [|x items IH]; intros last k Hk; [simpl in Hk; lia|].
  destruct k as [|k]; [reflexivity|].
  cbn [smooth_loop nth]. rewrite IH by (cbn [length] in Hk; lia).
  reflexivity.
Qed.

(** X1. On a non-empty list [smooth] returns a list of the same length whose
    first entry is the first item and whose entry [k >= 1] is
    [l[k-1] * factor + (1 - factor) * l[k]]: each item is mixed with the item
    before it, not with the smoothed value before it. *)
Theorem smooth_entries (l : list R) (factor : R) (Hne : l <> []) :
  exists r,
    smooth l factor = inl r
    /\ length r = length l
    /\ nth 0 r 0 = nth 0 l 0
    /\ forall k, (k < length l)%nat -> (1 <= k)%nat ->
         nth k r 0 = nth (k - 1) l 0 * factor + (1 - factor) * nth k l 0.
Proof.
  destruct l as [|x l]; [contradiction|].
  eexists. split; [reflexivity|]. split; [|split].
  - cbn [length]. now rewrite length_smooth_loop.
  - reflexivity.
  - intros k Hk H1. destruct k as [|k]; [lia|].
    cbn [nth]. rewrite nth_smooth_loop by (cbn [length] in Hk; lia).
    replace (S k - 1)%nat with k by lia. reflexivity.
Qed.

Lemma smooth_entries_witness :
  [1; 3] <> []
  /\ exists r, smooth [1; 3] (/ 2) = inl r /\ nth 1 r 0 = 2.
Proof.
  assert (H : [1; 3] <> []) by discriminate.
  split; [exact H|].
  destruct (@smooth_entries [1; 3] (/ 2) H) as [r [Hr [_ [_ Hk]]]].
  exists r. split; [exact Hr|].
  rewrite (Hk 1%nat) by (cbn; lia). cbn. lra.
Defined.

Lemma smooth_loop_bounds (lo hi factor : R) :
  0 <= factor <= 1 ->
  forall (items : list R) (last : R),
    lo <= last <= hi ->
    Forall (fun x => lo <= x <= hi) items ->
    Forall (fun x => lo <= x <= hi) (smooth_loop last items factor).
Proof.
  intros Hf. induction items as [|x items IH]; intros last Hl Hall;
    [constructor|].
  inversion Hall as [|y ys Hx Hrest]; subst.
  cbn [smooth_loop]. constructor; [|now apply IH].
  split; nra.
Qed.

(** X3. In exact arithmetic, for a factor between 0 and 1, [smooth] keeps
    every bound of its input: if all items lie in [[lo, hi]], so do all
    smoothed values.  (In floating point a smoothed value can leave the
    interval by a rounding error: [0.1 * 0.2 + (1 - 0.2) * 0.1] is
    [0.10000000000000002].) *)
Theorem smooth_keeps_bounds (l : list R) (lo hi factor : R)
    (Hfactor : 0 <= factor <= 1)
    (Hne : l <> [])
    (Hbounds : Forall (fun x => lo <= x <= hi) l) :
  exists r,
    smooth l factor = inl r /\ Forall (fun x => lo <= x <= hi) r.
Proof.
  destruct l as [|x l]; [contradiction|].
  inversion Hbounds as [|y ys Hx Hrest]; subst.
  eexists. split; [reflexivity|].
  constructor; [exact Hx|]. now apply smooth_loop_bounds.
Qed.

Lemma smooth_keeps_bounds_witness :
  0 <= / 2 <= 1
  /\ [1; 3] <> []
  /\ Forall (fun x => 0 <= x <= 4) [1; 3]
  /\ exists r,
       smooth [1; 3] (/ 2) = inl r /\ Forall (fun x => 0 <= x <= 4) r.
Proof.
  assert (H1 : 0 <= / 2 <= 1) by lra.
  assert (H2 : [1; 3] <> []) by discriminate.
  assert (H3 : Forall (fun x => 0 <= x <= 4) [1; 3])
    by (repeat constructor; lra).
  split; [exact H1|]. split; [exact H2|]. split; [exact H3|].
  exact (@smooth_keeps_bounds [1; 3] 0 4 (/ 2) H1 H2 H3).
Defined.

End Smoothing.

(** ** [smooth] in floating point *)

Section SmoothFloat.

Import Floating.

Local Open Scope R_scope.

(** Where nothing is rounded and nothing overflows, [smooth] on floats is
    [smooth] on the reals. *)
Lemma smooth_loop_exact (items : list R) (last factor : R) :
  smooth_loop Finite (Finite last) (map Finite items) (Finite factor)
  = map Finite (Helpers.smooth_loop last items factor).
Proof.
  revert last. induction items as [|item items IH]; intro last;
    [reflexivity|].
  cbn [map smooth_loop Helpers.smooth_loop]. rewrite IH. reflexivity.
Qed.

(** What is used of the rounding of the format: 0 and 1 are numbers of
    the format. *)
Variable round : R -> float.
Hypothesis round_zero : round 0 = Finite 0.
Hypothesis round_one : round 1 = Finite 1.

Lemma one_minus_zero : sub round (Finite 1) (Finite 0) = Finite 1.
Proof. cbn. now rewrite Ropp_0, Rplus_0_r. Qed.

Lemma one_minus_one : sub round (Finite 1) (Finite 1) = Finite 0.
Proof. cbn. now rewrite Rplus_opp_r. Qed.

Lemma smooth_loop_factor_zero (items : list float) :
  Forall (held round) items ->
  forall last, (exists a, last = Finite a) ->
  smooth_loop round last items (Finite 0) = items.
Proof.
  induction 1 as [|item items Hitem Hitems IH]; intros last [a ->];
    [reflexivity|].
  cbn [smooth_loop]. rewrite one_minus_zero.
  destruct item as [b| |]; cbn in Hitem; try contradiction.
  cbn [mul]. rewrite Rmult_0_r, round_zero, Rmult_1_l, Hitem.
  cbn [add]. rewrite Rplus_0_l, Hitem. f_equal.
  apply IH. now exists b.
Qed.

Lemma smooth_loop_factor_one (items : list float) :
  Forall (held round) items ->
  forall last, held round last ->
  smooth_loop round last items (Finite 1) = removelast (last :: items).
Proof.
  induction 1 as [|item items Hitem Hitems IH]; intros last Hlast;
    [reflexivity|].
  cbn [smooth_loop]. rewrite one_minus_one.
  destruct last as [a| |]; cbn in Hlast; try contradiction.
  destruct item as [b| |] eqn:E; cbn in Hitem; try contradiction.
  cbn [mul]. rewrite Rmult_1_r, Hlast, Rmult_0_l, round_zero.
  cbn [add]. rewrite Rplus_0_r, Hlast.
  rewrite IH by exact Hitem. reflexivity.
Qed.

(** X2. On Python floats: [smooth] raises [IndexError] on the empty list
    whatever the factor; on a non-empty list of finite numbers it returns
    the list unchanged with the default [factor = 0], and the list delayed
    by one position, the first item repeated and the last dropped, with
    [factor = 1]; an infinite item breaks both, the entry next to it coming
    out as nan. *)
Theorem smooth_extreme_factors (l : list float) (factor : float) :
  smooth round [] factor = inr IndexError
  /\ (l <> [] -> Forall (held round) l ->
      smooth round l (Finite 0) = inl l
      /\ smooth round l (Finite 1) = inl (hd NaN l :: removelast l))
  /\ (forall negative item rest,
         exists r,
           smooth round (Infinity negative :: item :: rest) (Finite 0) = inl r
           /\ nth 1 r (Finite 0) = NaN)
  /\ (forall first negative rest,
         exists r,
           smooth round (first :: Infinity negative :: rest) (Finite 1)
           = inl r
           /\ nth 1 r (Finite 0) = NaN).
Proof.
  split; [reflexivity|]. split; [|split].
  - intros Hne Hall. destruct l as [|first rest]; [congruence|].
    inversion Hall as [|? ? Hfirst Hrest]; subst.
    cbn [smooth hd]. split.
    + rewrite smooth_loop_factor_zero; [reflexivity|exact Hrest|].
      destruct first; cbn in Hfirst; try contradiction. now eexists.
    + rewrite smooth_loop_factor_one by assumption. reflexivity.
  - intros s item rest. eexists. split; [reflexivity|].
    cbn [nth smooth_loop mul]. destruct (Req_dec_T 0 0); [|congruence].
    reflexivity.
  - intros first s rest. eexists. split; [reflexivity|].
    cbn [nth smooth_loop]. rewrite one_minus_one. cbn [mul].
    destruct (Req_dec_T 0 0); [|congruence].
    destruct (mul round first (Finite 1)); reflexivity.
Qed.

End SmoothFloat.

Section SmoothFloatConcrete.

Import Floating.

Local Open Scope R_scope.

Lemma smooth_extreme_factors_witness :
  saturating 1.7e308 0 = Finite 0
  /\ saturating 1.7e308 1 = Finite 1
  /\ [Finite 1; Finite 2; Finite 3] <> []
  /\ Forall (held (saturating 1.7e308)) [Finite 1; Finite 2; Finite 3]
  /\ smooth (saturating 1.7e308) [Finite 1; Finite 2; Finite 3] (Finite 0)
     = inl [Finite 1; Finite 2; Finite 3]
  /\ smooth (saturating 1.7e308) [Finite 1; Finite 2; Finite 3] (Finite 1)
     = inl [Finite 1; Finite 1; Finite 2].
Proof.
  assert (H0 : saturating 1.7e308 0 = Finite 0)
    by (apply saturating_finite; lra).
  assert (H1 : saturating 1.7e308 1 = Finite 1)
    by (apply saturating_finite; lra).
  assert (Hne : [Finite 1; Finite 2; Finite 3] <> []) by discriminate.
  assert (Hall : Forall (held (saturating 1.7e308))
                   [Finite 1; Finite 2; Finite 3])
    by (repeat constructor; apply saturating_finite; lra).
  split; [exact H0|]. split; [exact H1|]. split; [exact Hne|].
  split; [exact Hall|].
  exact (proj1 (proj2 (@smooth_extreme_factors (saturating 1.7e308) H0 H1
                         [Finite 1; Finite 2; Finite 3] (Finite 0)))
           Hne Hall).
Defined.

End SmoothFloatConcrete.


(** ** Normalising images and showing them *)

Section Normalisation.

Import Helpers.

Local Open Scope R_scope.

Lemma unnormalize_pixel (x : R) : (x - 0.5) / 0.5 / 2 + 0.5 = x.
Proof. lra. Qed.

Lemma map_map_id (f g : R -> R) (rows : list (list R)) :
  (forall x, g (f x) = x) ->
  map (map g) (map (map f) rows) = rows.
Proof.
  intro H. induction rows as [|row rows IH]; [reflexivity|].
  cbn [map]. rewrite IH. f_equal.
  rewrite map_map. rewrite <- (map_id row) at 2.
  apply map_ext. exact H.
Qed.

Lemma unnormalize_Normalize_sample (img : Sample) :
  length img = 3%nat ->
  smap (fun x => x / 2 + 0.5) (transform_Normalize img) = img.
Proof.
  intro H. destruct img as [|c1 [|c2 [|c3 [|c4 img]]]]; try discriminate.
  unfold transform_Normalize, smap. cbn [Normalize map].
  rewrite !(@map_map_id (fun x => (x - 0.5) / 0.5) (fun x => x / 2 + 0.5))
    by apply unnormalize_pixel.
  reflexivity.
Qed.

(** X4. On a batch of three-channel images, the first statement of [imshow]
    undoes the normalisation of [load_dataset]: [images / 2 + 0.5] after
    [Normalize((0.5, 0.5, 0.5), (0.5, 0.5, 0.5))] gives back every pixel. *)
Theorem imshow_undoes_Normalize (images : Batch)
    (Hrgb : Forall (fun img => length img = 3%nat) images) :
  unnormalize (map transform_Normalize images) = images.
Proof.
  unfold unnormalize. induction Hrgb as [|img images Himg _ IH];
    [reflexivity|].
  cbn [map]. rewrite IH. f_equal.
  now apply unnormalize_Normalize_sample.
Qed.

Lemma imshow_undoes_Normalize_witness :
  Forall (fun img => length img = 3%nat) [[[[0]]; [[1]]; [[/ 2]]]]
  /\ unnormalize (map transform_Normalize [[[[0]]; [[1]]; [[/ 2]]]])
     = [[[[0]]; [[1]]; [[/ 2]]]].
Proof.
  assert (H : Forall (fun img : Sample => length img = 3%nat)
                [[[[0]]; [[1]]; [[/ 2]]]])
    by (repeat constructor).
  split; [exact H|]. exact (imshow_undoes_Normalize H).
Defined.

Lemma Forall_map_pixels (P Q : R -> Prop) (f : R -> R)
    (rows : list (list R)) :
  (forall x, P x -> Q (f x)) ->
  Forall (Forall P) rows ->
  Forall (Forall Q) (map (map f) rows).
Proof.
  intros H Hall. induction Hall as [|row rows Hrow _ IH]; [constructor|].
  cbn [map]. constructor; [|exact IH].
  induction Hrow as [|x row Hx _ IHrow]; [constructor|].
  cbn [map]. constructor; auto.
Qed.

(** X5. Normalisation takes a three-channel image with pixels in [[0, 1]]
    (what [ToTensor] produces) to an image with pixels in [[-1, 1]], the
    range of the generator's final [Tanh]. *)
Theorem Normalize_range (img : Sample)
    (Hrgb : length img = 3%nat)
    (Hpixels : all_pixels (fun x => 0 <= x <= 1) img) :
  all_pixels (fun x => -1 <= x <= 1) (transform_Normalize img)
  /\ length (transform_Normalize img) = 3%nat.
Proof.
  destruct img as [|c1 [|c2 [|c3 [|c4 img]]]]; try discriminate.
  unfold all_pixels in *. unfold transform_Normalize. cbn [Normalize].
  inversion Hpixels as [|? ? H1 Hr1]; subst.
  inversion Hr1 as [|? ? H2 Hr2]; subst.
  inversion Hr2 as [|? ? H3 _]; subst.
  assert (Hpix : forall x, 0 <= x <= 1 -> -1 <= (x - 0.5) / 0.5 <= 1).
  { intros x Hx. lra. }
  split; [|reflexivity].
  constructor; [|constructor; [|constructor; [|constructor]]];
    (eapply Forall_map_pixels; [exact Hpix|assumption]).
Qed.

Lemma Normalize_range_witness :
  length [[[0]]; [[1]]; [[/ 2]]] = 3%nat
  /\ all_pixels (fun x => 0 <= x <= 1) [[[0]]; [[1]]; [[/ 2]]]
  /\ all_pixels (fun x => -1 <= x <= 1)
       (transform_Normalize [[[0]]; [[1]]; [[/ 2]]]).
Proof.
  assert (H : all_pixels (fun x => 0 <= x <= 1) [[[0]]; [[1]]; [[/ 2]]])
    by (repeat constructor; lra).
  split; [reflexivity|]. split; [exact H|].
  exact (proj1 (@Normalize_range [[[0]]; [[1]]; [[/ 2]]] eq_refl H)).
Defined.

End Normalisation.

(** ** The shapes the two networks produce *)

Section Shapes.

Import Arch.

Local Open Scope Z_scope.

Ltac layer :=
  cbn [forward_shape channels height width batch];
  rewrite ?Z.eqb_refl; cbn [negb].

Ltac small_size :=
  match goal with
  | |- context [(?a <? ?b) || (?c <? ?d)] =>
      destruct (Z.ltb_spec a b); destruct (Z.ltb_spec c d); cbn [orb]
  end.

Lemma seq_cons (l : Layer) (rest : list Layer) (x : Shape) :
  forward_shape (Sequential (l :: rest)) x
  = match forward_shape l x with
    | inl y => forward_shape (Sequential rest) y
    | inr e => inr e
    end.
Proof. reflexivity. Qed.

Lemma conv_stride2 (cin cout n h w : Z) (wt : list R) (b : option (list R)) :
  forward_shape (Conv2d cin cout 4 1 2 wt b)
    {| batch := n; channels := cin; height := h; width := w |}
  = if (h <? 2) || (w <? 2) then inr SizeError
    else inl {| batch := n; channels := cout;
                height := h / 2; width := w / 2 |}.
Proof.
  layer.
  destruct (Z.ltb_spec (h + 2 * 1) 4), (Z.ltb_spec (w + 2 * 1) 4),
    (Z.ltb_spec h 2), (Z.ltb_spec w 2); cbn [orb]; try lia; try reflexivity.
  do 2 f_equal; Z.div_mod_to_equations; lia.
Qed.

Lemma conv_last (cin n h w : Z) (wt : list R) (b : option (list R)) :
  forward_shape (Conv2d cin 1 4 0 1 wt b)
    {| batch := n; channels := cin; height := h; width := w |}
  = if (h <? 4) || (w <? 4) then inr SizeError
    else inl {| batch := n; channels := 1;
                height := h - 3; width := w - 3 |}.
Proof.
  layer.
  destruct (Z.ltb_spec (h + 2 * 0) 4), (Z.ltb_spec (w + 2 * 0) 4),
    (Z.ltb_spec h 4), (Z.ltb_spec w 4); cbn [orb]; try lia; try reflexivity.
  do 2 f_equal; rewrite Z.div_1_r; lia.
Qed.

Lemma relu_then (rest : list Layer) (x : Shape) :
  forward_shape (Sequential (LeakyReLU :: rest)) x
  = forward_shape (Sequential rest) x.
Proof. reflexivity. Qed.

(** The discriminator on an input of height [h] and width [w]. *)
Lemma Discriminator_forward_closed (input_channels nf : Z)
    (wt : nat -> list R) (rows h w : Z) :
  Discriminator_forward (Discriminator_init input_channels nf wt)
    {| batch := rows; channels := input_channels; height := h; width := w |}
  = if (h <? 64) || (w <? 64) then inr SizeError
    else inl (rows * ((h / 16 - 3) * (w / 16 - 3))).
Proof.
  unfold Discriminator_forward, Discriminator_init. cbn [d_conv_block].
  rewrite seq_cons, conv_stride2.
  destruct (Z.ltb_spec h 64) as [Hh|Hh], (Z.ltb_spec w 64) as [Hw|Hw];
    cbn [orb];
    repeat
      (match goal with
       | |- context [(?a <? ?b) || (?c <? ?d)] =>
           destruct (Z.ltb_spec a b); destruct (Z.ltb_spec c d); cbn [orb];
           try reflexivity;
           try (exfalso; Z.div_mod_to_equations; lia)
       end;
       rewrite ?relu_then, ?seq_cons, ?conv_stride2, ?conv_last).
  cbn [forward_shape batch channels height width]. f_equal.
  rewrite !Z.div_div by lia. change (2 * (2 * (2 * 2))) with 16. ring.
Qed.

Lemma unit_factors (n a b : Z) :
  0 < n -> 1 <= a -> 1 <= b -> n * (a * b) = n -> a = 1 /\ b = 1.
Proof.
  intros Hn Ha Hb H.
  assert (Hab : a * b = 1) by nia.
  split; nia.
Qed.

Lemma discriminator_rows_per_sample_closed_64 (input_channels nf : Z)
    (wt : nat -> list R) (rows : Z) :
  Discriminator_forward (Discriminator_init input_channels nf wt)
    {| batch := rows; channels := input_channels; height := 64; width := 64 |}
  = inl rows.
Proof.
  rewrite Discriminator_forward_closed. cbn. f_equal. lia.
Qed.

(** X6. A discriminator built with positive channel counts returns one
    score per sample of a non-empty batch exactly on inputs whose height and
    width are between 64 and 79: below 64 a convolution rejects the input,
    and from 64 on [view(-1, 1)] yields [(h // 16 - 3) * (w // 16 - 3)] rows
    per sample, which is 25 for a 128 x 128 input. *)
Theorem discriminator_rows_per_sample (input_channels nf : Z)
    (wt : nat -> list R) (rows h w : Z)
    (Hin : 0 < input_channels)
    (Hnf : 0 < nf)
    (Hrows : 0 < rows) :
  let d := Discriminator_init input_channels nf wt in
  let x := {| batch := rows; channels := input_channels;
              height := h; width := w |} in
  (h < 64 \/ w < 64 -> Discriminator_forward d x = inr SizeError)
  /\ (64 <= h -> 64 <= w ->
      Discriminator_forward d x
      = inl (rows * ((h / 16 - 3) * (w / 16 - 3))))
  /\ (64 <= h < 80 -> 64 <= w < 80 -> Discriminator_forward d x = inl rows)
  /\ (h = 128 -> w = 128 -> Discriminator_forward d x = inl (rows * 25))
  /\ (Discriminator_forward d x = inl rows ->
      64 <= h < 80 /\ 64 <= w < 80).
Proof.
  intros d x. unfold d, x. rewrite Discriminator_forward_closed.
  destruct (Z.ltb_spec h 64) as [Hh|Hh], (Z.ltb_spec w 64) as [Hw|Hw];
    cbn [orb]; repeat split; intros; try lia; try reflexivity;
    try discriminate.
  - replace (h / 16) with 4 by (Z.div_mod_to_equations; lia).
    replace (w / 16) with 4 by (Z.div_mod_to_equations; lia).
    f_equal. lia.
  - subst. reflexivity.
  - destruct (@unit_factors rows (h / 16 - 3) (w / 16 - 3)) as [Ha _];
      try congruence; try (Z.div_mod_to_equations; lia).
  - destruct (@unit_factors rows (h / 16 - 3) (w / 16 - 3)) as [_ Hb];
      try congruence; try (Z.div_mod_to_equations; lia).
Qed.

Lemma discriminator_rows_per_sample_witness :
  0 < 3 /\ 0 < 64 /\ 0 < 8
  /\ 64 <= 64 < 80
  /\ Discriminator_forward (Discriminator_init 3 64 (fun _ => []))
       {| batch := 8; channels := 3; height := 64; width := 64 |}
     = inl 8.
Proof.
  assert (Hin : 0 < 3) by lia.
  assert (Hnf : 0 < 64) by lia.
  assert (Hrows : 0 < 8) by lia.
  assert (H : 64 <= 64 < 80) by lia.
  split; [exact Hin|]. split; [exact Hnf|]. split; [exact Hrows|].
  split; [exact H|].
  exact (proj1 (proj2 (proj2
           (@discriminator_rows_per_sample 3 64 (fun _ => []) 8 64 64
              Hin Hnf Hrows))) H H).
Defined.

Lemma Generator_forward_supported (image_size_1 input_size output_channels
    nf : Z) (wt : nat -> list R) (rows : Z) :
  image_size_1 = 64 \/ image_size_1 = 128 ->
  Generator_forward
    (Generator_init image_size_1 input_size output_channels nf wt)
    rows input_size
  = inl {| batch := rows; channels := output_channels;
           height := image_size_1; width := image_size_1 |}.
Proof.
  intros [-> | ->]; unfold Generator_forward, Generator_init;
    cbn [first_block conv_block Z.eqb Pos.eqb];
    repeat (cbn [forward_shape channels height width batch negb];
            rewrite ?Z.eqb_refl);
    reflexivity.
Qed.

(** X7. A generator built with positive channel counts turns a noise batch
    of [rows >= 1] vectors into [rows] images of [output_channels] channels
    whose height and width are the global image size, when that is 64 or
    128; for any other image size it has no [first_block] and [forward]
    raises [AttributeError]. *)
Theorem generator_output_shape (image_size_1 input_size output_channels nf : Z)
    (wt : nat -> list R) (rows : Z)
    (Hin : 0 < input_size)
    (Hout : 0 < output_channels)
    (Hnf : 0 < nf)
    (Hrows : 0 < rows) :
  let g := Generator_init image_size_1 input_size output_channels nf wt in
  (image_size_1 = 64 \/ image_size_1 = 128 ->
   Generator_forward g rows input_size
   = inl {| batch := rows; channels := output_channels;
            height := image_size_1; width := image_size_1 |})
  /\ (image_size_1 <> 64 -> image_size_1 <> 128 ->
      forall features, Generator_forward g rows features = inr AttributeError).
Proof.
  intro g. unfold g. split.
  - apply Generator_forward_supported.
  - intros H64 H128 features. unfold Generator_forward, Generator_init.
    cbn [first_block].
    destruct (Z.eqb_spec image_size_1 64); [contradiction|].
    destruct (Z.eqb_spec image_size_1 128); [contradiction|].
    reflexivity.
Qed.

Lemma generator_output_shape_witness :
  0 < 10 /\ 0 < 3 /\ 0 < 64 /\ 0 < 8
  /\ (64 = 64 \/ 64 = 128)
  /\ Generator_forward (Generator_init 64 10 3 64 (fun _ => [])) 8 10
     = inl {| batch := 8; channels := 3; height := 64; width := 64 |}.
Proof.
  assert (Hin : 0 < 10) by lia.
  assert (Hout : 0 < 3) by lia.
  assert (Hnf : 0 < 64) by lia.
  assert (Hrows : 0 < 8) by lia.
  assert (H : 64 = 64 \/ 64 = 128) by (left; reflexivity).
  split; [exact Hin|]. split; [exact Hout|]. split; [exact Hnf|].
  split; [exact Hrows|]. split; [exact H|].
  exact (proj1 (@generator_output_shape 64 10 3 64 (fun _ => []) 8
                  Hin Hout Hnf Hrows) H).
Defined.

(** X8. With networks built with positive channel counts and a non-empty
    noise batch, for image size 64 the discriminator gives the generated
    batch one score per noise vector; for image size 128, which the
    generator class also supports, it gives 25 scores per noise vector. *)
Theorem scores_of_generated_batch (input_size image_channels nf_g nf_d : Z)
    (wg wd : nat -> list R) (rows : Z)
    (Hin : 0 < input_size)
    (Hchannels : 0 < image_channels)
    (Hnf_g : 0 < nf_g)
    (Hnf_d : 0 < nf_d)
    (Hrows : 0 < rows) :
  critic_of_generated 64 input_size image_channels nf_g nf_d wg wd rows
  = inl rows
  /\ critic_of_generated 128 input_size image_channels nf_g nf_d wg wd rows
     = inl (rows * 25).
Proof.
  unfold critic_of_generated. split.
  - rewrite Generator_forward_supported by (left; reflexivity).
    apply discriminator_rows_per_sample_closed_64.
  - rewrite Generator_forward_supported by (right; reflexivity).
    rewrite Discriminator_forward_closed. reflexivity.
Qed.

Lemma scores_of_generated_batch_witness :
  0 < 10 /\ 0 < 3 /\ 0 < 64 /\ 0 < 32 /\ 0 < 8
  /\ critic_of_generated 64 10 3 64 32 (fun _ => []) (fun _ => []) 8 = inl 8
  /\ critic_of_generated 128 10 3 64 32 (fun _ => []) (fun _ => []) 8
     = inl (8 * 25).
Proof.
  assert (Hin : 0 < 10) by lia.
  assert (Hchannels : 0 < 3) by lia.
  assert (Hnf_g : 0 < 64) by lia.
  assert (Hnf_d : 0 < 32) by lia.
  assert (Hrows : 0 < 8) by lia.
  split; [exact Hin|]. split; [exact Hchannels|]. split; [exact Hnf_g|].
  split; [exact Hnf_d|]. split; [exact Hrows|].
  exact (@scores_of_generated_batch 10 3 64 32 (fun _ => []) (fun _ => []) 8
           Hin Hchannels Hnf_g Hnf_d Hrows).
Defined.

End Shapes.

(** ** Weight initialisation *)

Section Initialisation.

Import Arch.

(** X9. On networks built with positive channel counts, [weight_init]
    changes no weight of either network and takes no random draw: the
    modules it visits are the [Sequential] containers, which [normal_init]
    skips.  The convolutions inside them are all built with [bias=False], so
    [normal_init] applied to any of them would raise [AttributeError] at
    [m.bias.data]. *)
Theorem weight_init_changes_nothing
    (input_channels nf_d image_size_1 input_size output_channels nf_g : Z)
    (wd wg : nat -> list R) (mean std : R) (draw : nat -> R) (k : nat)
    (Hchannels : (0 < input_channels)%Z)
    (Hnf_d : (0 < nf_d)%Z)
    (Hin : (0 < input_size)%Z)
    (Hout : (0 < output_channels)%Z)
    (Hnf_g : (0 < nf_g)%Z) :
  let d := Discriminator_init input_channels nf_d wd in
  let g := Generator_init image_size_1 input_size output_channels nf_g wg in
  weight_init (Discriminator_modules d) mean std draw k
  = inl (Discriminator_modules d, k)
  /\ weight_init (Generator_modules g) mean std draw k
     = inl (Generator_modules g, k)
  /\ (forall cin cout ks p s wt,
         normal_init (Conv2d cin cout ks p s wt None) mean std draw k
         = inr AttributeError)
  /\ (forall cin cout ks s p wt,
         normal_init (ConvTranspose2d cin cout ks s p wt None) mean std draw k
         = inr AttributeError).
Proof.
  intros d g. split; [reflexivity|]. split; [|split; reflexivity].
  unfold g, Generator_modules, Generator_init. cbn [first_block conv_block].
  destruct (Z.eqb image_size_1 64); [reflexivity|].
  destruct (Z.eqb image_size_1 128); reflexivity.
Qed.

Lemma weight_init_changes_nothing_witness :
  (0 < 3)%Z /\ (0 < 64)%Z /\ (0 < 100)%Z
  /\ weight_init
       (Discriminator_modules (Discriminator_init 3 64 (fun _ => [1%R])))
       0%R 0.02%R (fun _ => 1%R) 0
     = inl (Discriminator_modules (Discriminator_init 3 64 (fun _ => [1%R])),
            0%nat)
  /\ weight_init
       (Generator_modules (Generator_init 64 100 3 64 (fun _ => [1%R])))
       0%R 0.02%R (fun _ => 1%R) 0
     = inl (Generator_modules (Generator_init 64 100 3 64 (fun _ => [1%R])),
            0%nat).
Proof.
  assert (H3 : (0 < 3)%Z) by lia.
  assert (H64 : (0 < 64)%Z) by lia.
  assert (H100 : (0 < 100)%Z) by lia.
  split; [exact H3|]. split; [exact H64|]. split; [exact H100|].
  destruct (@weight_init_changes_nothing 3 64 64 100 3 64
              (fun _ => [1%R]) (fun _ => [1%R]) 0%R 0.02%R (fun _ => 1%R)
              0%nat H3 H64 H100 H3 H64) as [Hd [Hg _]].
  split; [exact Hd | exact Hg].
Defined.

End Initialisation.

(** ** The names of the files a run writes *)

Section FileNames.

Import Files.

Local Open Scope string_scope.

Lemma append_cancel_l (a b c : string) : a ++ b = a ++ c -> b = c.
Proof.
  induction a as [|x a IH]; cbn; intro H; [exact H|].
  injection H as H. now apply IH.
Qed.

Lemma append_assoc (a b c : string) : (a ++ b) ++ c = a ++ (b ++ c).
Proof.
  induction a as [|x a IH]; cbn; [reflexivity|]. now rewrite IH.
Qed.

Lemma append_slash_cancel (a b : string) : a ++ "/" = b ++ "/" -> a = b.
Proof.
  revert b. induction a as [|x a IH]; intros [|y b] H; cbn in H.
  - reflexivity.
  - injection H as _ H. destruct b; discriminate.
  - injection H as _ H. destruct a; discriminate.
  - injection H as -> H. f_equal. now apply IH.
Qed.

Lemma int_of_str (e : Z) :
  NilZero.int_of_string (Startup.str e) = Some (Z.to_int e).
Proof.
  unfold Startup.str. apply NilZero.isi.
  - destruct e; cbn; try discriminate;
      intro H; injection H as H; now apply DecimalPos.Unsigned.to_uint_nonnil in H.
  - destruct e; cbn; try discriminate;
      intro H; injection H as H; now apply DecimalPos.Unsigned.to_uint_nonnil in H.
Qed.

Lemma str_inj (e e' : Z) : Startup.str e = Startup.str e' -> e = e'.
Proof.
  intro H. apply DecimalZ.to_int_inj.
  assert (E : Some (Z.to_int e) = Some (Z.to_int e'))
    by (rewrite <- !int_of_str; now f_equal).
  now injection E.
Qed.

Lemma str_not_reusmed (e e' : Z) :
  Startup.str e <> "reusmed_" ++ Startup.str e'.
Proof.
  intro H.
  assert (E : NilZero.int_of_string (Startup.str e)
              = NilZero.int_of_string ("reusmed_" ++ Startup.str e'))
    by now f_equal.
  rewrite int_of_str in E. cbn in E.
  destruct (NilEmpty.uint_of_string (Startup.str e')); discriminate.
Qed.

(** X10. Within one run, checkpoints of different epochs go to different
    directories; the checkpoint directories of a resumed run are never those
    of a fresh run in the same result directory; and no checkpoint saves
    under a path the end of the script saves under in the result directory
    itself. *)
Theorem checkpoints_do_not_collide (resume_training : bool)
    (result_dir : string) (e e' : Z) :
  (check_dir resume_training result_dir e
   = check_dir resume_training result_dir e' -> e = e')
  /\ check_dir false result_dir e <> check_dir true result_dir e'
  /\ (forall f g,
         In f (checkpoint resume_training result_dir e) ->
         In g (final_files result_dir) ->
         f <> g).
Proof.
  split; [|split].
  - unfold check_dir. destruct resume_training; cbn [negb]; intro H;
      apply append_cancel_l in H;
      [apply (append_cancel_l "checkpoint_resumed_ep") in H
      |apply (append_cancel_l "checkpoint_ep") in H];
      apply append_slash_cancel in H; now apply str_inj.
  - unfold check_dir. cbn [negb]. intro H.
    apply append_cancel_l in H. discriminate.
  - intros f g Hf Hg Heq. subst g.
    unfold checkpoint, check_dir, final_files, plot_results in *.
    destruct resume_training; cbn [negb app In] in *;
      repeat match goal with
             | H : _ \/ _ |- _ => destruct H as [H|H]
             | H : False |- _ => contradiction
             end;
      subst f;
      match goal with
      | H : _ = _ |- _ =>
          rewrite !append_assoc in H; apply append_cancel_l in H;
          cbn in H; discriminate
      end.
Qed.

(** X11. Within one run, frames of different epochs get different file
    names, and the frames of a resumed run never take the name of a frame of
    a fresh run in the same video directory. *)
Theorem frames_do_not_collide (resume_training : bool) (video_dir : string)
    (e e' : Z) :
  (generate_frame resume_training video_dir e
   = generate_frame resume_training video_dir e' -> e = e')
  /\ generate_frame false video_dir e <> generate_frame true video_dir e'.
Proof.
  split.
  - unfold generate_frame. destruct resume_training; intro H;
      apply append_cancel_l in H;
      [apply (append_cancel_l "frame_reusmed_") in H
      |apply (append_cancel_l "frame_") in H];
      now apply str_inj.
  - unfold generate_frame. intro H.
    apply append_cancel_l in H.
    change ("frame_reusmed_" ++ Startup.str e')
      with ("frame_" ++ ("reusmed_" ++ Startup.str e')) in H.
    apply (append_cancel_l "frame_") in H.
    now apply str_not_reusmed in H.
Qed.

End FileNames.

(** ** Invariants of the training loop *)

Section LoopInvariants.

Context {T : Backend}.
Variable cfg : Config.t.
Variable train_loader : Loader.DataLoader.

Local Open Scope Z_scope.

(** A property every completed pass of a loop body keeps holds when the loop
    completes, and the loop condition is then false. *)
Lemma while_invariant {St : Type} (P : St -> Prop) (cond : St -> bool)
    (body : St -> result St) :
  (forall s s', P s -> cond s = true -> body s = Ok s' -> P s') ->
  forall (fuel : nat) (s s' : St),
    P s -> while fuel cond body s = Ok s' -> P s' /\ cond s' = false.
Proof.
  intros Hbody. induction fuel as [|fuel IH]; intros s s' HP Hw;
    [discriminate|].
  cbn [while] in Hw. destruct (cond s) eqn:C.
  - destruct (body s) as [s1| |] eqn:Hb; cbn [bind] in Hw; try discriminate.
    apply (IH s1 s'); eauto.
  - injection Hw as <-. now split.
Qed.

(** What a completed discriminator update has done to the streams. *)
Lemma disc_step_effect (st st' : State) :
  disc_step cfg st = Ok st' ->
  exists images x wd gp,
    train_iterator st = images :: train_iterator st'
    /\ disc_losses st' = disc_losses st ++ [x]
    /\ epoch_dlosses st' = epoch_dlosses st ++ [x]
    /\ w_distances st' = w_distances st ++ [wd]
    /\ gradient_penalty_list st' = gradient_penalty_list st ++ [gp]
    /\ steps st' = steps st + 1
    /\ length (writer st') = (length (writer st) + 3)%nat
    /\ gen_losses st' = gen_losses st
    /\ epoch_glosses st' = epoch_glosses st
    /\ gen_iterations st' = gen_iterations st
    /\ i st' = i st + 1
    /\ j st' = j st + 1
    /\ disc_steps st' = disc_steps st.
Proof.
  unfold disc_step.
  destruct (train_iterator st) as [|images rest]; [discriminate|].
  destruct (randn _ _ _) as [noises| |]; cbn [bind]; try discriminate.
  destruct (disc_forward _ _ _ _ _ _ _) as [fw| |]; cbn [bind];
    try discriminate.
  destruct (backward _ _ _) as [dg| |]; cbn [bind]; try discriminate.
  destruct (broadcast2 _ _ _) as [diff| |]; cbn [bind]; try discriminate.
  intro H. injection H as <-. exists images.
  do 3 eexists.
  cbn [train_iterator disc_losses epoch_dlosses w_distances
       gradient_penalty_list steps writer gen_losses epoch_glosses
       gen_iterations i j disc_steps].
  repeat split. rewrite length_app. reflexivity.
Qed.

(** What a completed generator phase has done to the streams. *)
Lemma gen_phase_effect (st st' : State) :
  gen_phase cfg st = Ok st' ->
  exists x,
    gen_losses st' = gen_losses st ++ [x]
    /\ epoch_glosses st' = epoch_glosses st ++ [x]
    /\ gen_iterations st' = gen_iterations st + 1
    /\ length (writer st') = (length (writer st) + 1)%nat
    /\ disc_losses st' = disc_losses st
    /\ epoch_dlosses st' = epoch_dlosses st
    /\ w_distances st' = w_distances st
    /\ gradient_penalty_list st' = gradient_penalty_list st
    /\ steps st' = steps st
    /\ train_iterator st' = train_iterator st
    /\ i st' = i st.
Proof.
  unfold gen_phase, gen_step.
  destruct (randn _ _ _) as [noises| |]; cbn [bind]; try discriminate.
  destruct (backward _ _ _) as [dg| |]; cbn [bind]; try discriminate.
  intro H. injection H as <-. eexists.
  cbn [train_iterator disc_losses epoch_dlosses w_distances
       gradient_penalty_list steps writer gen_losses epoch_glosses
       gen_iterations i set_discriminator_requires_grad].
  repeat split. rewrite length_app. reflexivity.
Qed.

Lemma disc_step_aligned (st st' : State) :
  aligned st -> disc_step cfg st = Ok st' -> aligned st'.
Proof.
  intros [A1 [A2 [A3 [A4 A5]]]] H.
  destruct (disc_step_effect _ H)
    as [im [x [wd [gp [_ [E1 [_ [E2 [E3 [E4 [E5 [E6 [_ [E7 _]]]]]]]]]]]]]].
  unfold aligned.
  rewrite E1, E2, E3, E4, E5, E6, E7, !length_app. cbn [length].
  repeat split; lia.
Qed.

Lemma gen_phase_aligned (st st' : State) :
  aligned st -> gen_phase cfg st = Ok st' -> aligned st'.
Proof.
  intros [A1 [A2 [A3 [A4 A5]]]] H.
  destruct (gen_phase_effect _ H)
    as [x [E1 [_ [E2 [E3 [E4 [_ [E5 [E6 [E7 _]]]]]]]]]].
  unfold aligned.
  rewrite E1, E2, E3, E4, E5, E6, E7, !length_app. cbn [length].
  repeat split; lia.
Qed.

Lemma outer_body_split (F : nat) (s s2 : State) :
  outer_body cfg train_loader F s = Ok s2 ->
  exists s1,
    while F (inner_cond train_loader) (disc_step cfg) (begin_disc_phase cfg s)
    = Ok s1
    /\ gen_phase cfg s1 = Ok s2.
Proof.
  unfold outer_body, disc_phase.
  destruct (while F _ _ _) as [s1| |] eqn:Hw; cbn [bind]; try discriminate.
  intro H. exists s1. split; [reflexivity|exact H].
Qed.

Lemma epoch_loop_aligned (F : nat) (s s' : State) :
  aligned s -> epoch_loop cfg train_loader F s = Ok s' -> aligned s'.
Proof.
  intros HA Hw. unfold epoch_loop in Hw.
  apply (while_invariant aligned) in Hw; [apply Hw| |exact HA].
  intros st st2 HP _ Hb.
  destruct (outer_body_split _ _ Hb) as [s1 [Hin Hgen]].
  apply (while_invariant aligned) in Hin.
  - eapply gen_phase_aligned; [apply Hin|exact Hgen].
  - intros a b Ha _ Hstep. eapply disc_step_aligned; eassumption.
  - exact HP.
Qed.

Lemma run_epoch_split (F : nat) (e : Z) (s s' : State) :
  run_epoch cfg train_loader F e s = Ok s' ->
  exists s1 s2,
    begin_epoch cfg train_loader e s = Ok s1
    /\ epoch_loop cfg train_loader F s1 = Ok s2
    /\ end_epoch cfg e s2 = Ok s'.
Proof.
  unfold run_epoch.
  destruct (begin_epoch _ _ _ _) as [s1| |] eqn:Hb; cbn [bind];
    try discriminate.
  destruct (epoch_loop _ _ _ _) as [s2| |] eqn:Hl; cbn [bind];
    try discriminate.
  intro H. exists s1, s2. repeat split; assumption.
Qed.

Lemma begin_epoch_effect (e : Z) (s s1 : State) :
  begin_epoch cfg train_loader e s = Ok s1 ->
  disc_losses s1 = disc_losses s
  /\ gen_losses s1 = gen_losses s
  /\ w_distances s1 = w_distances s
  /\ gradient_penalty_list s1 = gradient_penalty_list s
  /\ steps s1 = steps s
  /\ gen_iterations s1 = gen_iterations s
  /\ writer s1 = writer s
  /\ epoch_dlosses s1 = []
  /\ epoch_glosses s1 = []
  /\ train_iterator s1 = yielded train_loader s
  /\ i s1 = 0.
Proof.
  unfold begin_epoch.
  destruct (py_mod _ _) as [r| |]; cbn [bind]; try discriminate.
  intro H. injection H as <-. repeat split.
Qed.

Lemma end_epoch_effect (e : Z) (s s' : State) :
  end_epoch cfg e s = Ok s' ->
  disc_losses s' = disc_losses s
  /\ gen_losses s' = gen_losses s
  /\ w_distances s' = w_distances s
  /\ gradient_penalty_list s' = gradient_penalty_list s
  /\ steps s' = steps s
  /\ gen_iterations s' = gen_iterations s
  /\ writer s' = writer s
  /\ epoch_dlosses s' = epoch_dlosses s
  /\ epoch_glosses s' = epoch_glosses s.
Proof.
  unfold end_epoch.
  destruct (py_mod _ _) as [r| |]; cbn [bind]; try discriminate.
  destruct (py_mod _ _) as [c| |]; cbn [bind]; try discriminate.
  destruct (if c =? 0 then _ else _) as [d| |]; cbn [bind]; try discriminate.
  intro H. injection H as <-. repeat split.
Qed.

Lemma run_epoch_aligned (F : nat) (e : Z) (s s' : State) :
  aligned s -> run_epoch cfg train_loader F e s = Ok s' -> aligned s'.
Proof.
  intros HA H. destruct (run_epoch_split _ _ _ H) as [s1 [s2 [Hb [Hl He]]]].
  destruct (begin_epoch_effect _ _ Hb)
    as [B1 [B2 [B3 [B4 [B5 [B6 [B7 _]]]]]]].
  assert (HA1 : aligned s1).
  { unfold aligned in *. rewrite B1, B2, B3, B4, B5, B6, B7. exact HA. }
  assert (HA2 : aligned s2) by (eapply epoch_loop_aligned; eassumption).
  destruct (end_epoch_effect _ _ He) as [E1 [E2 [E3 [E4 [E5 [E6 [E7 _]]]]]]].
  unfold aligned in *. rewrite E1, E2, E3, E4, E5, E6, E7. exact HA2.
Qed.

Lemma for_each_aligned (F : nat) (es : list Z) :
  forall s s',
    aligned s ->
    for_each es (run_epoch cfg train_loader F) s = Ok s' ->
    aligned s'.
Proof.
  induction es as [|e es IH]; intros s s' HA H; cbn [for_each] in H.
  - now injection H as <-.
  - destruct (run_epoch cfg train_loader F e s) as [s1| |] eqn:He;
      cbn [bind] in H; try discriminate.
    eapply IH; [|exact H]. eapply run_epoch_aligned; eassumption.
Qed.

Lemma initial_state_aligned (dp : DParams) (gp : GParams) (dopt : DOpt)
    (gopt : GOpt) (s0 : State) :
  initial_state cfg train_loader dp gp dopt gopt = Ok s0 -> aligned s0.
Proof.
  unfold initial_state.
  destruct (Loader.train_data train_loader); [discriminate|].
  destruct (randn _ _ _) as [z| |]; cbn [bind]; try discriminate.
  intro H. injection H as <-. repeat split.
Qed.

(** X13. The metric streams stay aligned over a whole training run: when the
    loop is entered, and hence whenever training completes, [w_distances]
    and [gradient_penalty_list] have as many entries as [disc_losses],
    [steps] is that number, [gen_iterations] is the number of entries of
    [gen_losses], and the scalar log holds three records per discriminator
    update and one per generator update. *)
Theorem streams_stay_aligned (dp : DParams) (gp : GParams) (dopt : DOpt)
    (gopt : GOpt) (F : nat) (s0 s' : State)
    (Hinit : initial_state cfg train_loader dp gp dopt gopt = Ok s0)
    (Htrain : train cfg train_loader F s0 = Ok s') :
  aligned s0 /\ aligned s'.
Proof.
  pose proof (initial_state_aligned _ _ _ _ Hinit) as H0.
  split; [exact H0|].
  unfold train in Htrain. eapply for_each_aligned; eassumption.
Qed.

End LoopInvariants.

Section Training.

Context {T : Backend}.
Variable cfg : Config.t.
Variable train_loader : Loader.DataLoader.

Hypothesis Hnf : (0 <= Config.n_noise_features cfg)%Z.
Hypothesis Hpos : (0 < Loader.batch_size train_loader)%Z.
Hypothesis Hsame : Loader.batch_size train_loader = Config.batch_size cfg.
Hypothesis Hprint : Config.print_every cfg <> 0%Z.
Hypothesis Hcheck : Config.checkpoints cfg <> 0%Z.

Lemma length_yielded (s : State) :
  length (yielded train_loader s) = Z.to_nat (Loader.len train_loader).
Proof.
  unfold yielded.
  destruct (@batches_spec train_loader
              (randperm (torch_random s)
                 (length (Loader.train_data train_loader))) Hpos
              (randperm_length _ _)) as [Hlen _].
  lia.
Qed.

Lemma for_each_epoch_ok (F : nat) :
  (500 * Z.to_nat (Loader.len train_loader) + 500 <= F)%nat ->
  forall (es : list Z) (s : State),
    requires_grad (generator s) = true ->
    exists s',
      for_each es (run_epoch cfg train_loader F) s = Ok s'
      /\ length (disc_losses s')
         = (length (disc_losses s)
            + length es * Z.to_nat (Loader.len train_loader))%nat
      /\ requires_grad (generator s') = true.
Proof.
  intros HF. induction es as [|e es IH]; intros s Hg.
  - exists s. cbn [for_each length]. repeat split; [lia|exact Hg].
  - destruct (@run_epoch_ok _ cfg train_loader Hnf ltac:(lia) Hpos Hsame
                Hprint Hcheck e s Hg F) as [s1 [Hrun [_ [Hlen [Hg1 _]]]]].
    { rewrite length_yielded. exact HF. }
    destruct (IH s1 Hg1) as [s' [Hrest [Hlen' Hg']]].
    exists s'. cbn [for_each]. rewrite Hrun. cbn [bind].
    split; [exact Hrest|]. split; [|exact Hg'].
    rewrite Hlen', Hlen, length_yielded. cbn [length]. lia.
Qed.

End Training.

Section Completion.

Context {T : Backend}.
Variable cfg : Config.t.
Variable train_loader : Loader.DataLoader.

(** X14. With a configuration in its documented ranges ([n_noise_features]
    and [batch_size] at least 1, the loader built with that [batch_size],
    [print_every] and [checkpoints] not 0) and a trainable generator, the
    statements of the training loop run all epochs to completion, whatever
    [disc_steps] is configured, and append to [disc_losses] one entry per
    batch and epoch: [epochs * len(train_loader)] entries, and none when
    [epochs <= 0].  The frames and checkpoints the loop triggers are
    recorded as events; what they plot and write is not part of the
    statement. *)
Theorem training_completes (s : State) (F : nat)
    (Hnoise : (1 <= Config.n_noise_features cfg)%Z)
    (Hpos : (1 <= Loader.batch_size train_loader)%Z)
    (Hsame : Loader.batch_size train_loader = Config.batch_size cfg)
    (Hprint : Config.print_every cfg <> 0%Z)
    (Hcheck : Config.checkpoints cfg <> 0%Z)
    (Hgen : requires_grad (generator s) = true)
    (HF : (500 * Z.to_nat (Loader.len train_loader) + 500 <= F)%nat) :
  exists s',
    train cfg train_loader F s = Ok s'
    /\ length (disc_losses s')
       = (length (disc_losses s)
          + Z.to_nat (Config.epochs cfg)
            * Z.to_nat (Loader.len train_loader))%nat.
Proof.
  assert (Hnf : (0 <= Config.n_noise_features cfg)%Z) by lia.
  assert (Hpos' : (0 < Loader.batch_size train_loader)%Z) by lia.
  destruct (@for_each_epoch_ok _ cfg train_loader Hnf Hpos' Hsame Hprint
              Hcheck F HF (range (Config.epochs cfg)) s Hgen)
    as [s' [Hrun [Hlen _]]].
  exists s'. split; [exact Hrun|].
  rewrite Hlen. unfold range. now rewrite length_map, length_seq.
Qed.

End Completion.

(** ** What one epoch appends *)

Section EpochCounts.

Context {T : Backend}.
Variable cfg : Config.t.
Variable train_loader : Loader.DataLoader.

Local Open Scope Z_scope.

Lemma scheduled_at_least_one (g : Z) :
  1 <= Config.disc_steps cfg -> 1 <= scheduled_disc_steps cfg g.
Proof.
  intro H. unfold scheduled_disc_steps.
  destruct ((g <? 25) || (g mod 500 =? 0)); lia.
Qed.

Lemma appended_d_step (a st st' : State) :
  appended_d a st -> disc_step cfg st = Ok st' -> appended_d a st'.
Proof.
  intros [G1 [G2 [l [D1 D2]]]] H.
  destruct (@disc_step_effect _ cfg _ _ H)
    as [im [x [wd [gp [_ [E1 [E2 [_ [_ [_ [_ [E3 [E4 _]]]]]]]]]]]]].
  split; [congruence|]. split; [congruence|].
  exists (l ++ [x]). rewrite E1, E2, D1, D2, !app_assoc. now split.
Qed.

Lemma inner_loop_appended (F : nat) (a s1 : State) :
  while F (inner_cond train_loader) (disc_step cfg) a = Ok s1 ->
  epoch_glosses s1 = epoch_glosses a
  /\ gen_losses s1 = gen_losses a
  /\ exists l,
       epoch_dlosses s1 = epoch_dlosses a ++ l
       /\ disc_losses s1 = disc_losses a ++ l
       /\ (inner_cond train_loader a = true -> (1 <= length l)%nat).
Proof.
  intro Hw. destruct F as [|F]; [discriminate|].
  cbn [while] in Hw. destruct (inner_cond train_loader a) eqn:C.
  - destruct (disc_step cfg a) as [sa| |] eqn:Hs; cbn [bind] in Hw;
      try discriminate.
    destruct (@disc_step_effect _ cfg _ _ Hs)
      as [im [x [wd [gp [_ [E1 [E2 [_ [_ [_ [_ [E3 [E4 _]]]]]]]]]]]]].
    apply (while_invariant (appended_d sa)) in Hw.
    + destruct Hw as [[G1 [G2 [l [D1 D2]]]] _].
      split; [congruence|]. split; [congruence|].
      exists (x :: l). rewrite D1, D2, E1, E2, <- !app_assoc.
      repeat split. intros _. cbn [length]. lia.
    + intros st st' HP _ Hb. eapply appended_d_step; eassumption.
    + split; [reflexivity|]. split; [reflexivity|].
      exists []. now rewrite !app_nil_r.
  - injection Hw as <-. split; [reflexivity|]. split; [reflexivity|].
    exists []. rewrite !app_nil_r. repeat split. discriminate.
Qed.

Lemma outer_body_appended (F : nat) (s s2 : State) :
  outer_body cfg train_loader F s = Ok s2 ->
  exists l x,
    epoch_dlosses s2 = epoch_dlosses s ++ l
    /\ disc_losses s2 = disc_losses s ++ l
    /\ epoch_glosses s2 = epoch_glosses s ++ [x]
    /\ gen_losses s2 = gen_losses s ++ [x]
    /\ (outer_cond train_loader s = true ->
        1 <= Config.disc_steps cfg ->
        (1 <= length l)%nat).
Proof.
  intro Hb. destruct (@outer_body_split _ cfg train_loader _ _ _ Hb) as [s1 [Hin Hgen]].
  destruct (inner_loop_appended _ _ Hin) as [G1 [G2 [l [D1 [D2 Hl]]]]].
  destruct (@gen_phase_effect _ cfg _ _ Hgen)
    as [x [E1 [E2 [_ [_ [E3 [E4 _]]]]]]].
  exists l, x.
  change (epoch_dlosses (begin_disc_phase cfg s)) with (epoch_dlosses s)
    in D1.
  change (disc_losses (begin_disc_phase cfg s)) with (disc_losses s) in D2.
  change (epoch_glosses (begin_disc_phase cfg s)) with (epoch_glosses s)
    in G1.
  change (gen_losses (begin_disc_phase cfg s)) with (gen_losses s) in G2.
  repeat split; try congruence.
  intros Hc Hd. apply Hl. unfold inner_cond.
  change (i (begin_disc_phase cfg s)) with (i s).
  change (j (begin_disc_phase cfg s)) with 0.
  change (disc_steps (begin_disc_phase cfg s))
    with (scheduled_disc_steps cfg (gen_iterations s)).
  unfold outer_cond in Hc. rewrite Hc, andb_true_r.
  apply Z.ltb_lt. pose proof (scheduled_at_least_one (gen_iterations s) Hd).
  lia.
Qed.

Lemma epoch_counts_body (F : nat) (s0 st st' : State) :
  epoch_counts cfg s0 st ->
  outer_cond train_loader st = true ->
  outer_body cfg train_loader F st = Ok st' ->
  epoch_counts cfg s0 st'.
Proof.
  intros [[S1 S2] Hle] Hc Hb.
  destruct (outer_body_appended _ _ Hb) as [l [x [D1 [D2 [G1 [G2 Hl]]]]]].
  split; [split|].
  - now rewrite D2, D1, S1, app_assoc.
  - now rewrite G2, G1, S2, app_assoc.
  - intro Hd. rewrite D1, G1, !length_app. cbn [length].
    specialize (Hle Hd). specialize (Hl Hc Hd). lia.
Qed.

Lemma epoch_loop_counts (F : nat) (s0 s1 s2 : State) :
  epoch_counts cfg s0 s1 ->
  epoch_loop cfg train_loader F s1 = Ok s2 ->
  epoch_counts cfg s0 s2
  /\ (outer_cond train_loader s1 = true ->
      (length (epoch_glosses s1) < length (epoch_glosses s2))%nat).
Proof.
  intros HP Hw. unfold epoch_loop in Hw. split.
  - apply (while_invariant (epoch_counts cfg s0)) in Hw; [apply Hw| |exact HP].
    intros st st' Hst Hc Hb. eapply epoch_counts_body; eassumption.
  - intro Hc. destruct F as [|F]; [discriminate|].
    cbn [while] in Hw. rewrite Hc in Hw.
    destruct (outer_body cfg train_loader (S F) s1) as [sa| |] eqn:Hb;
      cbn [bind] in Hw; try discriminate.
    destruct (outer_body_appended _ _ Hb) as [l [x [_ [_ [G1 _]]]]].
    apply (while_invariant
             (fun st => (length (epoch_glosses sa)
                         <= length (epoch_glosses st))%nat)) in Hw.
    + destruct Hw as [Hw _]. rewrite G1, length_app in Hw.
      cbn [length] in Hw. lia.
    + intros st st' Hst _ Hbody.
      destruct (outer_body_appended _ _ Hbody) as [l' [x' [_ [_ [G' _]]]]].
      rewrite G', length_app. lia.
    + lia.
Qed.

End EpochCounts.

Section EpochTotals.

Context {T : Backend}.
Variable cfg : Config.t.
Variable train_loader : Loader.DataLoader.

Hypothesis Hnf : (0 <= Config.n_noise_features cfg)%Z.
Hypothesis Hpos : (0 < Loader.batch_size train_loader)%Z.
Hypothesis Hsame : Loader.batch_size train_loader = Config.batch_size cfg.
Hypothesis Hprint : Config.print_every cfg <> 0%Z.
Hypothesis Hcheck : Config.checkpoints cfg <> 0%Z.

Local Open Scope Z_scope.

Lemma run_epoch_counts (e : Z) (s : State) (F : nat) :
  requires_grad (generator s) = true ->
  (500 * Z.to_nat (Loader.len train_loader) + 500 <= F)%nat ->
  exists s',
    run_epoch cfg train_loader F e s = Ok s'
    /\ epoch_counts cfg s s'
    /\ Z.of_nat (length (epoch_dlosses s')) = Loader.len train_loader
    /\ (1 <= Loader.len train_loader ->
        (1 <= length (epoch_glosses s'))%nat).
Proof.
  intros Hg HF.
  destruct (@run_epoch_ok _ cfg train_loader Hnf ltac:(lia) Hpos Hsame
              Hprint Hcheck e s Hg F) as [s' [Hrun [_ [Hlen _]]]].
  { rewrite (@length_yielded _ train_loader Hpos). exact HF. }
  exists s'. split; [exact Hrun|].
  destruct (@run_epoch_split _ cfg train_loader F e s s' Hrun)
    as [s1 [s2 [Hb [Hl He]]]].
  destruct (@begin_epoch_effect _ cfg train_loader e s s1 Hb)
    as [B1 [B2 [_ [_ [_ [_ [_ [B3 [B4 [B5 B6]]]]]]]]]].
  assert (HP1 : epoch_counts cfg s s1).
  { split; [split|].
    - now rewrite B1, B3, app_nil_r.
    - now rewrite B2, B4, app_nil_r.
    - intros _. rewrite B3, B4. cbn. lia. }
  destruct (@epoch_loop_counts _ cfg train_loader F s s1 s2 HP1 Hl)
    as [[[S1 S2] Hle] Hone].
  destruct (@end_epoch_effect _ cfg e s2 s' He)
    as [E1 [E2 [_ [_ [_ [_ [_ [E3 E4]]]]]]]].
  assert (Hd : length (epoch_dlosses s')
               = Z.to_nat (Loader.len train_loader)).
  { rewrite (@length_yielded _ train_loader Hpos) in Hlen.
    rewrite E1, S1, length_app in Hlen. rewrite E3. lia. }
  split; [|split].
  - split; [split|]; rewrite ?E1, ?E2, ?E3, ?E4; assumption.
  - destruct (@batches_spec train_loader
                (randperm (torch_random s)
                   (length (Loader.train_data train_loader))) Hpos
                (randperm_length _ _)) as [Hy _].
    lia.
  - intro HL. rewrite E4.
    assert (Hc : outer_cond train_loader s1 = true).
    { unfold outer_cond. rewrite B6. apply Z.ltb_lt. lia. }
    specialize (Hone Hc). lia.
Qed.

(** X15. When an epoch ends, [epoch_dlosses] and [epoch_glosses] hold
    exactly what the epoch appended to [disc_losses] and [gen_losses], and
    [epoch_dlosses] has [len(train_loader)] entries: the means printed for
    the epoch are over that epoch's updates only. *)
Theorem epoch_lists_are_the_epoch (e : Z) (s : State) (F : nat)
    (Hgen : requires_grad (generator s) = true)
    (HF : (500 * Z.to_nat (Loader.len train_loader) + 500 <= F)%nat) :
  exists s',
    run_epoch cfg train_loader F e s = Ok s'
    /\ disc_losses s' = disc_losses s ++ epoch_dlosses s'
    /\ gen_losses s' = gen_losses s ++ epoch_glosses s'
    /\ Z.of_nat (length (epoch_dlosses s')) = Loader.len train_loader.
Proof.
  destruct (run_epoch_counts e s Hgen HF)
    as [s' [Hrun [[[S1 S2] _] [Hd _]]]].
  exists s'. repeat split; assumption.
Qed.

(** X16. An epoch over a non-empty loader makes at least one generator
    update, and with a configured [disc_steps >= 1] at most one per batch:
    between 1 and [len(train_loader)] entries are appended to
    [gen_losses]. *)
Theorem generator_updates_per_epoch (e : Z) (s : State) (F : nat)
    (Hgen : requires_grad (generator s) = true)
    (HF : (500 * Z.to_nat (Loader.len train_loader) + 500 <= F)%nat)
    (Hbatches : 1 <= Loader.len train_loader)
    (Hsteps : 1 <= Config.disc_steps cfg) :
  exists s' added,
    run_epoch cfg train_loader F e s = Ok s'
    /\ gen_losses s' = gen_losses s ++ added
    /\ gen_iterations s' = gen_iterations s + Z.of_nat (length added)
    /\ 1 <= Z.of_nat (length added) <= Loader.len train_loader.
Proof.
  destruct (run_epoch_counts e s Hgen HF)
    as [s' [Hrun [[[S1 S2] Hle] [Hd Hone]]]].
  exists s', (epoch_glosses s'). split; [exact Hrun|]. split; [exact S2|].
  specialize (Hle Hsteps). specialize (Hone Hbatches).
  split; [|lia].
  destruct (@run_epoch_split _ cfg train_loader F e s s' Hrun)
    as [s1 [s2 [Hb [Hl He]]]].
  destruct (@begin_epoch_effect _ cfg train_loader e s s1 Hb)
    as [_ [B2 [_ [_ [_ [B6 [_ [_ [B4 _]]]]]]]]].
  destruct (@end_epoch_effect _ cfg e s2 s' He)
    as [_ [E2 [_ [_ [_ [E6 [_ [_ E4]]]]]]]].
  rewrite E6, E4.
  assert (Hinv : gen_iterations s2 - Z.of_nat (length (epoch_glosses s2))
                 = gen_iterations s1 - Z.of_nat (length (epoch_glosses s1))).
  { unfold epoch_loop in Hl.
    apply (while_invariant
             (fun st => gen_iterations st
                        - Z.of_nat (length (epoch_glosses st))
                        = gen_iterations s1
                          - Z.of_nat (length (epoch_glosses s1)))) in Hl;
      [apply Hl| |reflexivity].
    intros st st' Hst _ Hbody.
    destruct (@outer_body_split _ cfg train_loader _ _ _ Hbody)
      as [sm [Hin Hg]].
    destruct (@gen_phase_effect _ cfg _ _ Hg) as [x [_ [G2 [G3 _]]]].
    apply (while_invariant
             (fun a => gen_iterations a = gen_iterations st
                       /\ epoch_glosses a = epoch_glosses st)) in Hin.
    - destruct Hin as [[I1 I2] _].
      rewrite G3, G2, I1, I2, length_app. cbn [length]. lia.
    - intros a b [Ha1 Ha2] _ Hstep.
      destruct (@disc_step_effect _ cfg _ _ Hstep)
        as [im [y [wd [gp [_ [_ [_ [_ [_ [_ [_ [_ [D9 [D10 _]]]]]]]]]]]]]].
      split; congruence.
    - split; reflexivity. }
  rewrite B4, B6 in Hinv. cbn [length] in Hinv. lia.
Qed.

End EpochTotals.

(** ** Intervals of zero *)

Section ZeroIntervals.

Context {T : Backend}.
Variable cfg : Config.t.
Variable train_loader : Loader.DataLoader.

Local Open Scope Z_scope.

Lemma range_first (n : Z) :
  1 <= n -> exists rest, range n = 0 :: rest.
Proof.
  intro H. unfold range.
  destruct (Z.to_nat n) as [|k] eqn:E; [lia|].
  cbn [seq map]. now eexists.
Qed.

(** X17. With [print_every = 0] and at least one epoch to run, training
    raises [ZeroDivisionError] at the first statement of the first epoch,
    before any update, whatever the state and the data. *)
Theorem zero_print_every_raises_at_once (s : State) (F : nat)
    (Hzero : Config.print_every cfg = 0)
    (Hepochs : 1 <= Config.epochs cfg) :
  train cfg train_loader F s = Raise ZeroDivisionError
  /\ begin_epoch cfg train_loader 0 s = Raise ZeroDivisionError.
Proof.
  assert (Hb : begin_epoch cfg train_loader 0 s = Raise ZeroDivisionError).
  { unfold begin_epoch, py_mod. rewrite Hzero. reflexivity. }
  split; [|exact Hb].
  unfold train. destruct (range_first Hepochs) as [rest ->].
  cbn [for_each]. unfold run_epoch. rewrite Hb. reflexivity.
Qed.

(** X18. With [checkpoints = 0] and an otherwise valid configuration,
    training raises [ZeroDivisionError] only at the end of the first epoch:
    by then the epoch loop has consumed every batch and appended
    [len(train_loader)] entries to [disc_losses], all of which is lost. *)
Theorem zero_checkpoints_raises_after_first_epoch (s : State) (F : nat)
    (Hnf : 0 <= Config.n_noise_features cfg)
    (Hpos : 0 < Loader.batch_size train_loader)
    (Hsame : Loader.batch_size train_loader = Config.batch_size cfg)
    (Hprint : Config.print_every cfg <> 0)
    (Hzero : Config.checkpoints cfg = 0)
    (Hepochs : 1 <= Config.epochs cfg)
    (Hgen : requires_grad (generator s) = true)
    (HF : (500 * Z.to_nat (Loader.len train_loader) + 500 <= F)%nat) :
  train cfg train_loader F s = Raise ZeroDivisionError
  /\ exists s1 s2,
       begin_epoch cfg train_loader 0 s = Ok s1
       /\ epoch_loop cfg train_loader F s1 = Ok s2
       /\ train_iterator s2 = []
       /\ Z.of_nat (length (disc_losses s2))
          = Z.of_nat (length (disc_losses s)) + Loader.len train_loader
       /\ end_epoch cfg 0 s2 = Raise ZeroDivisionError.
Proof.
  assert (Hbs : 0 <= Config.batch_size cfg) by lia.
  destruct (@begin_epoch_ok _ cfg train_loader Hpos Hsame Hprint 0 s Hgen)
    as [s1 [Hb [HI1 [Hit1 [_ [Hdl1 _]]]]]].
  destruct (@batches_spec train_loader
              (randperm (torch_random s)
                 (length (Loader.train_data train_loader))) Hpos
              (randperm_length _ _)) as [Hy _].
  fold (yielded train_loader s) in Hy.
  destruct (@epoch_loop_ok _ cfg train_loader Hnf Hbs F F s1 HI1)
    as [s2 [Hw [_ [[Hbat _] Hit2]]]].
  { unfold mu. rewrite Hit1.
    pose proof (Z.mod_pos_bound (- gen_iterations s1) 500 ltac:(lia)). lia. }
  { rewrite Hit1. lia. }
  assert (He : end_epoch cfg 0 s2 = Raise ZeroDivisionError).
  { unfold end_epoch. rewrite (py_mod_ok _ Hprint). cbn [bind].
    unfold py_mod. rewrite Hzero. reflexivity. }
  split.
  - unfold train. destruct (range_first Hepochs) as [rest ->].
    cbn [for_each]. unfold run_epoch, epoch_loop.
    rewrite Hb. cbn [bind]. rewrite Hw. cbn [bind]. rewrite He. reflexivity.
  - exists s1, s2. repeat split; try assumption.
    rewrite Hit2, Hit1, Hdl1 in Hbat. cbn [length] in Hbat. lia.
Qed.

End ZeroIntervals.

(** ** Batches of unequal size *)

Section UnequalBatches.

Context {T : Backend}.

Lemma broadcast2_right_single {A : Type} (f : A -> A -> A) (x : list A)
    (b : A) :
  broadcast2 f x [b] = Ok (map (fun a => f a b) x).
Proof.
  destruct x as [|a [|a' x]]; reflexivity.
Qed.

Lemma broadcast2_mismatch {A : Type} (f : A -> A -> A) (x y : list A) :
  length x <> 1%nat -> length y <> 1%nat -> length x <> length y ->
  broadcast2 f x y = Raise ShapeError.
Proof.
  intros Hx Hy Hxy. unfold broadcast2.
  destruct x as [|a [|a' x]], y as [|b [|b' y]];
    cbn [length] in *; try lia; try reflexivity;
    destruct (Nat.eqb_spec (S (S (length x))) (S (S (length y))));
    try lia; reflexivity.
Qed.

Lemma penalty_after_interpolation (p : DParams) (x_hat : Batch) (lam : R) :
  x_hat <> [] ->
  exists pen,
    bind (autograd_grad (Discriminator p) x_hat
            (ones (length (Discriminator p x_hat))))
         (fun gradients =>
            bind (view_rows gradients)
              (fun gradients => Ok (penalty_of_gradients gradients lam)))
    = Ok pen
    /\ length pen = length x_hat.
Proof.
  intro Hne. rewrite autograd_grad_ones. cbn [bind].
  rewrite view_rows_nonempty.
  - cbn [bind]. eexists. split; [reflexivity|].
    now rewrite penalty_of_gradients_length, length_map, gradient_length.
  - intro H. apply (f_equal (@length _)) in H.
    rewrite gradient_length in H. destruct x_hat; [congruence|discriminate].
Qed.

Lemma penalty_of_no_sample (p : DParams) (lam : R) :
  bind (autograd_grad (Discriminator p) []
          (ones (length (Discriminator p []))))
       (fun gradients =>
          bind (view_rows gradients)
            (fun gradients => Ok (penalty_of_gradients gradients lam)))
  = Raise RuntimeError.
Proof.
  rewrite autograd_grad_ones. cbn [bind].
  assert (Hg : gradient (fun y => sum (Discriminator p y)) [] = []).
  { apply length_zero_iff_nil. now rewrite gradient_length. }
  rewrite Hg. reflexivity.
Qed.

Lemma compute_gradient_penalty_mismatch (p : DParams) (real fake : Batch)
    (lam : R) (k : nat) :
  length real <> 1%nat -> length fake <> 1%nat ->
  length real <> length fake ->
  compute_gradient_penalty real fake (Discriminator p) lam k
  = Raise ShapeError.
Proof.
  intros Hr Hf Hrf. unfold compute_gradient_penalty, expand_as.
  set (e := map2 (fun a s => smap (fun _ => a) s)
              (rand k (length real)) real).
  assert (He : length e = length real).
  { unfold e. rewrite length_map2, length_rand. apply Nat.min_id. }
  rewrite (@broadcast2_same_length _ (smap2 Rmult) e real) by exact He.
  cbn [bind].
  rewrite broadcast2_mismatch; [reflexivity| | |];
    rewrite ?length_map, ?He; assumption.
Qed.

(** X19. [compute_gradient_penalty] accepts a real and a fake batch exactly
    when both have at least one sample and their sizes are equal or one of
    them is 1; it then returns one penalty per sample of the larger batch,
    the single sample being used against every sample of the other batch.
    On sizes that do not broadcast it fails with a shape error, and when
    the interpolated batch has no sample (sizes 0 and 0, 0 and 1, 1 and 0)
    the reshaping of the gradients raises [RuntimeError]. *)
Theorem gradient_penalty_batch_sizes (p : DParams) (real fake : Batch)
    (lambda_pen : R) (k : nat) :
  (length real <> 1%nat -> length fake <> 1%nat ->
   length real <> length fake ->
   compute_gradient_penalty real fake (Discriminator p) lambda_pen k
   = Raise ShapeError)
  /\ ((real = [] /\ (length fake <= 1)%nat)
      \/ (fake = [] /\ (length real <= 1)%nat) ->
      compute_gradient_penalty real fake (Discriminator p) lambda_pen k
      = Raise RuntimeError)
  /\ (real <> [] -> fake <> [] ->
      length real = length fake \/ length real = 1%nat
      \/ length fake = 1%nat ->
      exists penalty,
        compute_gradient_penalty real fake (Discriminator p) lambda_pen k
        = Ok penalty
        /\ length penalty
           = if Nat.eqb (length real) 1 then length fake else length real).
Proof.
  split; [apply compute_gradient_penalty_mismatch|]. split.
  { intros [[-> Hf]|[-> Hr]].
    - destruct fake as [|f [|f' fake]]; cbn [length] in Hf; try lia.
      + now apply compute_gradient_penalty_empty.
      + exact (penalty_of_no_sample p lambda_pen).
    - destruct real as [|r [|r' real]]; cbn [length] in Hr; try lia.
      + now apply compute_gradient_penalty_empty.
      + exact (penalty_of_no_sample p lambda_pen). }
  intros Hreal Hfake Hsizes. unfold compute_gradient_penalty, expand_as.
  assert (Hlr : (0 < length real)%nat)
    by (destruct real; [congruence|cbn [length]; lia]).
  assert (Hlf : (0 < length fake)%nat)
    by (destruct fake; [congruence|cbn [length]; lia]).
  set (e := map2 (fun a s => smap (fun _ => a) s)
              (rand k (length real)) real).
  assert (He : length e = length real).
  { unfold e. rewrite length_map2, length_rand. apply Nat.min_id. }
  rewrite (@broadcast2_same_length _ (smap2 Rmult) e real) by exact He.
  cbn [bind].
  set (a_real := map2 (smap2 Rmult) e real).
  assert (Har : length a_real = length real).
  { unfold a_real. rewrite length_map2, He. apply Nat.min_id. }
  set (e' := map (smap (fun a => (1 - a)%R)) e).
  assert (He' : length e' = length real)
    by (unfold e'; now rewrite length_map).
  clearbody a_real e'.
  assert (Hnonempty : forall x : Batch, (0 < length x)%nat -> x <> []).
  { intros x Hx ->. inversion Hx. }
  destruct (Nat.eqb_spec (length real) 1) as [H1|H1].
  - (* a single real sample *)
    destruct e' as [|a [|a' l']]; cbn [length] in He'; try lia.
    cbn [broadcast2 bind].
    destruct a_real as [|r [|r' l]]; cbn [length] in Har; try lia.
    cbn [broadcast2 bind].
    destruct (@penalty_after_interpolation p
                (map (smap2 Rplus r) (map (smap2 Rmult a) fake)) lambda_pen)
      as [pen [Hp Hl]].
    { apply Hnonempty. now rewrite !length_map. }
    exists pen. split; [exact Hp|]. now rewrite Hl, !length_map.
  - destruct (Nat.eq_dec (length fake) 1) as [Hf|Hf].
    + (* a single fake sample *)
      destruct fake as [|f [|f' fake]]; cbn [length] in Hf; try lia.
      rewrite broadcast2_right_single. cbn [bind].
      rewrite broadcast2_same_length by (now rewrite length_map, Har, He').
      cbn [bind].
      destruct (@penalty_after_interpolation p
                  (map2 (smap2 Rplus) a_real
                     (map (fun a => smap2 Rmult a f) e')) lambda_pen)
        as [pen [Hp Hl]].
      { apply Hnonempty. rewrite length_map2, length_map, Har, He'. lia. }
      exists pen. split; [exact Hp|].
      rewrite Hl, length_map2, length_map, Har, He'. apply Nat.min_id.
    + (* equal sizes *)
      assert (Heq : length real = length fake) by tauto.
      rewrite broadcast2_same_length by congruence. cbn [bind].
      rewrite broadcast2_same_length
        by (rewrite length_map2, Har, He'; lia).
      cbn [bind].
      destruct (@penalty_after_interpolation p
                  (map2 (smap2 Rplus) a_real (map2 (smap2 Rmult) e' fake))
                  lambda_pen)
        as [pen [Hp Hl]].
      { apply Hnonempty. rewrite !length_map2, Har, He'. lia. }
      exists pen. split; [exact Hp|].
      rewrite Hl, !length_map2, Har, He'. lia.
Qed.

(** X20. A discriminator update on a batch of more than [batch_size]
    samples, for [batch_size >= 2], fails with a shape error: the noise batch
    is cut to [batch_size] rows, so the fake batch is smaller than the real
    one and the interpolation rejects the pair. *)
Theorem oversized_batch_is_rejected (cfg : Config.t) (s : State)
    (images : Batch) (rest : list Batch)
    (Hnext : train_iterator s = images :: rest)
    (Hbs : (2 <= Config.batch_size cfg)%Z)
    (Hover : (Config.batch_size cfg < Z.of_nat (length images))%Z)
    (Hnf : (0 <= Config.n_noise_features cfg)%Z) :
  disc_step cfg s = Raise ShapeError.
Proof.
  unfold disc_step. rewrite Hnext.
  replace (Z.min (Config.batch_size cfg) (Z.of_nat (length images)))
    with (Config.batch_size cfg) by lia.
  destruct (@randn_ok _ (np_random s) (Config.batch_size cfg)
              (Config.n_noise_features cfg) ltac:(lia) Hnf)
    as [noises [Hz Hlen]].
  rewrite Hz. cbn [bind params]. unfold disc_forward.
  rewrite compute_gradient_penalty_mismatch;
    [reflexivity| | |]; rewrite ?length_Generator, ?Hlen; lia.
Qed.

End UnequalBatches.

(** ** Start-up and the directories of a run *)

Section StartupDirectories.

Import Startup.

Local Open Scope string_scope.

(** The directories [startup] makes itself. *)
Lemma startup_makedirs (fs : FileSystem) (now : string)
    (flag : option string) (run : Run) :
  startup fs now flag = Ok run ->
  Forall (fun d => isdir fs d = false) (makedirs run)
  /\ (resume_training run = false ->
      isdir fs (result_dir run) = false
      /\ hd_error (makedirs run) = Some (result_dir run)
      /\ video_dir run = result_dir run ++ "video/"
      /\ weights run = weight_init)
  /\ (resume_training run = true ->
      makedirs run = []
      /\ video_dir run = result_dir run ++ "video/"
      /\ weights run = load_state_dict (result_dir run)).
Proof.
  unfold startup.
  destruct (negb (parse_args flag =? "None"));
    (destruct (read_yaml fs _) as [c|] eqn:Hc; [|discriminate]);
    (destruct (Config.resume_training c) eqn:Hr; cbn [negb];
     [|destruct (isdir fs _) eqn:Hd; cbn [negb]; [discriminate|];
       destruct (read_yaml fs "config.yml") eqn:Hcopy; [|discriminate]]);
    intro H; injection H as <-;
    cbn [makedirs resume_training result_dir video_dir weights];
    (split; [|split]); try discriminate; try (intros _; now repeat split);
    try constructor; try assumption;
    destruct (isdir fs (_ ++ "video/")) eqn:Hv; cbn [negb];
    repeat constructor; assumption.
Qed.

(** X12. Whenever the start-up code gets past the summary writer, every
    directory created on the way was no directory before.  A fresh run has
    an absent result directory, created first, a video directory created
    only when absent, and freshly initialised weights.  A resumed run makes
    no directory of its own, but its summary writer creates
    [<result_dir>tensorboard] when that is absent, so a resumed run creates
    at most this one directory; its weights are taken from the directory it
    resumes. *)
Theorem startup_creates_only_absent_directories (fs : FileSystem)
    (path_exists : string -> bool) (now : string) (flag : option string)
    (run : Run) (created : list string)
    (Hok : startup_with_writer fs path_exists now flag = Ok (run, created)) :
  startup fs now flag = Ok run
  /\ Forall (fun d => isdir fs d = false) created
  /\ (resume_training run = false ->
      isdir fs (result_dir run) = false
      /\ hd_error created = Some (result_dir run)
      /\ video_dir run = result_dir run ++ "video/"
      /\ weights run = weight_init)
  /\ (resume_training run = true ->
      created
      = (if isdir fs (result_dir run ++ "tensorboard") then []
         else [result_dir run ++ "tensorboard"])
      /\ video_dir run = result_dir run ++ "video/"
      /\ weights run = load_state_dict (result_dir run)).
Proof.
  revert Hok. unfold startup_with_writer.
  destruct (startup fs now flag) as [r| |] eqn:Hs; cbn [bind];
    try discriminate.
  destruct (startup_makedirs _ _ _ Hs) as [Hall [Hfresh Hres]].
  unfold SummaryWriter.
  destruct (isdir fs (result_dir r ++ "tensorboard")) eqn:Hd.
  - cbn [orb bind]. intro H. injection H as <- <-.
    rewrite app_nil_r.
    split; [reflexivity|]. split; [exact Hall|]. split.
    + exact Hfresh.
    + intro Hr. destruct (Hres Hr) as [Hm [Hv Hw]].
      rewrite Hm, Hd. now repeat split.
  - cbn [orb].
    destruct (existsb (String.eqb (result_dir r ++ "tensorboard"))
                (makedirs r)) eqn:Hmade; cbn [bind orb].
    + rewrite ?orb_true_r. cbn [bind].
      intro H. injection H as <- <-. rewrite app_nil_r.
      split; [reflexivity|]. split; [exact Hall|]. split.
      * exact Hfresh.
      * intro Hr. destruct (Hres Hr) as [Hm _].
        rewrite Hm in Hmade. discriminate.
    + rewrite ?orb_false_r.
      destruct (path_exists (result_dir r ++ "tensorboard")); cbn [bind];
        [discriminate|].
      intro H. injection H as <- <-.
      split; [reflexivity|]. split.
      { apply Forall_app. split; [exact Hall|]. now repeat constructor. }
      split.
      * intro Hr. destruct (Hfresh Hr) as [H1 [H2 [H3 H4]]].
        repeat split; try assumption.
        destruct (makedirs r); [discriminate|exact H2].
      * intro Hr. destruct (Hres Hr) as [Hm [Hv Hw]].
        rewrite Hm, Hd. now repeat split.
Qed.

(** On a disk that holds nothing but a local [config.yml] asking to resume,
    the run resumes from [None] and its writer creates
    [Nonetensorboard]. *)
Lemma startup_creates_only_absent_directories_witness :
  exists run,
    startup_with_writer Small.disk_local_resume
      (fun path => path =? "config.yml") "26-11-04_10-00" None
    = Ok (run, ["Nonetensorboard"])
    /\ resume_training run = true
    /\ isdir Small.disk_local_resume "Nonetensorboard" = false
    /\ weights run = load_state_dict "None".
Proof.
  eexists. split; [reflexivity|].
  match goal with
  | |- resume_training ?r = true /\ _ =>
      destruct (@startup_creates_only_absent_directories
                  Small.disk_local_resume (fun path => path =? "config.yml")
                  "26-11-04_10-00" None r ["Nonetensorboard"] eq_refl)
        as [_ [Hall [_ Hres]]]
  end.
  split; [reflexivity|]. split.
  - now inversion Hall.
  - now apply Hres.
Defined.

End StartupDirectories.

(** ** The further properties on concrete inputs *)

Section ConcreteFurther.

Local Open Scope Z_scope.

Lemma small_valid :
  0 <= Config.n_noise_features Small.config
  /\ 0 < Loader.batch_size Small.loader
  /\ Loader.batch_size Small.loader = Config.batch_size Small.config
  /\ Config.print_every Small.config <> 0
  /\ Config.checkpoints Small.config <> 0.
Proof. cbn. repeat split; lia. Qed.

Lemma small_len : Loader.len Small.loader = 1.
Proof. reflexivity. Qed.

Lemma small_fuel :
  (500 * Z.to_nat (Loader.len Small.loader) + 500 <= 1000)%nat.
Proof. rewrite small_len. cbn. lia. Qed.

Lemma streams_stay_aligned_witness :
  exists s',
    initial_state (T := Small.backend) Small.config Small.loader 0%R 0%R tt tt
    = Ok (Small.state [])
    /\ train Small.config Small.loader 1000 (Small.state []) = Ok s'
    /\ aligned s'.
Proof.
  destruct small_valid as [H1 [H2 [H3 [H4 H5]]]].
  destruct (@for_each_epoch_ok Small.backend Small.config Small.loader
              H1 H2 H3 H4 H5 1000%nat small_fuel
              (range (Config.epochs Small.config)) (Small.state []) eq_refl)
    as [s' [Hrun _]].
  exists s'.
  assert (Hinit : initial_state (T := Small.backend) Small.config
                    Small.loader 0%R 0%R tt tt = Ok (Small.state []))
    by reflexivity.
  split; [exact Hinit|]. split; [exact Hrun|].
  exact (proj2 (@streams_stay_aligned Small.backend Small.config Small.loader
                  0%R 0%R tt tt 1000%nat (Small.state []) s' Hinit Hrun)).
Defined.

Lemma training_completes_witness :
  1 <= Config.n_noise_features Small.config
  /\ 1 <= Loader.batch_size Small.loader
  /\ Loader.batch_size Small.loader = Config.batch_size Small.config
  /\ Config.print_every Small.config <> 0
  /\ Config.checkpoints Small.config <> 0
  /\ requires_grad (generator (Small.state [])) = true
  /\ exists s',
       train Small.config Small.loader 1000 (Small.state []) = Ok s'
       /\ length (disc_losses s') = 1%nat.
Proof.
  destruct small_valid as [_ [_ [H3 [H4 H5]]]].
  assert (H1 : 1 <= Config.n_noise_features Small.config) by (cbn; lia).
  assert (H2 : 1 <= Loader.batch_size Small.loader) by (cbn; lia).
  split; [exact H1|]. split; [exact H2|]. split; [exact H3|].
  split; [exact H4|]. split; [exact H5|]. split; [reflexivity|].
  destruct (@training_completes Small.backend Small.config Small.loader
              (Small.state []) 1000%nat H1 H2 H3 H4 H5 eq_refl small_fuel)
    as [s' [Hrun Hlen]].
  exists s'. split; [exact Hrun|]. rewrite Hlen. reflexivity.
Defined.

Lemma epoch_lists_are_the_epoch_witness :
  requires_grad (generator (Small.state [])) = true
  /\ exists s',
       run_epoch Small.config Small.loader 1000 0 (Small.state []) = Ok s'
       /\ length (epoch_dlosses s') = 1%nat.
Proof.
  destruct small_valid as [H1 [H2 [H3 [H4 H5]]]].
  split; [reflexivity|].
  destruct (@epoch_lists_are_the_epoch Small.backend Small.config
              Small.loader H1 H2 H3 H4 H5 0 (Small.state []) 1000%nat
              eq_refl small_fuel)
    as [s' [Hrun [_ [_ Hlen]]]].
  exists s'. split; [exact Hrun|]. rewrite small_len in Hlen. lia.
Defined.

Lemma generator_updates_per_epoch_witness :
  requires_grad (generator (Small.state [])) = true
  /\ 1 <= Loader.len Small.loader
  /\ 1 <= Config.disc_steps Small.config
  /\ exists s',
       run_epoch Small.config Small.loader 1000 0 (Small.state []) = Ok s'
       /\ gen_iterations s' = 1.
Proof.
  destruct small_valid as [H1 [H2 [H3 [H4 H5]]]].
  assert (Hb : 1 <= Loader.len Small.loader) by (rewrite small_len; lia).
  assert (Hd : 1 <= Config.disc_steps Small.config) by (cbn; lia).
  split; [reflexivity|]. split; [exact Hb|]. split; [exact Hd|].
  destruct (@generator_updates_per_epoch Small.backend Small.config
              Small.loader H1 H2 H3 H4 H5 0 (Small.state []) 1000%nat
              eq_refl small_fuel Hb Hd)
    as [s' [added [Hrun [_ [Hgi Hbounds]]]]].
  exists s'. split; [exact Hrun|].
  rewrite Hgi, small_len in *. cbn [gen_iterations Small.state]. lia.
Defined.

Lemma zero_print_every_raises_at_once_witness :
  Config.print_every Small.config_print_never = 0
  /\ 1 <= Config.epochs Small.config_print_never
  /\ train Small.config_print_never Small.loader 5 (Small.state [])
     = Raise ZeroDivisionError.
Proof.
  assert (H : 1 <= Config.epochs Small.config_print_never) by (cbn; lia).
  split; [reflexivity|]. split; [exact H|].
  exact (proj1 (@zero_print_every_raises_at_once Small.backend
                  Small.config_print_never Small.loader (Small.state [])
                  5%nat eq_refl H)).
Defined.

Lemma zero_checkpoints_raises_after_first_epoch_witness :
  Config.checkpoints Small.config_checkpoint_never = 0
  /\ Config.print_every Small.config_checkpoint_never <> 0
  /\ 1 <= Config.epochs Small.config_checkpoint_never
  /\ train Small.config_checkpoint_never Small.loader 1000 (Small.state [])
     = Raise ZeroDivisionError.
Proof.
  assert (H1 : 0 <= Config.n_noise_features Small.config_checkpoint_never)
    by (cbn; lia).
  assert (H2 : 0 < Loader.batch_size Small.loader) by (cbn; lia).
  assert (H4 : Config.print_every Small.config_checkpoint_never <> 0)
    by (cbn; lia).
  assert (H5 : 1 <= Config.epochs Small.config_checkpoint_never)
    by (cbn; lia).
  split; [reflexivity|]. split; [exact H4|]. split; [exact H5|].
  exact (proj1 (@zero_checkpoints_raises_after_first_epoch Small.backend
                  Small.config_checkpoint_never Small.loader (Small.state [])
                  1000%nat H1 H2 eq_refl H4 eq_refl H5 eq_refl small_fuel)).
Defined.

Lemma gradient_penalty_batch_sizes_witness :
  [Small.pixel 0; Small.pixel 1] <> []
  /\ [Small.pixel 2] <> []
  /\ (length [Small.pixel 0; Small.pixel 1] = length [Small.pixel 2]
      \/ length [Small.pixel 0; Small.pixel 1] = 1%nat
      \/ length [Small.pixel 2] = 1%nat)
  /\ exists penalty,
       compute_gradient_penalty (T := Small.backend)
         [Small.pixel 0; Small.pixel 1] [Small.pixel 2]
         (Discriminator (0%R : @DParams Small.backend)) 10%R 0%nat
       = Ok penalty
       /\ length penalty = 2%nat.
Proof.
  assert (Hr : [Small.pixel 0; Small.pixel 1] <> []) by discriminate.
  assert (Hf : [Small.pixel 2] <> []) by discriminate.
  assert (H : length [Small.pixel 0; Small.pixel 1] = length [Small.pixel 2]
              \/ length [Small.pixel 0; Small.pixel 1] = 1%nat
              \/ length [Small.pixel 2] = 1%nat) by (right; right; reflexivity).
  split; [exact Hr|]. split; [exact Hf|]. split; [exact H|].
  exact (proj2 (proj2 (@gradient_penalty_batch_sizes Small.backend 0%R
                         [Small.pixel 0; Small.pixel 1] [Small.pixel 2]
                         10%R 0%nat))
           Hr Hf H).
Defined.

Lemma oversized_batch_is_rejected_witness :
  train_iterator (Small.state [repeat (Small.pixel 0) 9])
  = repeat (Small.pixel 0) 9 :: []
  /\ 2 <= Config.batch_size Small.config
  /\ Config.batch_size Small.config
     < Z.of_nat (length (repeat (Small.pixel 0) 9))
  /\ 0 <= Config.n_noise_features Small.config
  /\ disc_step Small.config (Small.state [repeat (Small.pixel 0) 9])
     = Raise ShapeError.
Proof.
  assert (H1 : 2 <= Config.batch_size Small.config) by (cbn; lia).
  assert (H2 : Config.batch_size Small.config
               < Z.of_nat (length (repeat (Small.pixel 0) 9)))
    by (cbn; lia).
  assert (H3 : 0 <= Config.n_noise_features Small.config) by (cbn; lia).
  split; [reflexivity|]. split; [exact H1|]. split; [exact H2|].
  split; [exact H3|].
  exact (@oversized_batch_is_rejected Small.backend Small.config
           (Small.state [repeat (Small.pixel 0) 9])
           (repeat (Small.pixel 0) 9) [] eq_refl H1 H2 H3).
Defined.

End ConcreteFurther.
